(** * Ledger engine of go_bank_api: accounts, transfers, credits, settlement

    A shallow embedding of the account and credit services of the banking
    backend, together with the repository layer they call and the table
    constraints of the migrations, followed by the properties of the
    ledger specification proved (or refuted) on that embedding.  The
    analytics and the card service are embedded after them, with
    properties of their own.

    Modelling conventions.
    - Money is [float64] in the Go structs and [DECIMAL(15,2)] in the
      tables.  Amounts are modelled as exact rationals [Q], equalities
      between them are stated with [==], and binary rounding is not
      modelled.  The statements of the repository layer write the value
      they are given.  What a column keeps of a value (the value rounded
      to the cent, halves away from zero, and nothing from fourteen digits
      before the point on) is [DECIMAL_15_2]; the value written and the
      value kept agree exactly when the value is [held_15_2].  The
      properties of deposits, withdrawals, transfers and card payments
      assume this of the amounts and balances they speak of, and the
      properties of the figures of a schedule, which are not whole cents,
      are stated on the rows [generatePaymentSchedule] hands to the
      repository, not on the rows as stored.
    - A table is the list of its rows in insertion order.  PRIMARY KEY,
      FOREIGN KEY and CHECK constraints of the migrations are evaluated by
      the statements that insert or update rows.
    - [uuid.New()] draws from a counter kept in the world.
    - [*sql.Tx] is the list of the writes issued through the handle and not
      yet committed; statements issued through [*sql.DB] are committed at
      once.  Reads through a transaction see the committed rows and the
      transaction's own writes (READ COMMITTED).
    - The clock, the calendar arithmetic of [time.AddDate] and the answer
      of the central-bank rate service are inputs, gathered in [Env]; all
      the calls of [time.Now()] and [NOW()] of one operation return the
      same instant.
    - The [users] table is not modelled, nor the foreign keys to it.
    - Logging and the e-mail notifications sent after a commit have no
      effect on the ledger and are left out.
    - Operations run one at a time, except in [Race], where two
      withdrawals are interleaved step by step. *)

From Stdlib Require Import List ZArith QArith Qpower String Bool Lia Lqa PArith.
From Stdlib Require Import Permutation Sorted Ascii.
Import ListNotations.

Set Implicit Arguments.

(* ================================================================== *)
(** * Basic types *)

Definition UUID := positive.
Definition Time := Z.
Bind Scope positive_scope with UUID.
Bind Scope Z_scope with Time.

(** Comparisons of the Go source on amounts. *)
Definition Qleb (a b : Q) : bool := Qle_bool a b.
Definition Qltb (a b : Q) : bool := negb (Qle_bool b a).

(* ================================================================== *)
(** * Column types of the migrations *)

(** A rational rounded to the nearest integer, halves away from zero:
    the rounding PostgreSQL applies to a [numeric] value that has more
    decimals than its column. *)
Definition round_half_away (q : Q) : Z :=
  (Z.sgn (Qnum q)
   * ((2 * Z.abs (Qnum q) + Z.pos (Qden q)) / (2 * Z.pos (Qden q))))%Z.

(** What a column [DECIMAL(precision,2)] keeps of a value written to it:
    the value rounded to two decimals, or nothing, with the statement
    refused (numeric field overflow), when the rounded value has more than
    [precision] digits.  The CHECK constraints of the table see the
    rounded value. *)
Definition DECIMAL_2 (precision : Z) (q : Q) : option Q :=
  let cents := round_half_away (q * 100)%Q in
  if (Z.abs cents <? 10 ^ precision)%Z then Some (cents # 100) else None.

(** [DECIMAL(15,2)], the type of the balances, of the amounts of the
    entries, of the credits and of the installments, and [DECIMAL(5,2)],
    the type of the interest rate of a credit. *)
Definition DECIMAL_15_2 : Q -> option Q := DECIMAL_2 15.
Definition DECIMAL_5_2 : Q -> option Q := DECIMAL_2 5.

(** The column keeps [q] as it is: [q] is a whole number of cents within
    the range of the column. *)
Definition held_2 (precision : Z) (q : Q) : Prop :=
  match DECIMAL_2 precision q with
  | Some stored => (stored == q)%Q
  | None => False
  end.

Definition held_15_2 : Q -> Prop := held_2 15.
Definition held_5_2 : Q -> Prop := held_2 5.

(** The column accepts [q], as it is or rounded. *)
Definition fits_15_2 (q : Q) : Prop := DECIMAL_15_2 q <> None.
Definition fits_5_2 (q : Q) : Prop := DECIMAL_5_2 q <> None.

(** [model.TransactionType] and its constants (internal/model). *)
Inductive TransactionType :=
| TransactionTypeTransfer
| TransactionTypeDeposit
| TransactionTypeWithdrawal
| TransactionTypeCredit
| TransactionTypeCreditPayment
| TransactionTypeCardPayment.

(* ================================================================== *)
(** * The model structs *)

Module Account.
Record t := mk {
  ID : UUID;
  UserID : UUID;
  Balance : Q;
  Currency : string;
  CreatedAt : Time;
  UpdatedAt : Time
}.
End Account.

Module Transaction.
Record t := mk {
  ID : UUID;
  AccountID : UUID;
  Amount : Q;
  Type_ : TransactionType;
  ReferenceID : option UUID;
  CreatedAt : Time
}.
End Transaction.

Module Credit.
Record t := mk {
  ID : UUID;
  AccountID : UUID;
  UserID : UUID;
  Amount : Q;
  InterestRate : Q;
  TermMonths : Z;
  MonthlyPayment : Q;
  StartDate : Time;
  EndDate : Time;
  Status : string;
  CreatedAt : Time;
  UpdatedAt : Time
}.
End Credit.

Module PaymentSchedule.
Record t := mk {
  ID : UUID;
  CreditID : UUID;
  PaymentNumber : Z;
  PaymentDate : Time;
  Amount : Q;
  Principal : Q;
  Interest : Q;
  Status : string;
  PaidAt : option Time;
  CreatedAt : Time;
  UpdatedAt : Time
}.
End PaymentSchedule.

(** Request bodies.  The [validate] struct tags of the source
    ([required,gt=0] on the amounts, [required,gte=6,lte=60] on
    [TermMonths]) are annotations only: see [CreditHandler]. *)
Module CreateCreditRequest.
Record t := mk {
  AccountID : UUID;
  Amount : Q;
  TermMonths : Z
}.
End CreateCreditRequest.

Module CreditPaymentRequest.
Record t := mk {
  CreditID : UUID;
  Amount : Q
}.
End CreditPaymentRequest.

(* ================================================================== *)
(** * The store *)

Record DB := mkDB {
  accounts : list Account.t;
  transactions : list Transaction.t;
  credits : list Credit.t;
  payment_schedules : list PaymentSchedule.t
}.

Record World := mkWorld {
  db : DB;
  next_uuid : UUID
}.

(** What the environment answers during one operation. *)
Record Env := mkEnv {
  time_Now : Time;
  time_AddDate : Time -> Z -> Z -> Z -> Time;
  GetCentralBankRate : option Q
}.

(** Constraints declared by the migrations. *)
Inductive Constraint :=
| PrimaryKey
| ForeignKey
| CheckBalanceNonNegative   (* accounts: CHECK (balance >= 0) *)
| CheckAmountPositive.      (* transactions: CHECK (amount > 0) *)

Inductive error :=
| ErrNoRows
| ErrConstraint (c : Constraint)
| ErrAccountNotFound
| ErrCreditNotFound
| ErrNotPositive
| ErrNotOwner
| ErrInsufficientFunds
| ErrCurrency
| ErrPaymentTooSmall
| ErrNoPendingPayments
| Wrap (context : string) (cause : error).

Inductive Result (A : Type) :=
| Ok (a : A)
| Err (e : error).
Arguments Ok {A} a.
Arguments Err {A} e.

(** Service and repository code runs in a monad that threads the world;
    an error stops the computation and keeps the world reached so far,
    exactly as an early [return err] does. *)
Definition M (A : Type) := World -> World * Result A.

Definition ret {A} (a : A) : M A := fun w => (w, Ok a).
Definition fail {A} (e : error) : M A := fun w => (w, Err e).
Definition bind {A B} (c : M A) (k : A -> M B) : M B :=
  fun w => match c w with
           | (w', Ok a) => k a w'
           | (w', Err e) => (w', Err e)
           end.
(** [fmt.Errorf("context: %w", err)] on the error path. *)
Definition wrap {A} (context : string) (c : M A) : M A :=
  fun w => match c w with
           | (w', Ok a) => (w', Ok a)
           | (w', Err e) => (w', Err (Wrap context e))
           end.

Declare Scope go_scope.
Delimit Scope go_scope with go.
Notation "x <- c ;; k" := (bind c (fun x => k))
  (at level 61, c at next level, right associativity) : go_scope.
Notation "c ;;; k" := (bind c (fun _ => k))
  (at level 61, right associativity) : go_scope.

Definition uuid_New : M UUID :=
  fun w => (mkWorld (db w) (Pos.succ (next_uuid w)), Ok (next_uuid w)).

(** ** Table updates *)

Definition set_accounts (d : DB) (l : list Account.t) : DB :=
  mkDB l (transactions d) (credits d) (payment_schedules d).
Definition set_transactions (d : DB) (l : list Transaction.t) : DB :=
  mkDB (accounts d) l (credits d) (payment_schedules d).
Definition set_credits (d : DB) (l : list Credit.t) : DB :=
  mkDB (accounts d) (transactions d) l (payment_schedules d).
Definition set_payment_schedules (d : DB) (l : list PaymentSchedule.t) : DB :=
  mkDB (accounts d) (transactions d) (credits d) l.

Definition find_account (l : list Account.t) (id : UUID) : option Account.t :=
  find (fun a => Pos.eqb (Account.ID a) id) l.
Definition find_credit (l : list Credit.t) (id : UUID) : option Credit.t :=
  find (fun c => Pos.eqb (Credit.ID c) id) l.
Definition find_payment (l : list PaymentSchedule.t) (id : UUID)
  : option PaymentSchedule.t :=
  find (fun p => Pos.eqb (PaymentSchedule.ID p) id) l.
Definition has_transaction (l : list Transaction.t) (id : UUID) : bool :=
  existsb (fun t => Pos.eqb (Transaction.ID t) id) l.

(** [SET balance = balance + $1, updated_at = NOW() WHERE id = $2] on one
    row.  The sum is written as computed: it is what the column keeps
    when it is [held_15_2]. *)
Definition add_balance (id : UUID) (amount : Q) (now : Time) (a : Account.t)
  : Account.t :=
  if Pos.eqb (Account.ID a) id
  then Account.mk (Account.ID a) (Account.UserID a)
         (Account.Balance a + amount) (Account.Currency a)
         (Account.CreatedAt a) now
  else a.

(** ** Transactions of the store *)

Inductive TxWrite :=
| WUpdateBalance (id : UUID) (amount : Q) (now : Time)
| WInsertTransaction (t : Transaction.t).

Definition Tx := list TxWrite.

Definition apply_write (d : DB) (wr : TxWrite) : DB :=
  match wr with
  | WUpdateBalance id amount now =>
      set_accounts d (map (add_balance id amount now) (accounts d))
  | WInsertTransaction t =>
      set_transactions d (transactions d ++ [t])
  end.

(** The rows a statement of the transaction sees. *)
Definition tx_view (d : DB) (tx : Tx) : DB := fold_left apply_write tx d.

(** [db.BeginTx]. *)
Definition BeginTx : M Tx := ret [].

(** [tx.Commit]: the writes of the transaction become the committed state.
    [defer tx.Rollback()] needs no counterpart: a transaction that is not
    committed is a list that is dropped. *)
Definition Commit (tx : Tx) : M unit :=
  fun w => (mkWorld (tx_view (db w) tx) (next_uuid w), Ok tt).

(** ** ORDER BY: a stable insertion sort on an integer key *)

Section OrderBy.
Variable A : Type.
Variable key : A -> Z.

Fixpoint insert_by (x : A) (l : list A) : list A :=
  match l with
  | [] => [x]
  | y :: l' => if Z.leb (key x) (key y) then x :: l else y :: insert_by x l'
  end.

Definition order_by (l : list A) : list A :=
  fold_right insert_by [] l.
End OrderBy.

Local Open Scope string_scope.
Local Open Scope Q_scope.
Local Open Scope list_scope.
Local Open Scope go_scope.

(* ================================================================== *)
(** * Repository layer *)

Module AccountRepository.

(** [GetByID]: issued through [r.db], no lock, committed rows. *)
Definition GetByID (id : UUID) : M Account.t :=
  fun w => match find_account (accounts (db w)) id with
           | Some a => (w, Ok a)
           | None => (w, Err ErrAccountNotFound)
           end.

(** [GetByIDForUpdate]: [SELECT ... FOR UPDATE] issued through [tx]. *)
Definition GetByIDForUpdate (tx : Tx) (id : UUID) : M Account.t :=
  fun w => match find_account (accounts (tx_view (db w) tx)) id with
           | Some a => (w, Ok a)
           | None => (w, Err (Wrap "failed to get account" ErrNoRows))
           end.

(** [UpdateBalanceTx]: [UPDATE accounts SET balance = balance + $1 ...
    WHERE id = $2] through [tx].  The statement is refused when a row it
    rewrites violates [CHECK (balance >= 0)]; with no row rewritten the
    function reports "account not found".  The constraint is evaluated on
    the sum as computed, which is what the column keeps of it when the
    sum is [held_15_2]; the refusal of a sum the column cannot hold
    ([DECIMAL_15_2] gives nothing) is not modelled. *)
Definition UpdateBalanceTx (env : Env) (tx : Tx) (id : UUID) (amount : Q)
  : M Tx :=
  fun w =>
    let rows := filter (fun a => Pos.eqb (Account.ID a) id)
                  (accounts (tx_view (db w) tx)) in
    if negb (forallb (fun a => Qleb 0 (Account.Balance a + amount)) rows)
    then (w, Err (Wrap "failed to update balance"
                    (ErrConstraint CheckBalanceNonNegative)))
    else match rows with
         | [] => (w, Err ErrAccountNotFound)
         | _ :: _ => (w, Ok (tx ++ [WUpdateBalance id amount (time_Now env)]))
         end.

(** [Create]: [INSERT INTO accounts] issued through [r.db], under the
    primary key on [id] and [CHECK (balance >= 0)].  A duplicate key is
    reported as "account already exists". *)
Definition Create (account : Account.t) : M unit :=
  fun w =>
    let d := db w in
    if negb (Qleb 0 (Account.Balance account))
    then (w, Err (Wrap "failed to create account"
                    (ErrConstraint CheckBalanceNonNegative)))
    else match find_account (accounts d) (Account.ID account) with
         | Some _ => (w, Err (Wrap "account already exists"
                                (ErrConstraint PrimaryKey)))
         | None =>
             (mkWorld (set_accounts d (accounts d ++ [account])) (next_uuid w),
              Ok tt)
         end.

(** [GetUserAccounts]: [WHERE user_id = $1].  The query asks for no
    ordering, so the store may return the rows in any order; they are
    listed here in the order of insertion, and the statements about this
    list do not depend on its order. *)
Definition GetUserAccounts (userID : UUID) : M (list Account.t) :=
  fun w =>
    (w, Ok (filter (fun a => Pos.eqb (Account.UserID a) userID)
              (accounts (db w)))).

End AccountRepository.

Module TransactionRepository.

(** [CreateTx]: [INSERT INTO transactions] through [tx], under
    [CHECK (amount > 0)], the primary key on [id] and the foreign key
    from [account_id] to [accounts].  The amount is checked and written
    as given, which is what the column keeps of it when the amount is
    [held_15_2]. *)
Definition CreateTx (tx : Tx) (transaction : Transaction.t) : M Tx :=
  fun w =>
    let v := tx_view (db w) tx in
    if negb (Qltb 0 (Transaction.Amount transaction))
    then (w, Err (Wrap "failed to create transaction"
                    (ErrConstraint CheckAmountPositive)))
    else if has_transaction (transactions v) (Transaction.ID transaction)
    then (w, Err (Wrap "failed to create transaction"
                    (ErrConstraint PrimaryKey)))
    else match find_account (accounts v) (Transaction.AccountID transaction) with
         | None => (w, Err (Wrap "failed to create transaction"
                              (ErrConstraint ForeignKey)))
         | Some _ => (w, Ok (tx ++ [WInsertTransaction transaction]))
         end.

(** [time.Hour], a [time.Duration]: durations count nanoseconds, and so
    do the instants they are added to. *)
Definition time_Hour : Z := 3600000000000%Z.

(** The rows of [WHERE account_id = $1 AND created_at >= $2 AND
    created_at < $3]. *)
Definition in_period (accountID : UUID) (startDate endDate : Time)
  (t : Transaction.t) : bool :=
  Pos.eqb (Transaction.AccountID t) accountID
  && Z.leb startDate (Transaction.CreatedAt t)
  && Z.ltb (Transaction.CreatedAt t) endDate.

(** [GetByAccountAndPeriod]: the entries of an account from [startDate]
    to the end of the day that starts at [endDate], [ORDER BY created_at
    DESC]. *)
Definition GetByAccountAndPeriod (accountID : UUID) (startDate endDate : Time)
  : M (list Transaction.t) :=
  let endDate := (endDate + 24 * time_Hour)%Z in
  fun w =>
    (w, Ok (order_by (fun t => (- Transaction.CreatedAt t)%Z)
              (filter (in_period accountID startDate endDate)
                 (transactions (db w))))).

End TransactionRepository.

Module CreditRepository.

(** [CreateCredit]: [INSERT INTO credits] issued through [r.db]: the row
    is committed when the call returns.  The figures are written as
    given; the columns [amount] and [monthly_payment] keep [DECIMAL_15_2]
    of them and [interest_rate] keeps [DECIMAL_5_2], and a figure they
    cannot hold is refused by the store, which is not modelled. *)
Definition CreateCredit (credit : Credit.t) : M unit :=
  fun w =>
    let d := db w in
    match find_credit (credits d) (Credit.ID credit) with
    | Some _ => (w, Err (Wrap "failed to create credit"
                           (ErrConstraint PrimaryKey)))
    | None =>
        match find_account (accounts d) (Credit.AccountID credit) with
        | None => (w, Err ErrAccountNotFound)
        | Some _ =>
            (mkWorld (set_credits d (credits d ++ [credit])) (next_uuid w),
             Ok tt)
        end
    end.

Definition GetCreditByID (id : UUID) : M Credit.t :=
  fun w => match find_credit (credits (db w)) id with
           | Some c => (w, Ok c)
           | None => (w, Err ErrCreditNotFound)
           end.

(** [CreatePaymentSchedule]: [INSERT INTO payment_schedules] issued
    through [r.db].  The figures are written as given; the columns
    [amount], [principal] and [interest] each keep [DECIMAL_15_2] of
    theirs ([stored_amount], [stored_principal], [stored_interest]). *)
Definition CreatePaymentSchedule (schedule : PaymentSchedule.t) : M unit :=
  fun w =>
    let d := db w in
    match find_payment (payment_schedules d) (PaymentSchedule.ID schedule) with
    | Some _ => (w, Err (Wrap "failed to create payment schedule"
                           (ErrConstraint PrimaryKey)))
    | None =>
        match find_credit (credits d) (PaymentSchedule.CreditID schedule) with
        | None => (w, Err (Wrap "failed to create payment schedule"
                             (ErrConstraint ForeignKey)))
        | Some _ =>
            (mkWorld (set_payment_schedules d
                        (payment_schedules d ++ [schedule])) (next_uuid w),
             Ok tt)
        end
    end.

(** [WHERE credit_id = $1 ORDER BY payment_number]. *)
Definition GetPaymentSchedule (creditID : UUID) : M (list PaymentSchedule.t) :=
  fun w =>
    (w, Ok (order_by PaymentSchedule.PaymentNumber
              (filter (fun p => Pos.eqb (PaymentSchedule.CreditID p) creditID)
                 (payment_schedules (db w))))).

(** [WHERE status = 'pending' AND payment_date <= $1 ORDER BY payment_date]. *)
Definition is_due (before : Time) (p : PaymentSchedule.t) : bool :=
  String.eqb (PaymentSchedule.Status p) "pending"
  && Z.leb (PaymentSchedule.PaymentDate p) before.

Definition GetPendingPayments (before : Time) : M (list PaymentSchedule.t) :=
  fun w =>
    (w, Ok (order_by PaymentSchedule.PaymentDate
              (filter (is_due before) (payment_schedules (db w))))).

Definition set_payment_status (paymentID : UUID) (status : string)
  (paidAt : option Time) (now : Time) (p : PaymentSchedule.t)
  : PaymentSchedule.t :=
  if Pos.eqb (PaymentSchedule.ID p) paymentID
  then PaymentSchedule.mk (PaymentSchedule.ID p) (PaymentSchedule.CreditID p)
         (PaymentSchedule.PaymentNumber p) (PaymentSchedule.PaymentDate p)
         (PaymentSchedule.Amount p) (PaymentSchedule.Principal p)
         (PaymentSchedule.Interest p) status paidAt
         (PaymentSchedule.CreatedAt p) now
  else p.

(** [UpdatePaymentStatus]: [UPDATE payment_schedules ... WHERE id = $3]
    issued through [r.db]; the number of rows is not inspected. *)
Definition UpdatePaymentStatus (env : Env) (paymentID : UUID)
  (status : string) (paidAt : option Time) : M unit :=
  fun w =>
    let d := db w in
    (mkWorld (set_payment_schedules d
                (map (set_payment_status paymentID status paidAt (time_Now env))
                   (payment_schedules d))) (next_uuid w),
     Ok tt).

Definition set_credit_status (creditID : UUID) (status : string) (now : Time)
  (c : Credit.t) : Credit.t :=
  if Pos.eqb (Credit.ID c) creditID
  then Credit.mk (Credit.ID c) (Credit.AccountID c) (Credit.UserID c)
         (Credit.Amount c) (Credit.InterestRate c) (Credit.TermMonths c)
         (Credit.MonthlyPayment c) (Credit.StartDate c) (Credit.EndDate c)
         status (Credit.CreatedAt c) now
  else c.

(** [UpdateCreditStatus]: issued through [r.db]. *)
Definition UpdateCreditStatus (env : Env) (creditID : UUID) (status : string)
  : M unit :=
  fun w =>
    let d := db w in
    (mkWorld (set_credits d
                (map (set_credit_status creditID status (time_Now env))
                   (credits d))) (next_uuid w),
     Ok tt).

Definition GetPaymentByID (id : UUID) : M PaymentSchedule.t :=
  fun w => match find_payment (payment_schedules (db w)) id with
           | Some p => (w, Ok p)
           | None => (w, Err (Wrap "payment not found" ErrNoRows))
           end.

(** [GetUserCredits]: [WHERE user_id = $1].  No ordering is asked; the
    rows are listed in the order of insertion, and the statements about
    this list do not depend on its order. *)
Definition GetUserCredits (userID : UUID) : M (list Credit.t) :=
  fun w =>
    (w, Ok (filter (fun c => Pos.eqb (Credit.UserID c) userID)
              (credits (db w)))).

End CreditRepository.

(* ================================================================== *)
(** * Account service (internal/service/account.go) *)

Module AccountService.

Definition is_RUB (currency : string) : bool := String.eqb currency "RUB".

(** [Transfer]. *)
Definition Transfer (env : Env) (fromAccountID toAccountID : UUID)
  (amount : Q) (userID : UUID) : M unit :=
  if Qleb amount 0 then fail ErrNotPositive else
  fromAccount <- wrap "get sender account"
                   (AccountRepository.GetByID fromAccountID) ;;
  if negb (Pos.eqb (Account.UserID fromAccount) userID)
  then fail ErrNotOwner else
  if Qltb (Account.Balance fromAccount) amount
  then fail ErrInsufficientFunds else
  toAccount <- wrap "get recipient account"
                 (AccountRepository.GetByID toAccountID) ;;
  if negb (is_RUB (Account.Currency fromAccount))
     || negb (is_RUB (Account.Currency toAccount))
  then fail ErrCurrency else
  tx <- wrap "begin transaction" BeginTx ;;
  tx <- wrap "debit"
          (AccountRepository.UpdateBalanceTx env tx fromAccountID (- amount)) ;;
  tx <- wrap "credit"
          (AccountRepository.UpdateBalanceTx env tx toAccountID amount) ;;
  transferID <- uuid_New ;;
  let now := time_Now env in
  debitID <- uuid_New ;;
  let debitTransaction :=
    Transaction.mk debitID fromAccountID amount TransactionTypeTransfer
      (Some transferID) now in
  creditID <- uuid_New ;;
  let creditTransaction :=
    Transaction.mk creditID toAccountID amount TransactionTypeTransfer
      (Some transferID) now in
  tx <- wrap "record debit" (TransactionRepository.CreateTx tx debitTransaction) ;;
  tx <- wrap "record credit" (TransactionRepository.CreateTx tx creditTransaction) ;;
  wrap "commit transfer" (Commit tx).

(** [Deposit]. *)
Definition Deposit (env : Env) (accountID : UUID) (amount : Q) (userID : UUID)
  : M unit :=
  if Qleb amount 0 then fail ErrNotPositive else
  account <- wrap "get account" (AccountRepository.GetByID accountID) ;;
  if negb (Pos.eqb (Account.UserID account) userID)
  then fail ErrNotOwner else
  if negb (is_RUB (Account.Currency account)) then fail ErrCurrency else
  tx <- wrap "begin transaction" BeginTx ;;
  tx <- wrap "deposit"
          (AccountRepository.UpdateBalanceTx env tx accountID amount) ;;
  transferID <- uuid_New ;;
  let now := time_Now env in
  transactionID <- uuid_New ;;
  let transaction :=
    Transaction.mk transactionID accountID amount TransactionTypeDeposit
      (Some transferID) now in
  tx <- wrap "record transaction" (TransactionRepository.CreateTx tx transaction) ;;
  wrap "commit" (Commit tx).

(** [Withdraw], first part (up to [db.BeginTx]): the checks,
    made on the row returned by the unlocked [GetByID]. *)
Definition Withdraw_checks (accountID : UUID) (amount : Q) (userID : UUID)
  : M unit :=
  if Qleb amount 0 then fail ErrNotPositive else
  account <- wrap "get account" (AccountRepository.GetByID accountID) ;;
  if negb (Pos.eqb (Account.UserID account) userID)
  then fail ErrNotOwner else
  if Qltb (Account.Balance account) amount
  then fail ErrInsufficientFunds else
  if negb (is_RUB (Account.Currency account)) then fail ErrCurrency else
  ret tt.

(** [Withdraw], second part: the store transaction. *)
Definition Withdraw_transaction (env : Env) (accountID : UUID) (amount : Q)
  : M unit :=
  tx <- wrap "begin transaction" BeginTx ;;
  tx <- wrap "withdraw"
          (AccountRepository.UpdateBalanceTx env tx accountID (- amount)) ;;
  transferID <- uuid_New ;;
  let now := time_Now env in
  transactionID <- uuid_New ;;
  let transaction :=
    Transaction.mk transactionID accountID amount TransactionTypeWithdrawal
      (Some transferID) now in
  tx <- wrap "record transaction" (TransactionRepository.CreateTx tx transaction) ;;
  wrap "commit" (Commit tx).

Definition Withdraw (env : Env) (accountID : UUID) (amount : Q) (userID : UUID)
  : M unit :=
  Withdraw_checks accountID amount userID ;;;
  Withdraw_transaction env accountID amount.

(** [CreateAccount]. *)
Definition CreateAccount (env : Env) (userID : UUID) (currency : string)
  : M Account.t :=
  if negb (is_RUB currency) then fail ErrCurrency else
  let now := time_Now env in
  accountID <- uuid_New ;;
  let account := Account.mk accountID userID 0 currency now now in
  wrap "create account" (AccountRepository.Create account) ;;;
  ret account.

(** [GetUserAccounts]. *)
Definition GetUserAccounts (userID : UUID) : M (list Account.t) :=
  wrap "get accounts" (AccountRepository.GetUserAccounts userID).

End AccountService.

(* ================================================================== *)
(** * Credit service (internal/service/credit.go) *)

Module CreditService.

(** [CalculateMonthlyPayment]: the annuity payment.  [math.Pow] with the
    integer exponent [float64(termMonths)] is the exact power here.  For
    a term of 0 or a rate of 0 the Go quotient is a division by zero and
    its value is not a number the store accepts, while the rational one
    is 0: the properties of the annuity are stated for a term of at least
    one month and a positive rate. *)
Definition CalculateMonthlyPayment (amount : Q) (termMonths : Z)
  (interestRate : Q) : Q :=
  let monthlyRate := interestRate / 12 / 100 in
  let annuityCoeff :=
    (monthlyRate * (1 + monthlyRate) ^ termMonths)
    / ((1 + monthlyRate) ^ termMonths - 1) in
  amount * annuityCoeff.

(** The body of the loop of [generatePaymentSchedule], run [n] more times
    from index [i] with [remainingPrincipal] left. *)
Fixpoint generatePaymentSchedule_loop (env : Env) (credit : Credit.t)
  (monthlyRate : Q) (n : nat) (i : Z) (remainingPrincipal : Q) : M unit :=
  match n with
  | O => ret tt
  | S n' =>
      let interest := remainingPrincipal * monthlyRate in
      let principal :=
        if Z.eqb i (Credit.TermMonths credit)
        then remainingPrincipal
        else Credit.MonthlyPayment credit - interest in
      let paymentDate := time_AddDate env (Credit.StartDate credit) 0 i 0 in
      let now := time_Now env in
      scheduleID <- uuid_New ;;
      let schedule :=
        PaymentSchedule.mk scheduleID (Credit.ID credit) i paymentDate
          (Credit.MonthlyPayment credit) principal interest "pending" None
          now now in
      wrap "create payment" (CreditRepository.CreatePaymentSchedule schedule) ;;;
      generatePaymentSchedule_loop env credit monthlyRate n' (i + 1)%Z
        (remainingPrincipal - principal)
  end.

(** [generatePaymentSchedule]: [for i := 1; i <= credit.TermMonths; i++]. *)
Definition generatePaymentSchedule (env : Env) (credit : Credit.t) : M unit :=
  let remainingPrincipal := Credit.Amount credit in
  let monthlyRate := Credit.InterestRate credit / 12 / 100 in
  generatePaymentSchedule_loop env credit monthlyRate
    (Z.to_nat (Credit.TermMonths credit)) 1%Z remainingPrincipal.

(** [CreateCredit]. *)
Definition CreateCredit (env : Env) (req : CreateCreditRequest.t)
  (userID : UUID) : M Credit.t :=
  account <- wrap "get account"
               (AccountRepository.GetByID (CreateCreditRequest.AccountID req)) ;;
  if negb (Pos.eqb (Account.UserID account) userID)
  then fail ErrNotOwner else
  let rate := match GetCentralBankRate env with
              | Some r => r
              | None => 22
              end in
  let interestRate := rate + 5 in
  let monthlyPayment :=
    CalculateMonthlyPayment (CreateCreditRequest.Amount req)
      (CreateCreditRequest.TermMonths req) interestRate in
  let now := time_Now env in
  let endDate := time_AddDate env now 0 (CreateCreditRequest.TermMonths req) 0 in
  creditID <- uuid_New ;;
  let credit :=
    Credit.mk creditID (CreateCreditRequest.AccountID req) userID
      (CreateCreditRequest.Amount req) interestRate
      (CreateCreditRequest.TermMonths req) monthlyPayment now endDate
      "active" now now in
  tx <- wrap "begin transaction" BeginTx ;;
  tx <- wrap "credit the account"
          (AccountRepository.UpdateBalanceTx env tx
             (CreateCreditRequest.AccountID req)
             (CreateCreditRequest.Amount req)) ;;
  wrap "create credit" (CreditRepository.CreateCredit credit) ;;;
  wrap "create schedule" (generatePaymentSchedule env credit) ;;;
  transactionID <- uuid_New ;;
  let transaction :=
    Transaction.mk transactionID (CreateCreditRequest.AccountID req)
      (CreateCreditRequest.Amount req) TransactionTypeCredit
      (Some (Credit.ID credit)) now in
  tx <- wrap "record transaction" (TransactionRepository.CreateTx tx transaction) ;;
  wrap "commit" (Commit tx) ;;;
  ret credit.

(** The loop of [processPayment] that looks for an unpaid installment
    other than the one being settled. *)
Definition allPaid (remainingPayments : list PaymentSchedule.t)
  (paymentID : UUID) : bool :=
  forallb (fun p =>
             negb (negb (String.eqb (PaymentSchedule.Status p) "paid")
                   && negb (Pos.eqb (PaymentSchedule.ID p) paymentID)))
    remainingPayments.

(** [processPayment]: settlement of one installment. *)
Definition processPayment (env : Env) (payment : PaymentSchedule.t) : M unit :=
  credit <- wrap "get credit"
              (CreditRepository.GetCreditByID (PaymentSchedule.CreditID payment)) ;;
  tx <- wrap "begin transaction" BeginTx ;;
  account <- wrap "get account"
               (AccountRepository.GetByIDForUpdate tx (Credit.AccountID credit)) ;;
  r <- (if Qleb (PaymentSchedule.Amount payment) (Account.Balance account)
        then
          tx' <- wrap "debit"
                   (AccountRepository.UpdateBalanceTx env tx (Account.ID account)
                      (- PaymentSchedule.Amount payment)) ;;
          ret (tx', "paid", Some (time_Now env), 0)
        else
          ret (tx, "overdue", None, PaymentSchedule.Amount payment * (1 # 10))) ;;
  let '(tx, status, paidAt, penalty) := r in
  wrap "update payment"
    (CreditRepository.UpdatePaymentStatus env (PaymentSchedule.ID payment)
       status paidAt) ;;;
  (if String.eqb status "paid"
   then
     remainingPayments <- wrap "get payments"
                            (CreditRepository.GetPaymentSchedule (Credit.ID credit)) ;;
     if allPaid remainingPayments (PaymentSchedule.ID payment)
     then wrap "update credit"
            (CreditRepository.UpdateCreditStatus env (Credit.ID credit) "paid")
     else ret tt
   else ret tt) ;;;
  transactionID <- uuid_New ;;
  let now := time_Now env in
  let transaction :=
    Transaction.mk transactionID (Account.ID account)
      (PaymentSchedule.Amount payment + penalty) TransactionTypeCreditPayment
      (Some (PaymentSchedule.ID payment)) now in
  tx <- wrap "record transaction" (TransactionRepository.CreateTx tx transaction) ;;
  wrap "commit" (Commit tx).

(** The loop of [ProcessPayments]: an installment that fails is logged
    and the loop goes on. *)
Fixpoint ProcessPayments_loop (env : Env) (pendingPayments : list PaymentSchedule.t)
  : M unit :=
  match pendingPayments with
  | [] => ret tt
  | payment :: rest =>
      fun w => ProcessPayments_loop env rest (fst (processPayment env payment w))
  end.

(** [ProcessPayments]: the settlement run of the scheduler. *)
Definition ProcessPayments (env : Env) : M unit :=
  pendingPayments <- wrap "get payments"
                       (CreditRepository.GetPendingPayments (time_Now env)) ;;
  ProcessPayments_loop env pendingPayments.

(** [GetNextPayment]: the first pending installment of a credit. *)
Definition GetNextPayment (creditID : UUID) : M PaymentSchedule.t :=
  payments <- wrap "get payments" (CreditRepository.GetPaymentSchedule creditID) ;;
  match find (fun p => String.eqb (PaymentSchedule.Status p) "pending") payments with
  | Some p => ret p
  | None => fail ErrNoPendingPayments
  end.

(** [ProcessPayment]: the manual payment of an installment. *)
Definition ProcessPayment (env : Env) (paymentID : UUID) (amount : Q) : M unit :=
  payment <- wrap "get payment" (CreditRepository.GetPaymentByID paymentID) ;;
  if Qltb amount (PaymentSchedule.Amount payment)
  then fail ErrPaymentTooSmall
  else processPayment env payment.

Definition GetCreditByID (creditID : UUID) : M Credit.t :=
  wrap "get credit" (CreditRepository.GetCreditByID creditID).

(** [GetUserCredits]. *)
Definition GetUserCredits (userID : UUID) : M (list Credit.t) :=
  wrap "get credits" (CreditRepository.GetUserCredits userID).

(** [GetPaymentSchedule]: the schedule of a credit, for its owner. *)
Definition GetPaymentSchedule (creditID userID : UUID)
  : M (list PaymentSchedule.t) :=
  credit <- wrap "get credit" (CreditRepository.GetCreditByID creditID) ;;
  if negb (Pos.eqb (Credit.UserID credit) userID)
  then fail ErrNotOwner else
  wrap "get schedule" (CreditRepository.GetPaymentSchedule creditID).

End CreditService.

(* ================================================================== *)
(** * Credit handler (internal/handler/credit.go) *)

(** What a handler finds under ["userID"] in the request context: no
    string at all, a string [uuid.Parse] refuses, or a user identifier. *)
Inductive ContextUser :=
| NoUser
| BadUser
| User (userUUID : UUID).

Module CreditHandler.

(** A response: the HTTP status written by the handler. *)
Definition StatusOK : Z := 200%Z.
Definition StatusCreated : Z := 201%Z.
Definition StatusBadRequest : Z := 400%Z.
Definition StatusUnauthorized : Z := 401%Z.
Definition StatusForbidden : Z := 403%Z.
Definition StatusNotFound : Z := 404%Z.
Definition StatusInternalServerError : Z := 500%Z.

(** [CreateCredit].  [body] is the result of decoding the JSON body
    ([None] when decoding fails), [userID] what the middleware left in
    the request context.  Between decoding and the call of the service
    nothing inspects the request. *)
Definition CreateCredit (env : Env) (body : option CreateCreditRequest.t)
  (userID : ContextUser) (w : World) : World * Z :=
  match body with
  | None => (w, StatusBadRequest)
  | Some req =>
      match userID with
      | NoUser => (w, StatusUnauthorized)
      | BadUser => (w, StatusBadRequest)
      | User userUUID =>
          match CreditService.CreateCredit env req userUUID w with
          | (w', Err _) => (w', StatusBadRequest)
          | (w', Ok _) => (w', StatusCreated)
          end
      end
  end.

(** [MakePayment]: the "pay now" entry point. *)
Definition MakePayment (env : Env) (body : option CreditPaymentRequest.t)
  (userID : ContextUser) (w : World) : World * Z :=
  match body with
  | None => (w, StatusBadRequest)
  | Some req =>
      match userID with
      | NoUser => (w, StatusUnauthorized)
      | BadUser => (w, StatusBadRequest)
      | User userUUID =>
          match CreditService.GetCreditByID (CreditPaymentRequest.CreditID req) w with
          | (w1, Err _) => (w1, StatusNotFound)
          | (w1, Ok credit) =>
              if negb (Pos.eqb (Credit.UserID credit) userUUID)
              then (w1, StatusForbidden)
              else
                match CreditService.GetNextPayment
                        (CreditPaymentRequest.CreditID req) w1 with
                | (w2, Err _) => (w2, StatusInternalServerError)
                | (w2, Ok schedule) =>
                    match CreditService.ProcessPayment env
                            (PaymentSchedule.ID schedule)
                            (CreditPaymentRequest.Amount req) w2 with
                    | (w3, Err _) => (w3, StatusBadRequest)
                    | (w3, Ok _) => (w3, StatusOK)
                    end
                end
          end
      end
  end.

End CreditHandler.

(* ================================================================== *)
(** * Account handler (internal/handler/account.go) *)

Module TransferRequest.
Record t := mk {
  FromAccountID : UUID;
  ToAccountID : UUID;
  Amount : Q
}.
End TransferRequest.

Module ChangeRequest.
Record t := mk {
  AccountID : UUID;
  Amount : Q
}.
End ChangeRequest.

Module AccountHandler.

(** The steps every handler of this file takes before it calls the
    service: decode the body ([None] when decoding fails), read the user
    from the context, parse it. *)
Definition with_request {B} (body : option B) (userID : ContextUser)
  (w : World) (k : B -> UUID -> World * Z) : World * Z :=
  match body with
  | None => (w, CreditHandler.StatusBadRequest)
  | Some req =>
      match userID with
      | NoUser => (w, CreditHandler.StatusUnauthorized)
      | BadUser => (w, CreditHandler.StatusBadRequest)
      | User userUUID => k req userUUID
      end
  end.

(** [CreateAccount]: [body] is the decoded [CreateAccountRequest], that
    is its [Currency]. *)
Definition CreateAccount (env : Env) (body : option string)
  (userID : ContextUser) (w : World) : World * Z :=
  with_request body userID w (fun currency userUUID =>
    match AccountService.CreateAccount env userUUID currency w with
    | (w', Err _) => (w', CreditHandler.StatusBadRequest)
    | (w', Ok _) => (w', CreditHandler.StatusCreated)
    end).

(** [Transfer]. *)
Definition Transfer (env : Env) (body : option TransferRequest.t)
  (userID : ContextUser) (w : World) : World * Z :=
  with_request body userID w (fun req userUUID =>
    match AccountService.Transfer env (TransferRequest.FromAccountID req)
            (TransferRequest.ToAccountID req) (TransferRequest.Amount req)
            userUUID w with
    | (w', Err _) => (w', CreditHandler.StatusBadRequest)
    | (w', Ok _) => (w', CreditHandler.StatusOK)
    end).

(** [Deposit]. *)
Definition Deposit (env : Env) (body : option ChangeRequest.t)
  (userID : ContextUser) (w : World) : World * Z :=
  with_request body userID w (fun req userUUID =>
    match AccountService.Deposit env (ChangeRequest.AccountID req)
            (ChangeRequest.Amount req) userUUID w with
    | (w', Err _) => (w', CreditHandler.StatusBadRequest)
    | (w', Ok _) => (w', CreditHandler.StatusOK)
    end).

(** [Credit]: the route of withdrawals. *)
Definition Credit (env : Env) (body : option ChangeRequest.t)
  (userID : ContextUser) (w : World) : World * Z :=
  with_request body userID w (fun req userUUID =>
    match AccountService.Withdraw env (ChangeRequest.AccountID req)
            (ChangeRequest.Amount req) userUUID w with
    | (w', Err _) => (w', CreditHandler.StatusBadRequest)
    | (w', Ok _) => (w', CreditHandler.StatusOK)
    end).

End AccountHandler.

(* ================================================================== *)
(** * Analytics (internal/service/analytic.go and its handler)

    The analytics only read the store.  Their errors are their own: the
    two refusals of the service and the errors of the repositories, which
    they wrap. *)

Definition TransactionType_eqb (a b : TransactionType) : bool :=
  match a, b with
  | TransactionTypeTransfer, TransactionTypeTransfer
  | TransactionTypeDeposit, TransactionTypeDeposit
  | TransactionTypeWithdrawal, TransactionTypeWithdrawal
  | TransactionTypeCredit, TransactionTypeCredit
  | TransactionTypeCreditPayment, TransactionTypeCreditPayment
  | TransactionTypeCardPayment, TransactionTypeCardPayment => true
  | _, _ => false
  end.

Module CategoryStats.
Record t := mk {
  Income : Q;
  Expenses : Q;
  Count : Z
}.
End CategoryStats.

(** [ByCategory] is a Go map from the transaction type to the figures of
    the category: a finite map, here a function into [option]. *)
Module FinancialStats.
Record t := mk {
  TotalIncome : Q;
  TotalExpenses : Q;
  NetBalance : Q;
  ByCategory : TransactionType -> option CategoryStats.t
}.
End FinancialStats.

Module BalanceForecast.
Record t := mk {
  Date : Time;
  ProjectedBalance : Q;
  PlannedPayments : Q
}.
End BalanceForecast.

Module AnalyticService.

Inductive failure :=
| ErrDateOrder
| ErrForecastDays
| ErrRepository (context : string) (cause : error).

(** The [FinancialStats] with an empty map. *)
Definition no_stats : FinancialStats.t :=
  FinancialStats.mk 0 0 0 (fun _ => None).

(** The first loop of [GetFinancialStats], over the accounts: the
    entries of an account that cannot be read are skipped. *)
Fixpoint collect_transactions (accounts : list Account.t)
  (startDate endDate : Time) (allTransactions : list Transaction.t)
  (w : World) : World * list Transaction.t :=
  match accounts with
  | [] => (w, allTransactions)
  | acc :: rest =>
      match TransactionRepository.GetByAccountAndPeriod (Account.ID acc)
              startDate endDate w with
      | (w', Err _) =>
          collect_transactions rest startDate endDate allTransactions w'
      | (w', Ok transactions) =>
          collect_transactions rest startDate endDate
            (allTransactions ++ transactions) w'
      end
  end.

(** The body of the second loop, over the entries. *)
Definition count_transaction (stats : FinancialStats.t) (tx : Transaction.t)
  : FinancialStats.t :=
  let category := Transaction.Type_ tx in
  let categoryStats :=
    match FinancialStats.ByCategory stats category with
    | Some c => c
    | None => CategoryStats.mk 0 0 0
    end in
  let put (c : CategoryStats.t) :=
    fun k => if TransactionType_eqb k category then Some c
             else FinancialStats.ByCategory stats k in
  if Qltb 0 (Transaction.Amount tx)
  then
    FinancialStats.mk
      (FinancialStats.TotalIncome stats + Transaction.Amount tx)
      (FinancialStats.TotalExpenses stats)
      (FinancialStats.NetBalance stats)
      (put (CategoryStats.mk
              (CategoryStats.Income categoryStats + Transaction.Amount tx)
              (CategoryStats.Expenses categoryStats)
              (CategoryStats.Count categoryStats + 1)))
  else
    let amount := - Transaction.Amount tx in
    FinancialStats.mk
      (FinancialStats.TotalIncome stats)
      (FinancialStats.TotalExpenses stats + amount)
      (FinancialStats.NetBalance stats)
      (put (CategoryStats.mk
              (CategoryStats.Income categoryStats)
              (CategoryStats.Expenses categoryStats + amount)
              (CategoryStats.Count categoryStats + 1))).

(** [GetFinancialStats]. *)
Definition GetFinancialStats (userID : UUID) (startDate endDate : Time)
  (w : World) : World * (failure + FinancialStats.t) :=
  if Z.ltb endDate startDate then (w, inl ErrDateOrder) else
  match AccountRepository.GetUserAccounts userID w with
  | (w1, Err e) => (w1, inl (ErrRepository "get accounts" e))
  | (w1, Ok accounts) =>
      match accounts with
      | [] => (w1, inr no_stats)
      | _ :: _ =>
          let '(w2, allTransactions) :=
            collect_transactions accounts startDate endDate [] w1 in
          let stats := fold_left count_transaction allTransactions no_stats in
          (w2, inr (FinancialStats.mk
                      (FinancialStats.TotalIncome stats)
                      (FinancialStats.TotalExpenses stats)
                      (FinancialStats.TotalIncome stats
                       - FinancialStats.TotalExpenses stats)
                      (FinancialStats.ByCategory stats)))
      end
  end.

(** The planned payments: a Go map from the due date to the amounts due
    then, kept as the list of its entries.  Two dates are the same key
    when [same_key] says so: [==] on [time.Time] looks at more than the
    instant, and is left open. *)
Section PlannedPayments.
Variable same_key : Time -> Time -> bool.

Fixpoint planned_append (payments : list (Time * list Q)) (date : Time)
  (amount : Q) : list (Time * list Q) :=
  match payments with
  | [] => [(date, [amount])]
  | (k, amounts) :: rest =>
      if same_key k date then (k, amounts ++ [amount]) :: rest
      else (k, amounts) :: planned_append rest date amount
  end.

Definition planned_lookup (payments : list (Time * list Q)) (date : Time)
  : option (list Q) :=
  match find (fun e => same_key (fst e) date) payments with
  | Some e => Some (snd e)
  | None => None
  end.

(** The inner loop of [getPlannedPayments], over the schedule of one
    credit. *)
Definition plan_schedule (startDate endDate : Time)
  (payments : list (Time * list Q)) (schedule : list PaymentSchedule.t)
  : list (Time * list Q) :=
  fold_left
    (fun payments payment =>
       if String.eqb (PaymentSchedule.Status payment) "pending"
          && negb (Z.ltb (PaymentSchedule.PaymentDate payment) startDate)
          && negb (Z.ltb endDate (PaymentSchedule.PaymentDate payment))
       then planned_append payments (PaymentSchedule.PaymentDate payment)
              (PaymentSchedule.Amount payment)
       else payments)
    schedule payments.

(** The outer loop, over the credits. *)
Fixpoint plan_credits (credits : list Credit.t) (startDate endDate : Time)
  (payments : list (Time * list Q)) (w : World)
  : World * list (Time * list Q) :=
  match credits with
  | [] => (w, payments)
  | credit :: rest =>
      if negb (String.eqb (Credit.Status credit) "active")
      then plan_credits rest startDate endDate payments w
      else
        match CreditRepository.GetPaymentSchedule (Credit.ID credit) w with
        | (w', Err _) => plan_credits rest startDate endDate payments w'
        | (w', Ok schedule) =>
            plan_credits rest startDate endDate
              (plan_schedule startDate endDate payments schedule) w'
        end
  end.

(** [getPlannedPayments]. *)
Definition getPlannedPayments (userID : UUID) (startDate endDate : Time)
  (w : World) : World * (error + list (Time * list Q)) :=
  match CreditRepository.GetUserCredits userID w with
  | (w1, Err e) => (w1, inl e)
  | (w1, Ok credits) =>
      let '(w2, payments) := plan_credits credits startDate endDate [] w1 in
      (w2, inr payments)
  end.

(** The loop of [GetBalanceForecast], run [n] more times from [day] with
    [runningBalance]. *)
Fixpoint forecast_loop (env : Env) (plannedPayments : list (Time * list Q))
  (now : Time) (n : nat) (day : Z) (runningBalance : Q)
  : list BalanceForecast.t :=
  match n with
  | O => []
  | S n' =>
      let date := time_AddDate env now 0 0 day in
      let dailyPayments :=
        match planned_lookup plannedPayments date with
        | Some payments => fold_left Qplus payments 0
        | None => 0
        end in
      let runningBalance := runningBalance - dailyPayments in
      BalanceForecast.mk date runningBalance dailyPayments
      :: forecast_loop env plannedPayments now n' (day + 1)%Z runningBalance
  end.

(** [GetBalanceForecast]. *)
Definition GetBalanceForecast (env : Env) (userID : UUID) (days : Z)
  (w : World) : World * (failure + list BalanceForecast.t) :=
  if Z.leb days 0 || Z.ltb 365 days then (w, inl ErrForecastDays) else
  match AccountRepository.GetUserAccounts userID w with
  | (w1, Err e) => (w1, inl (ErrRepository "get accounts" e))
  | (w1, Ok accounts) =>
      let currentBalance :=
        fold_left (fun balance acc => balance + Account.Balance acc) accounts 0 in
      let now := time_Now env in
      let endDate := time_AddDate env now 0 0 days in
      match getPlannedPayments userID now endDate w1 with
      | (w2, inl e) => (w2, inl (ErrRepository "get payments" e))
      | (w2, inr plannedPayments) =>
          (w2, inr (forecast_loop env plannedPayments now (Z.to_nat days) 0
                      currentBalance))
      end
  end.

End PlannedPayments.

End AnalyticService.

Module AnalyticsHandler.

(** What [r.URL.Query().Get] and [time.Parse] make of a date parameter:
    absent (or empty), not a date, or a date. *)
Inductive DateParam :=
| NoDate
| BadDate
| Date (t : Time).

(** [parseDateRange]: the period asked for, the last month by default,
    put in order. *)
Definition parseDateRange (env : Env) (startParam endParam : DateParam)
  : option (Time * Time) :=
  let now := time_Now env in
  let startDate := time_AddDate env now 0 (-1) 0 in
  let endDate := now in
  match
    match startParam with
    | NoDate => Some startDate
    | BadDate => None
    | Date t => Some t
    end
  with
  | None => None
  | Some startDate =>
      match
        match endParam with
        | NoDate => Some endDate
        | BadDate => None
        | Date t => Some t
        end
      with
      | None => None
      | Some endDate =>
          if Z.ltb endDate startDate
          then Some (endDate, startDate)
          else Some (startDate, endDate)
      end
  end.

(** [GetFinancialStats]: the status answered and, with 200, the figures. *)
Definition GetFinancialStats (env : Env) (userID : ContextUser)
  (startParam endParam : DateParam) (w : World)
  : World * (Z * option FinancialStats.t) :=
  match userID with
  | NoUser => (w, (CreditHandler.StatusUnauthorized, None))
  | BadUser => (w, (CreditHandler.StatusBadRequest, None))
  | User userUUID =>
      match parseDateRange env startParam endParam with
      | None => (w, (CreditHandler.StatusBadRequest, None))
      | Some (startDate, endDate) =>
          match AnalyticService.GetFinancialStats userUUID startDate endDate w with
          | (w', inl _) => (w', (CreditHandler.StatusInternalServerError, None))
          | (w', inr stats) => (w', (CreditHandler.StatusOK, Some stats))
          end
      end
  end.

End AnalyticsHandler.

(* ================================================================== *)
(** * Cards (internal/service/card.go, internal/repository/card.go)

    The card service keeps its rows in the [cards] table and moves money
    through the account and transaction repositories.  What it takes from
    outside is gathered in [CardEnv]: the clock, the PGP encryption and
    decryption of the card data under the key of the service, the
    hexadecimal HMAC-SHA256 of a string under its key, the bcrypt hash of
    the CVV that was drawn, the format [01/06] of an instant, and the
    draws of [rand.Intn(10)].  Identifiers are positive numbers and
    [uuid.Nil] is not one of them, so the test [card.AccountID ==
    uuid.Nil] of [ProcessPayment] never holds and is left out.  The e-mail
    sent after a payment is left out, as for the accounts. *)

Module Card.
Record t := mk {
  ID : UUID;
  UserID : UUID;
  AccountID : UUID;
  EncryptedData : string;
  CVVHash : string;
  HMAC : string;
  CreatedAt : Time;
  LastUsedAt : Time;
  Name : string
}.
End Card.

Module CardRequest.
Record t := mk {
  AccountID : UUID;
  Name : string
}.
End CardRequest.

Module CardResponse.
Record t := mk {
  ID : UUID;
  MaskedNumber : string;
  Expiry : string;
  Name : string
}.
End CardResponse.

Module PaymentRequest.
Record t := mk {
  CardID : UUID;
  Amount : Q
}.
End PaymentRequest.

Module PaymentResponse.
Record t := mk {
  PaymentID : UUID;
  CardID : UUID;
  AccountID : UUID;
  Amount : Q;
  Status : string;
  ProcessedAt : Time
}.
End PaymentResponse.

Module CardData.
Record t := mk {
  Number : string;
  Expiry : string
}.
End CardData.

(** The ledger beside the table of the cards. *)
Record CardWorld := mkCardWorld {
  ledger : World;
  cards : list Card.t
}.

Record CardEnv := mkCardEnv {
  clock : Env;
  encryptData : string -> option string;
  decryptData : string -> option string;
  hmac_hex : string -> string;
  cvv_hash : option string;
  format_expiry : Time -> string;
  rand_Intn10 : nat -> Z
}.

Inductive CardError :=
| ErrVerifyAccount (cause : error)
| ErrAccountNotOwned
| ErrEncrypt
| ErrHashCVV
| ErrCardStore (cause : error)
| ErrCardNotFound
| ErrCardAccess (cause : error)
| ErrIntegrityCheck
| ErrIntegrityViolated
| ErrDecrypt
| ErrCardData
| ErrAmountNotPositive
| ErrPayment (context : string) (cause : error).

(** Computations of the card service. *)
Definition CM (A : Type) : Type := CardWorld -> CardWorld * (CardError + A).

Definition cret {A} (a : A) : CM A := fun cw => (cw, inr a).
Definition cfail {A} (e : CardError) : CM A := fun cw => (cw, inl e).
Definition cbind {A B} (c : CM A) (k : A -> CM B) : CM B :=
  fun cw => match c cw with
            | (cw', inr a) => k a cw'
            | (cw', inl e) => (cw', inl e)
            end.

(** A call of a repository of the ledger, its error turned into the
    error the card service returns. *)
Definition on_ledger {A} (context : error -> CardError) (c : M A) : CM A :=
  fun cw => match c (ledger cw) with
            | (w', Ok a) => (mkCardWorld w' (cards cw), inr a)
            | (w', Err e) => (mkCardWorld w' (cards cw), inl (context e))
            end.

Declare Scope card_scope.
Delimit Scope card_scope with card.
Notation "x <-- c ;; k" := (cbind c (fun x => k))
  (at level 61, c at next level, right associativity) : card_scope.
Notation "c ;;;; k" := (cbind c (fun _ => k))
  (at level 61, right associativity) : card_scope.
Local Open Scope card_scope.

Definition find_card (l : list Card.t) (id : UUID) : option Card.t :=
  find (fun c => Pos.eqb (Card.ID c) id) l.

Module CardRepository.

(** [Create]: [INSERT INTO cards] through [r.db], under the primary key
    on [id] and the foreign key from [account_id] to [accounts]; the error
    of the statement is returned as it is. *)
Definition Create (card : Card.t) : CM unit :=
  fun cw =>
    match find_card (cards cw) (Card.ID card) with
    | Some _ => (cw, inl (ErrCardStore (ErrConstraint PrimaryKey)))
    | None =>
        match find_account (accounts (db (ledger cw))) (Card.AccountID card) with
        | None => (cw, inl (ErrCardStore (ErrConstraint ForeignKey)))
        | Some _ => (mkCardWorld (ledger cw) (cards cw ++ [card]), inr tt)
        end
    end.

(** The struct the two reading queries fill: [name] is not among the
    columns they select, so [Name] keeps its zero value. *)
Definition scanned (c : Card.t) : Card.t :=
  Card.mk (Card.ID c) (Card.UserID c) (Card.AccountID c)
    (Card.EncryptedData c) (Card.CVVHash c) (Card.HMAC c)
    (Card.CreatedAt c) (Card.LastUsedAt c) EmptyString.

(** [GetByIDAndUser]: [WHERE id = $1 AND user_id = $2]; with no row the
    error is [sql.ErrNoRows]. *)
Definition GetByIDAndUser (cardID userID : UUID) : CardWorld -> option Card.t :=
  fun cw =>
    match find (fun c => Pos.eqb (Card.ID c) cardID
                         && Pos.eqb (Card.UserID c) userID) (cards cw) with
    | Some c => Some (scanned c)
    | None => None
    end.

(** [ListByUser]: [WHERE user_id = $1 ORDER BY created_at DESC]. *)
Definition ListByUser (userID : UUID) : CardWorld -> list Card.t :=
  fun cw =>
    map scanned
      (order_by (fun c => (- Card.CreatedAt c)%Z)
         (filter (fun c => Pos.eqb (Card.UserID c) userID) (cards cw))).

Definition set_last_used (cardID : UUID) (now : Time) (c : Card.t) : Card.t :=
  if Pos.eqb (Card.ID c) cardID
  then Card.mk (Card.ID c) (Card.UserID c) (Card.AccountID c)
         (Card.EncryptedData c) (Card.CVVHash c) (Card.HMAC c)
         (Card.CreatedAt c) now (Card.Name c)
  else c.

(** [UpdateLastUsed]: [UPDATE cards SET last_used_at = $1 WHERE id = $2]
    through [r.db]. *)
Definition UpdateLastUsed (cenv : CardEnv) (cardID : UUID) : CM unit :=
  fun cw =>
    (mkCardWorld (ledger cw)
       (map (set_last_used cardID (time_Now (clock cenv))) (cards cw)),
     inr tt).

End CardRepository.

Module CardService.

(** [strings.Split(s, sep)] for a separator of one byte. *)
Fixpoint strings_Split (s : string) (sep : ascii) : list string :=
  match s with
  | EmptyString => [EmptyString]
  | String c rest =>
      if Ascii.eqb c sep then EmptyString :: strings_Split rest sep
      else match strings_Split rest sep with
           | [] => [String c EmptyString]
           | part :: parts => String c part :: parts
           end
  end.

(** [fmt.Sprintf("%s|%s", number, expiry)]. *)
Definition card_data (number expiry : string) : string :=
  (number ++ "|" ++ expiry)%string.

(** [maskCardNumber]. *)
Definition maskCardNumber (number : string) : string :=
  if Nat.ltb (String.length number) 4 then "****"%string
  else ("**** **** **** "
        ++ substring (String.length number - 4) 4 number)%string.

(** [strconv.Itoa] on a digit, and [strconv.Atoi] on one byte with its
    error dropped: 0 for a byte that is not a digit. *)
Definition Itoa_digit (d : Z) : string :=
  String (ascii_of_nat (48 + Z.to_nat d)) EmptyString.

Definition Atoi_byte (c : ascii) : Z :=
  let n := nat_of_ascii c in
  if Nat.leb 48 n && Nat.leb n 57 then Z.of_nat (n - 48) else 0%Z.

(** The first loop of [generateCardNumber]: [n] more digits drawn, the
    next draw being the [i]-th. *)
Fixpoint draw_digits (rand : nat -> Z) (n i : nat) (prefix : string) : string :=
  match n with
  | O => prefix
  | S n' => draw_digits rand n' (S i) (prefix ++ Itoa_digit (rand i))%string
  end.

(** The second loop, [for i := len(prefix) - 1; i >= 0; i--], over the
    bytes still to visit, the rightmost first. *)
Fixpoint checksum_loop (bytes : list ascii) (isSecondDigit : bool) (sum : Z)
  : Z :=
  match bytes with
  | [] => sum
  | c :: rest =>
      let digit := Atoi_byte c in
      let digit :=
        if isSecondDigit
        then let digit := (digit * 2)%Z in
             if Z.ltb 9 digit then (digit mod 10 + digit / 10)%Z else digit
        else digit in
      checksum_loop rest (negb isSecondDigit) (sum + digit)%Z
  end.

Definition checksum (prefix : string) : Z :=
  checksum_loop (rev (list_ascii_of_string prefix)) false 0%Z.

(** [generateCardNumber]. *)
Definition generateCardNumber (rand : nat -> Z) : string :=
  let prefix := draw_digits rand 14 0 "4"%string in
  let sum := checksum prefix in
  let checkDigit := ((10 - (sum mod 10)) mod 10)%Z in
  (prefix ++ Itoa_digit checkDigit)%string.

(** [decryptCardData]. *)
Definition decryptCardData (cenv : CardEnv) (encrypted : string)
  : CardError + CardData.t :=
  match decryptData cenv encrypted with
  | None => inl ErrDecrypt
  | Some plaintext =>
      match strings_Split plaintext "|"%char with
      | [number; expiry] => inr (CardData.mk number expiry)
      | _ => inl ErrCardData
      end
  end.

(** [verifyHMAC]. *)
Definition verifyHMAC (cenv : CardEnv) (card : Card.t) : CardError + bool :=
  match decryptCardData cenv (Card.EncryptedData card) with
  | inl e => inl e
  | inr decryptedData =>
      let cardData :=
        card_data (CardData.Number decryptedData)
          (CardData.Expiry decryptedData) in
      let expectedMAC := hmac_hex cenv cardData in
      inr (String.eqb (Card.HMAC card) expectedMAC)
  end.

(** [CreateCard]. *)
Definition CreateCard (cenv : CardEnv) (userID : UUID) (req : CardRequest.t)
  : CM CardResponse.t :=
  account <-- on_ledger ErrVerifyAccount
                (AccountRepository.GetByID (CardRequest.AccountID req)) ;;
  if negb (Pos.eqb (Account.UserID account) userID)
  then cfail ErrAccountNotOwned else
  let cardNumber := generateCardNumber (rand_Intn10 cenv) in
  let now := time_Now (clock cenv) in
  let expiry := (now + 3 * 365 * 24 * TransactionRepository.time_Hour)%Z in
  let expiryStr := format_expiry cenv expiry in
  let cardData := card_data cardNumber expiryStr in
  match encryptData cenv cardData with
  | None => cfail ErrEncrypt
  | Some encryptedData =>
      let hmacValue := hmac_hex cenv cardData in
      match cvv_hash cenv with
      | None => cfail ErrHashCVV
      | Some cvvHash =>
          cardID <-- on_ledger ErrCardStore uuid_New ;;
          let card :=
            Card.mk cardID userID (CardRequest.AccountID req) encryptedData
              cvvHash hmacValue now now (CardRequest.Name req) in
          CardRepository.Create card ;;;;
          cret (CardResponse.mk (Card.ID card) (maskCardNumber cardNumber)
                  expiryStr (CardRequest.Name req))
      end
  end.

(** The part of [GetCard] and of the loop of [ListUserCards] that turns
    a stored card into a response. *)
Definition card_response (cenv : CardEnv) (card : Card.t)
  : CardError + CardResponse.t :=
  match verifyHMAC cenv card with
  | inl _ => inl ErrIntegrityCheck
  | inr false => inl ErrIntegrityViolated
  | inr true =>
      match decryptCardData cenv (Card.EncryptedData card) with
      | inl _ => inl ErrDecrypt
      | inr decryptedData =>
          inr (CardResponse.mk (Card.ID card)
                 (maskCardNumber (CardData.Number decryptedData))
                 (CardData.Expiry decryptedData) (Card.Name card))
      end
  end.

(** [GetCard]. *)
Definition GetCard (cenv : CardEnv) (cardID userID : UUID) : CM CardResponse.t :=
  fun cw =>
    match CardRepository.GetByIDAndUser cardID userID cw with
    | None => (cw, inl ErrCardNotFound)
    | Some card => (cw, card_response cenv card)
    end.

(** [ListUserCards]: the first card that cannot be shown fails the call. *)
Fixpoint list_responses (cenv : CardEnv) (cards : list Card.t)
  (responses : list CardResponse.t) : CardError + list CardResponse.t :=
  match cards with
  | [] => inr responses
  | card :: rest =>
      match card_response cenv card with
      | inl e => inl e
      | inr response => list_responses cenv rest (responses ++ [response])
      end
  end.

Definition ListUserCards (cenv : CardEnv) (userID : UUID)
  : CM (list CardResponse.t) :=
  fun cw => (cw, list_responses cenv (CardRepository.ListByUser userID cw) []).

(** [ProcessPayment] returns a response and an error, and after the
    response is built it returns both when it fails. *)
Definition failed (r : PaymentResponse.t) : PaymentResponse.t :=
  PaymentResponse.mk (PaymentResponse.PaymentID r) (PaymentResponse.CardID r)
    (PaymentResponse.AccountID r) (PaymentResponse.Amount r) "failed"
    (PaymentResponse.ProcessedAt r).

Definition completed (r : PaymentResponse.t) : PaymentResponse.t :=
  PaymentResponse.mk (PaymentResponse.PaymentID r) (PaymentResponse.CardID r)
    (PaymentResponse.AccountID r) (PaymentResponse.Amount r) "completed"
    (PaymentResponse.ProcessedAt r).

(** [ProcessPayment].  The deferred rollback looks at an [err] that the
    failing steps shadow; a transaction that is not committed writes
    nothing either way. *)
Definition ProcessPayment (cenv : CardEnv) (payment : PaymentRequest.t)
  (userID : UUID) (cw : CardWorld)
  : CardWorld * (option PaymentResponse.t * option CardError) :=
  if Qleb (PaymentRequest.Amount payment) 0
  then (cw, (None, Some ErrAmountNotPositive)) else
  match CardRepository.GetByIDAndUser (PaymentRequest.CardID payment) userID cw with
  | None => (cw, (None, Some (ErrCardAccess ErrNoRows)))
  | Some card =>
      match verifyHMAC cenv card with
      | inl _ => (cw, (None, Some ErrIntegrityCheck))
      | inr false => (cw, (None, Some ErrIntegrityViolated))
      | inr true =>
          match decryptCardData cenv (Card.EncryptedData card) with
          | inl _ => (cw, (None, Some ErrDecrypt))
          | inr _ =>
              let env := clock cenv in
              (* paymentID := uuid.New() *)
              let '(w1, paymentID) :=
                (mkWorld (db (ledger cw)) (Pos.succ (next_uuid (ledger cw))),
                 next_uuid (ledger cw)) in
              let paymentResponse :=
                PaymentResponse.mk paymentID (Card.ID card)
                  (Card.AccountID card) (PaymentRequest.Amount payment)
                  "pending" (time_Now env) in
              (* tx := BeginTx *)
              let tx : Tx := [] in
              match AccountRepository.UpdateBalanceTx env tx
                      (Card.AccountID card)
                      (- PaymentRequest.Amount payment) w1 with
              | (w2, Err e) =>
                  (mkCardWorld w2 (cards cw),
                   (Some (failed paymentResponse),
                    Some (ErrPayment "debit" e)))
              | (w2, Ok tx) =>
                  let transaction :=
                    Transaction.mk paymentID (Card.AccountID card)
                      (PaymentRequest.Amount payment)
                      TransactionTypeCardPayment (Some (Card.ID card))
                      (time_Now env) in
                  match TransactionRepository.CreateTx tx transaction w2 with
                  | (w3, Err e) =>
                      (mkCardWorld w3 (cards cw),
                       (Some (failed paymentResponse),
                        Some (ErrPayment "record transaction" e)))
                  | (w3, Ok tx) =>
                      match Commit tx w3 with
                      | (w4, Err e) =>
                          (mkCardWorld w4 (cards cw),
                           (Some (failed paymentResponse),
                            Some (ErrPayment "commit" e)))
                      | (w4, Ok _) =>
                          let '(cw5, _) :=
                            CardRepository.UpdateLastUsed cenv (Card.ID card)
                              (mkCardWorld w4 (cards cw)) in
                          (cw5, (Some (completed paymentResponse), None))
                      end
                  end
              end
          end
      end
  end.

End CardService.

(* ================================================================== *)
(** * Worlds and inputs used to exercise the theorems *)

Definition example_env : Env :=
  mkEnv 100 (fun t _ months _ => (t + months)%Z) None.

Definition example_account (id owner : UUID) (balance : Q) : Account.t :=
  Account.mk id owner balance "RUB" 0 0.

Definition example_world : World :=
  mkWorld (mkDB [example_account 1 7 100; example_account 2 8 50] [] [] [])
    10.

(* ================================================================== *)
(** * Notions used by the statements *)

(** What a committed transfer of [A] from [X] to [Y] writes: the four
    writes of its store transaction, in the order they are issued. *)
Definition Transfer_writes (env : Env) (X Y : UUID) (A : Q) (ref : UUID) : Tx :=
  [ WUpdateBalance X (- A) (time_Now env);
    WUpdateBalance Y A (time_Now env);
    WInsertTransaction
      (Transaction.mk (Pos.succ ref) X A TransactionTypeTransfer (Some ref)
         (time_Now env));
    WInsertTransaction
      (Transaction.mk (Pos.succ (Pos.succ ref)) Y A TransactionTypeTransfer
         (Some ref) (time_Now env)) ].

(** The constraint [CHECK (balance >= 0)] as a property of a table. *)
Definition nonneg_accounts (l : list Account.t) : Prop :=
  Forall (fun a => 0 <= Account.Balance a) l.

Definition balances_nonneg (d : DB) : Prop := nonneg_accounts (accounts d).

(** The operations of the ledger that a client or the scheduler starts. *)
Inductive Operation :=
| OpDeposit (env : Env) (accountID : UUID) (amount : Q) (userID : UUID)
| OpWithdraw (env : Env) (accountID : UUID) (amount : Q) (userID : UUID)
| OpTransfer (env : Env) (fromAccountID toAccountID : UUID) (amount : Q)
    (userID : UUID)
| OpIssueCredit (env : Env) (body : option CreateCreditRequest.t)
    (userID : ContextUser)
| OpSettlement (env : Env)
| OpManualPayment (env : Env) (body : option CreditPaymentRequest.t)
    (userID : ContextUser).

(** The world after one operation, whether it succeeded or not. *)
Definition step (w : World) (op : Operation) : World :=
  match op with
  | OpDeposit env accountID amount userID =>
      fst (AccountService.Deposit env accountID amount userID w)
  | OpWithdraw env accountID amount userID =>
      fst (AccountService.Withdraw env accountID amount userID w)
  | OpTransfer env fromAccountID toAccountID amount userID =>
      fst (AccountService.Transfer env fromAccountID toAccountID amount userID w)
  | OpIssueCredit env body userID =>
      fst (CreditHandler.CreateCredit env body userID w)
  | OpSettlement env =>
      fst (CreditService.ProcessPayments env w)
  | OpManualPayment env body userID =>
      fst (CreditHandler.MakePayment env body userID w)
  end.

Definition run (ops : list Operation) (w : World) : World :=
  fold_left step ops w.

(** A Hoare triple for the monad: from a world satisfying [P], the run
    ends in a world satisfying [Q] of its result, or fails in a world
    satisfying [E]. *)
Definition hoare {A} (P : World -> Prop) (c : M A)
  (Q : A -> World -> Prop) (E : World -> Prop) : Prop :=
  forall w, P w ->
    match c w with
    | (w', Ok a) => Q a w'
    | (w', Err _) => E w'
    end.

(** A computation that leaves the accounts table of the committed state
    alone keeps every property that depends on that table only. *)
Definition keeps_accounts {A} (c : M A) : Prop :=
  forall w, accounts (db (fst (c w))) = accounts (db w).

(** The invariant while a transaction [tx] is open: the committed rows and
    the rows the transaction sees both satisfy the constraint. *)
Definition nonneg_in_tx (tx : Tx) (accs : list Account.t) : Prop :=
  nonneg_accounts accs
  /\ nonneg_accounts (accounts (tx_view (mkDB accs [] [] []) tx)).

Definition I_nonneg (w : World) : Prop := nonneg_accounts (accounts (db w)).
Definition J_nonneg (tx : Tx) (w : World) : Prop :=
  nonneg_in_tx tx (accounts (db w)).

Definition example_ops : list Operation :=
  [ OpWithdraw example_env 1 100 7;
    OpWithdraw example_env 1 100 7;
    OpTransfer example_env 2 1 70 8;
    OpDeposit example_env 2 5 8 ].

(** ** The amortization schedule *)

Definition Qsum (l : list Q) : Q := fold_right Qplus 0 l.

(** The value of the variable [remainingPrincipal] of
    [generatePaymentSchedule] after [n] more turns of the loop started at
    index [i] with [remainingPrincipal] left. *)
Fixpoint remainingPrincipal_loop (credit : Credit.t) (monthlyRate : Q)
  (n : nat) (i : Z) (remainingPrincipal : Q) : Q :=
  match n with
  | O => remainingPrincipal
  | S n' =>
      let interest := remainingPrincipal * monthlyRate in
      let principal :=
        if Z.eqb i (Credit.TermMonths credit)
        then remainingPrincipal
        else Credit.MonthlyPayment credit - interest in
      remainingPrincipal_loop credit monthlyRate n' (i + 1)%Z
        (remainingPrincipal - principal)
  end.

(** The remaining principal immediately before the row that follows [k]
    generated rows. *)
Definition remainingPrincipal_before (credit : Credit.t) (k : nat) : Q :=
  remainingPrincipal_loop credit (Credit.InterestRate credit / 12 / 100)
    k 1%Z (Credit.Amount credit).

(** The rows the loop of [generatePaymentSchedule] inserts when every
    insertion succeeds, the first of them under identifier [id]. *)
Fixpoint schedule_rows (env : Env) (credit : Credit.t) (monthlyRate : Q)
  (n : nat) (i : Z) (remainingPrincipal : Q) (id : UUID)
  : list PaymentSchedule.t :=
  match n with
  | O => []
  | S n' =>
      let interest := remainingPrincipal * monthlyRate in
      let principal :=
        if Z.eqb i (Credit.TermMonths credit)
        then remainingPrincipal
        else Credit.MonthlyPayment credit - interest in
      PaymentSchedule.mk id (Credit.ID credit) i
        (time_AddDate env (Credit.StartDate credit) 0 i 0)
        (Credit.MonthlyPayment credit) principal interest "pending" None
        (time_Now env) (time_Now env)
      :: schedule_rows env credit monthlyRate n' (i + 1)%Z
           (remainingPrincipal - principal) (Pos.succ id)
  end.

(** The loop of [generatePaymentSchedule] as the repository sees it: an
    identifier is drawn for each row, the row is handed to
    [CreatePaymentSchedule], and the first refusal ends the loop. *)
Fixpoint hand_rows (rows : list PaymentSchedule.t) : M unit :=
  match rows with
  | [] => ret tt
  | row :: rest =>
      uuid_New ;;;
      wrap "create payment" (CreditRepository.CreatePaymentSchedule row) ;;;
      hand_rows rest
  end.

(** What the columns [amount], [principal] and [interest] of
    [payment_schedules], all [DECIMAL(15,2)], keep of a row handed to the
    repository. *)
Definition stored_amount (p : PaymentSchedule.t) : option Q :=
  DECIMAL_15_2 (PaymentSchedule.Amount p).
Definition stored_principal (p : PaymentSchedule.t) : option Q :=
  DECIMAL_15_2 (PaymentSchedule.Principal p).
Definition stored_interest (p : PaymentSchedule.t) : option Q :=
  DECIMAL_15_2 (PaymentSchedule.Interest p).

(** The three columns accept the row. *)
Definition schedule_fits (p : PaymentSchedule.t) : Prop :=
  fits_15_2 (PaymentSchedule.Amount p)
  /\ fits_15_2 (PaymentSchedule.Principal p)
  /\ fits_15_2 (PaymentSchedule.Interest p).

(** Identifiers of schedule rows already stored were drawn earlier. *)
Definition schedule_ids_fresh (w : World) : Prop :=
  Forall (fun p => (PaymentSchedule.ID p < next_uuid w)%positive)
    (payment_schedules (db w)).

(** The row of the credits table for a credit of 1200 at 27% over 6
    months: the annuity payment of that credit is 216.0419..., and the
    column [monthly_payment DECIMAL(15,2)] holds 216.04. *)
Definition example_credit : Credit.t :=
  Credit.mk 20 1 7 1200 27 6 (21604 # 100) 100 106 "active" 100 100.

Definition example_credit_world : World :=
  mkWorld (mkDB [example_account 1 7 1300] [] [example_credit] []) 21.

(** ** Settlement *)

(** The entry [processPayment] records for [payment] on [account]. *)
Definition payment_entry (env : Env) (payment : PaymentSchedule.t)
  (account : Account.t) (penalty : Q) (id : UUID) : Transaction.t :=
  Transaction.mk id (Account.ID account)
    (PaymentSchedule.Amount payment + penalty) TransactionTypeCreditPayment
    (Some (PaymentSchedule.ID payment)) (time_Now env).

(** The schedule table after [UpdatePaymentStatus]. *)
Definition schedules_marked (env : Env) (payment : PaymentSchedule.t)
  (status : string) (paidAt : option Time) (d : DB) : list PaymentSchedule.t :=
  map (CreditRepository.set_payment_status (PaymentSchedule.ID payment) status
         paidAt (time_Now env))
    (payment_schedules d).

(** The credits table after a successful settlement of [payment]: the
    credit is marked paid when no other installment of it is unpaid. *)
Definition credits_after_payment (env : Env) (payment : PaymentSchedule.t)
  (credit : Credit.t) (d : DB) : list Credit.t :=
  if CreditService.allPaid
       (order_by PaymentSchedule.PaymentNumber
          (filter (fun p => Pos.eqb (PaymentSchedule.CreditID p) (Credit.ID credit))
             (schedules_marked env payment "paid" (Some (time_Now env)) d)))
       (PaymentSchedule.ID payment)
  then map (CreditRepository.set_credit_status (Credit.ID credit) "paid"
              (time_Now env))
         (credits d)
  else credits d.

(** An installment of 50 of [example_credit], due before the clock of
    [example_env], and a store that holds it beside an account with the
    given balance. *)
Definition example_installment (status : string) : PaymentSchedule.t :=
  PaymentSchedule.mk 30 20 1 90 50 30 20 status None 80 80.

Definition example_settle_world (balance : Q) (status : string) : World :=
  mkWorld
    (mkDB [example_account 1 7 balance] [] [example_credit]
       [example_installment status])
    31.

(** What settlement never changes: the identifiers of the accounts, the
    identifiers and accounts of the credits.  With [payment_schedules] it
    forms what the steps of [processPayment] after the status update
    keep. *)
Definition account_keys (d : DB) : list UUID := map Account.ID (accounts d).
Definition credit_keys (d : DB) : list (UUID * UUID) :=
  map (fun c => (Credit.ID c, Credit.AccountID c)) (credits d).

Definition keeps_keys {A} (c : M A) : Prop :=
  forall w,
    account_keys (db (fst (c w))) = account_keys (db w)
    /\ credit_keys (db (fst (c w))) = credit_keys (db w).

Definition keeps_schedules {A} (c : M A) : Prop :=
  forall w, payment_schedules (db (fst (c w))) = payment_schedules (db w).

(** An installment whose credit, or whose credit's account, is not in the
    store: [processPayment] fails on it before it writes anything. *)
Definition orphan (d : DB) (p : PaymentSchedule.t) : Prop :=
  match find_credit (credits d) (PaymentSchedule.CreditID p) with
  | None => True
  | Some c => find_account (accounts d) (Credit.AccountID c) = None
  end.

(** The installments a settlement run started in [w] hands to
    [processPayment]. *)
Definition due_payments (env : Env) (w : World) : list PaymentSchedule.t :=
  order_by PaymentSchedule.PaymentDate
    (filter (CreditRepository.is_due (time_Now env)) (payment_schedules (db w))).

(** ** Two withdrawals at the same time *)

(** Each request runs [Withdraw] in two steps, as the source does: the
    checks on the row read without a lock, then the store transaction.
    The statements of a transaction that updates an account wait for the
    transaction that holds its row, so the second step is one step; a
    read that is not locked sees committed rows only, so it sees the
    world before or after that step.  A schedule says which request takes
    its next step. *)
Module Race.

Record Request := mkRequest {
  env : Env;
  accountID : UUID;
  amount : Q;
  userID : UUID
}.

Inductive Phase :=
| Start
| Checked
| Finished (r : Result unit).

Record State := mkState {
  world : World;
  phase1 : Phase;
  phase2 : Phase
}.

Definition step_withdraw (req : Request) (ph : Phase) (w : World)
  : Phase * World :=
  match ph with
  | Start =>
      match AccountService.Withdraw_checks (accountID req) (amount req)
              (userID req) w with
      | (w', Ok _) => (Checked, w')
      | (w', Err e) => (Finished (Err e), w')
      end
  | Checked =>
      match AccountService.Withdraw_transaction (env req) (accountID req)
              (amount req) w with
      | (w', r) => (Finished r, w')
      end
  | Finished r => (Finished r, w)
  end.

Inductive Thread := First | Second.

Definition step (r1 r2 : Request) (s : State) (t : Thread) : State :=
  match t with
  | First =>
      let (ph, w) := step_withdraw r1 (phase1 s) (world s) in
      mkState w ph (phase2 s)
  | Second =>
      let (ph, w) := step_withdraw r2 (phase2 s) (world s) in
      mkState w (phase1 s) ph
  end.

Definition run (r1 r2 : Request) (schedule : list Thread) (w : World) : State :=
  fold_left (step r1 r2) schedule (mkState w Start Start).

Definition succeeded (ph : Phase) : Prop := ph = Finished (Ok tt).

(** The balance of the account of [req] in the committed state. *)
Definition balance (w : World) (id : UUID) : option Q :=
  option_map Account.Balance (find_account (accounts (db w)) id).

End Race.

(** What a request has taken from the account so far. *)
Definition debited (ph : Race.Phase) (amount : Q) : Q :=
  match ph with
  | Race.Finished (Ok _) => amount
  | _ => 0
  end.

Definition example_request : Race.Request :=
  Race.mkRequest example_env 1 100 7.

(** The invariant of a race on account [id] started with balance [b]. *)
Definition race_invariant (r1 r2 : Race.Request) (id : UUID) (b : Q)
  (s : Race.State) : Prop :=
  exists account,
    find_account (accounts (db (Race.world s))) id = Some account
    /\ Account.Balance account
       == b - debited (Race.phase1 s) (Race.amount r1)
            - debited (Race.phase2 s) (Race.amount r2)
    /\ 0 <= Account.Balance account.

(** ** Issuance *)

(** A store with the primary key of its accounts, in which every stored
    identifier was drawn from the generator before now. *)
Definition store_wf (w : World) : Prop :=
  NoDup (map Account.ID (accounts (db w)))
  /\ Forall (fun c => (Credit.ID c < next_uuid w)%positive) (credits (db w))
  /\ Forall (fun p => (PaymentSchedule.ID p < next_uuid w)%positive
                      /\ (PaymentSchedule.CreditID p < next_uuid w)%positive)
       (payment_schedules (db w))
  /\ Forall (fun t => (Transaction.ID t < next_uuid w)%positive)
       (transactions (db w)).

(** The credit [CreateCredit] builds for a request, under identifier [id]. *)
Definition issued_credit (env : Env) (req : CreateCreditRequest.t)
  (userID id : UUID) : Credit.t :=
  let interestRate :=
    match GetCentralBankRate env with
    | Some r => r
    | None => 22
    end + 5 in
  Credit.mk id (CreateCreditRequest.AccountID req) userID
    (CreateCreditRequest.Amount req) interestRate
    (CreateCreditRequest.TermMonths req)
    (CreditService.CalculateMonthlyPayment (CreateCreditRequest.Amount req)
       (CreateCreditRequest.TermMonths req) interestRate)
    (time_Now env)
    (time_AddDate env (time_Now env) 0 (CreateCreditRequest.TermMonths req) 0)
    "active" (time_Now env) (time_Now env).

(** The schedule rows of a credit, the first under identifier [id]. *)
Definition issued_schedule (env : Env) (credit : Credit.t) (id : UUID)
  : list PaymentSchedule.t :=
  schedule_rows env credit (Credit.InterestRate credit / 12 / 100)
    (Z.to_nat (Credit.TermMonths credit)) 1 (Credit.Amount credit) id.

(* ================================================================== *)
(** * Notions used by the further properties *)

(** A computation that leaves the committed store alone. *)
Definition keeps_db {A} (c : M A) : Prop :=
  forall w, db (fst (c w)) = db w.

Definition db_is (d : DB) (w : World) : Prop := db w = d.

(** The money held by all the accounts of a store. *)
Definition total_balance (d : DB) : Q :=
  Qsum (map Account.Balance (accounts d)).

(** No installment of the store is an orphan: what the foreign keys of
    [payment_schedules] and [credits] ask for. *)
Definition no_orphans (d : DB) : Prop :=
  forall p, In p (payment_schedules d) -> ~ orphan d p.

(** Rows in the order of their payment numbers. *)
Definition by_payment_number (l : list PaymentSchedule.t) : Prop :=
  StronglySorted
    (fun p q => (PaymentSchedule.PaymentNumber p
                 <= PaymentSchedule.PaymentNumber q)%Z) l.

(** ** Analytics *)

(** The entries of the accounts of [userID] from [startDate] to the end
    of the day that starts at [endDate]. *)
Definition owned_in_period (userID : UUID) (startDate endDate : Time) (d : DB)
  (t : Transaction.t) : bool :=
  existsb (fun a => Pos.eqb (Account.UserID a) userID
                    && Pos.eqb (Account.ID a) (Transaction.AccountID t))
    (accounts d)
  && Z.leb startDate (Transaction.CreatedAt t)
  && Z.ltb (Transaction.CreatedAt t) (endDate + 24 * TransactionRepository.time_Hour).

Definition period_entries (userID : UUID) (startDate endDate : Time) (d : DB)
  : list Transaction.t :=
  filter (owned_in_period userID startDate endDate d) (transactions d).

(** The entries of one type, and the figures of a category, zero when the
    map has no entry for it. *)
Definition of_type (k : TransactionType) (l : list Transaction.t)
  : list Transaction.t :=
  filter (fun t => TransactionType_eqb (Transaction.Type_ t) k) l.

Definition category_of (stats : FinancialStats.t) (k : TransactionType)
  : CategoryStats.t :=
  match FinancialStats.ByCategory stats k with
  | Some c => c
  | None => CategoryStats.mk 0 0 0
  end.

(** [CHECK (amount > 0)] as a property of the transactions table. *)
Definition amounts_positive (d : DB) : Prop :=
  Forall (fun t => 0 < Transaction.Amount t) (transactions d).

(** Rows from the newest to the oldest. *)
Definition newest_first (l : list Transaction.t) : Prop :=
  StronglySorted
    (fun a b => (Transaction.CreatedAt b <= Transaction.CreatedAt a)%Z) l.

(** A calendar that counts days, and a store with a deposit and a
    withdrawal on the first account. *)
Definition example_calendar : Env :=
  mkEnv 100 (fun t _ months days => (t + 30 * months + days)%Z) None.

Definition example_history_world : World :=
  mkWorld
    (mkDB [example_account 1 7 100; example_account 2 8 50]
       [ Transaction.mk 11 1 70 TransactionTypeDeposit (Some 10%positive) 40;
         Transaction.mk 13 1 20 TransactionTypeWithdrawal (Some 12%positive) 60;
         Transaction.mk 15 2 50 TransactionTypeDeposit (Some 14%positive) 50 ]
       [] [])
    16.

(** ** Cards *)

Definition is_digit (c : ascii) : bool :=
  let n := nat_of_ascii c in Nat.leb 48 n && Nat.leb n 57.

(** A string without the separator of the card data. *)
Definition no_bar (s : string) : Prop :=
  ~ In "|"%char (list_ascii_of_string s).

(** What the card service relies on from its cryptography: the card
    data can be encrypted, what was encrypted decrypts to itself, and the
    CVV can be hashed. *)
Definition crypto_ok (cenv : CardEnv) : Prop :=
  (forall s, encryptData cenv s <> None)
  /\ (forall s e, encryptData cenv s = Some e -> decryptData cenv e = Some s)
  /\ cvv_hash cenv <> None.

(** The card [CreateCard] stores, and the number it draws. *)
Definition issued_number (cenv : CardEnv) : string :=
  CardService.generateCardNumber (rand_Intn10 cenv).

Definition issued_expiry (cenv : CardEnv) : string :=
  format_expiry cenv
    (time_Now (clock cenv)
     + 3 * 365 * 24 * TransactionRepository.time_Hour)%Z.

(** A card service whose encryption is the identity, and a store with
    one card of user 7 on account 1. *)
Definition example_card_env : CardEnv :=
  mkCardEnv example_env (fun s => Some s) (fun s => Some s)
    (fun s => s) (Some "hash"%string) (fun _ => "10/29"%string)
    (fun i => Z.of_nat (Nat.modulo i 10)).

Definition example_card : Card.t :=
  Card.mk 40 7 1 "4000000000000006|10/29" "hash" "4000000000000006|10/29"
    90 90 "salary".

Definition example_card_world : CardWorld :=
  mkCardWorld example_world [example_card].

(** A credit of 201 over two months at 12 percent a year with its exact
    annuity payment, and a store that holds it. *)
Definition example_annuity_credit : Credit.t :=
  Credit.mk 20 1 7 201 12 2 (CreditService.CalculateMonthlyPayment 201 2 12)
    100 102 "active" 100 100.

Definition example_annuity_world : World :=
  mkWorld (mkDB [example_account 1 7 1300] [] [example_annuity_credit] []) 21.

(** A computation that never hands an identifier out twice: the counter
    of [uuid.New()] only moves forward. *)
Definition uuid_grows {A} (c : M A) : Prop :=
  forall w, (next_uuid w <= next_uuid (fst (c w)))%positive.

(** The entries a transaction inserts carry identifiers drawn before [m]. *)
Definition writes_below (m : UUID) (tx : Tx) : Prop :=
  Forall (fun wr => match wr with
                    | WInsertTransaction t => (Transaction.ID t < m)%positive
                    | WUpdateBalance _ _ _ => True
                    end) tx.

(* ================================================================== *)
(** * Reasoning about the monad *)

Lemma bind_inv_ok A B (c : M A) (k : A -> M B) w w' b :
  bind c k w = (w', Ok b) ->
  exists w1 a, c w = (w1, Ok a) /\ k a w1 = (w', Ok b).
Proof.
  unfold bind. destruct (c w) as [w1 [a|e]]; intros H.
  - exists w1, a. split; [reflexivity | exact H].
  - discriminate.
Qed.

Lemma bind_inv_err A B (c : M A) (k : A -> M B) w w' e :
  bind c k w = (w', Err e) ->
  c w = (w', Err e) \/ exists w1 a, c w = (w1, Ok a) /\ k a w1 = (w', Err e).
Proof.
  unfold bind. destruct (c w) as [w1 [a|e1]]; intros H.
  - right. exists w1, a. split; [reflexivity | exact H].
  - left. inversion H; reflexivity.
Qed.

Lemma wrap_inv_ok A s (c : M A) w w' a :
  wrap s c w = (w', Ok a) -> c w = (w', Ok a).
Proof.
  unfold wrap. destruct (c w) as [w1 [a1|e]]; intros H; congruence.
Qed.

Lemma wrap_inv_err A s (c : M A) w w' e :
  wrap s c w = (w', Err e) -> exists e1, c w = (w', Err e1) /\ e = Wrap s e1.
Proof.
  unfold wrap. destruct (c w) as [w1 [a1|e1]]; intros H; [discriminate|].
  exists e1. split; congruence.
Qed.

Lemma bind_ok A B (c : M A) (k : A -> M B) w w1 a :
  c w = (w1, Ok a) -> bind c k w = k a w1.
Proof. unfold bind. intros ->. reflexivity. Qed.

Lemma wrap_ok A s (c : M A) w w1 a :
  c w = (w1, Ok a) -> wrap s c w = (w1, Ok a).
Proof. unfold wrap. intros ->. reflexivity. Qed.

Lemma wrap_err A s (c : M A) w w1 e :
  c w = (w1, Err e) -> wrap s c w = (w1, Err (Wrap s e)).
Proof. unfold wrap. intros ->. reflexivity. Qed.

(** Inversion of a successful run, one step at a time. *)
Ltac inv_ok H :=
  match type of H with
  | bind _ _ _ = (_, Ok _) =>
      let w1 := fresh "w" in let a := fresh "a" in
      let H1 := fresh "Hstep" in
      apply bind_inv_ok in H; destruct H as (w1 & a & H1 & H);
      try (apply wrap_inv_ok in H1)
  | wrap _ _ _ = (_, Ok _) => apply wrap_inv_ok in H
  | fail _ _ = (_, Ok _) => discriminate H
  | (if ?b then _ else _) _ = (_, Ok _) =>
      let Hb := fresh "Hcond" in destruct b eqn:Hb; [try discriminate H|]
  end.

(** ** Comparisons *)

Lemma Qleb_true a b : Qleb a b = true <-> a <= b.
Proof. unfold Qleb. apply Qle_bool_iff. Qed.

Lemma Qleb_false a b : Qleb a b = false <-> b < a.
Proof.
  unfold Qleb. split; intros H.
  - apply Qnot_le_lt. intros Hle. apply Qle_bool_iff in Hle. congruence.
  - destruct (Qle_bool a b) eqn:E; [|reflexivity].
    apply Qle_bool_iff in E. exfalso. apply (Qlt_not_le _ _ H E).
Qed.

Lemma Qltb_true a b : Qltb a b = true <-> a < b.
Proof.
  unfold Qltb. rewrite negb_true_iff. apply (Qleb_false b a).
Qed.

Lemma Qltb_false a b : Qltb a b = false <-> b <= a.
Proof.
  unfold Qltb. rewrite negb_false_iff. apply (Qleb_true b a).
Qed.

(** ** Views of a transaction *)

Lemma tx_view_snoc d tx wr :
  tx_view d (tx ++ [wr]) = apply_write (tx_view d tx) wr.
Proof. unfold tx_view. rewrite fold_left_app. reflexivity. Qed.

Lemma tx_view_nil d : tx_view d [] = d.
Proof. reflexivity. Qed.

(** A transaction writes accounts and transaction entries only, and what it
    makes of them does not depend on the other tables. *)
Lemma tx_view_credits d tx : credits (tx_view d tx) = credits d.
Proof.
  unfold tx_view. revert d. induction tx as [|wr tx IH]; intros d; [reflexivity|].
  cbn [fold_left]. rewrite IH. destruct wr; reflexivity.
Qed.

Lemma tx_view_payment_schedules d tx :
  payment_schedules (tx_view d tx) = payment_schedules d.
Proof.
  unfold tx_view. revert d. induction tx as [|wr tx IH]; intros d; [reflexivity|].
  cbn [fold_left]. rewrite IH. destruct wr; reflexivity.
Qed.

Lemma tx_view_accounts_ext d d' tx :
  accounts d = accounts d' ->
  accounts (tx_view d tx) = accounts (tx_view d' tx).
Proof.
  unfold tx_view. revert d d'.
  induction tx as [|wr tx IH]; intros d d' H; [exact H|].
  cbn [fold_left]. apply IH. destruct wr; simpl; [rewrite H|]; congruence.
Qed.

Lemma tx_view_transactions_ext d d' tx :
  transactions d = transactions d' ->
  transactions (tx_view d tx) = transactions (tx_view d' tx).
Proof.
  unfold tx_view. revert d d'.
  induction tx as [|wr tx IH]; intros d d' H; [exact H|].
  cbn [fold_left]. apply IH. destruct wr; simpl; [|rewrite H]; congruence.
Qed.

(** ** Lookups *)

Arguments find_account : simpl never.
Arguments find_credit : simpl never.
Arguments find_payment : simpl never.
Arguments add_balance : simpl never.

Lemma find_account_ID l id a : find_account l id = Some a -> Account.ID a = id.
Proof.
  unfold find_account. intros H. apply find_some in H.
  destruct H as [_ H]. apply Pos.eqb_eq in H. exact H.
Qed.

Lemma find_account_In l id a : find_account l id = Some a -> In a l.
Proof. unfold find_account. intros H. apply find_some in H. tauto. Qed.

Lemma add_balance_ID id amount now a :
  Account.ID (add_balance id amount now a) = Account.ID a.
Proof. unfold add_balance. destruct (Pos.eqb _ _); reflexivity. Qed.

Lemma find_account_add_same l id amount now a :
  find_account l id = Some a ->
  find_account (map (add_balance id amount now) l) id
  = Some (add_balance id amount now a).
Proof.
  unfold find_account. induction l as [|x l IH]; simpl; [discriminate|].
  rewrite add_balance_ID. destruct (Pos.eqb (Account.ID x) id) eqn:E.
  - intros H. injection H as <-. reflexivity.
  - exact IH.
Qed.

Lemma find_account_add_other l id id' amount now :
  id' <> id ->
  find_account (map (add_balance id amount now) l) id' = find_account l id'.
Proof.
  intros Hne. unfold find_account. induction l as [|x l IH]; simpl; [reflexivity|].
  rewrite add_balance_ID. destruct (Pos.eqb (Account.ID x) id') eqn:E.
  - apply Pos.eqb_eq in E. unfold add_balance.
    destruct (Pos.eqb (Account.ID x) id) eqn:E2; [|reflexivity].
    apply Pos.eqb_eq in E2. congruence.
  - exact IH.
Qed.

Lemma find_account_add_none l id id' amount now :
  find_account l id' = None ->
  find_account (map (add_balance id amount now) l) id' = None.
Proof.
  unfold find_account. induction l as [|x l IH]; simpl; [reflexivity|].
  rewrite add_balance_ID. destruct (Pos.eqb (Account.ID x) id'); [discriminate|].
  exact IH.
Qed.

Lemma add_balance_Balance_same id amount now a :
  Account.ID a = id ->
  Account.Balance (add_balance id amount now a) = Account.Balance a + amount.
Proof.
  intros H. unfold add_balance. rewrite H, Pos.eqb_refl. reflexivity.
Qed.

(** ** The repository calls, when they succeed *)

Lemma GetByID_inv id w w' a :
  AccountRepository.GetByID id w = (w', Ok a) ->
  w' = w /\ find_account (accounts (db w)) id = Some a.
Proof.
  unfold AccountRepository.GetByID.
  destruct (find_account _ _); intros H; inversion H; subst; auto.
Qed.

Lemma UpdateBalanceTx_inv env tx id amount w w' tx' :
  AccountRepository.UpdateBalanceTx env tx id amount w = (w', Ok tx') ->
  w' = w /\ tx' = tx ++ [WUpdateBalance id amount (time_Now env)]
  /\ (exists a, find_account (accounts (tx_view (db w) tx)) id = Some a)
  /\ (forall a, In a (accounts (tx_view (db w) tx)) -> Account.ID a = id ->
                0 <= Account.Balance a + amount).
Proof.
  unfold AccountRepository.UpdateBalanceTx.
  set (l := accounts (tx_view (db w) tx)).
  destruct (forallb _ _) eqn:Hall; simpl; [|discriminate].
  destruct (filter _ l) as [|x rows] eqn:Hrows; [discriminate|].
  intros H. inversion H; subst. repeat split; auto.
  - assert (Hin : In x (filter (fun a => Pos.eqb (Account.ID a) id) l))
      by (rewrite Hrows; left; reflexivity).
    apply filter_In in Hin. destruct Hin as [Hin Hid].
    unfold find_account.
    destruct (find (fun a => Pos.eqb (Account.ID a) id) l) eqn:F; [eauto|].
    exfalso. apply (find_none _ _ F) in Hin. congruence.
  - intros a Hin Hid. rewrite forallb_forall in Hall.
    apply Qleb_true. apply Hall. rewrite <- Hrows. apply filter_In.
    split; [exact Hin | apply Pos.eqb_eq; exact Hid].
Qed.

Lemma CreateTx_inv tx t w w' tx' :
  TransactionRepository.CreateTx tx t w = (w', Ok tx') ->
  w' = w /\ tx' = tx ++ [WInsertTransaction t] /\ 0 < Transaction.Amount t.
Proof.
  unfold TransactionRepository.CreateTx.
  destruct (Qltb 0 (Transaction.Amount t)) eqn:Hpos; simpl; [|discriminate].
  destruct (has_transaction _ _); [discriminate|].
  destruct (find_account _ _); [|discriminate].
  intros H. inversion H; subst. repeat split; auto.
  apply Qltb_true. exact Hpos.
Qed.

Lemma uuid_New_inv w w' u :
  uuid_New w = (w', Ok u) ->
  w' = mkWorld (db w) (Pos.succ (next_uuid w)) /\ u = next_uuid w.
Proof. unfold uuid_New. intros H. inversion H. auto. Qed.

Lemma Commit_inv tx w w' u :
  Commit tx w = (w', Ok u) -> w' = mkWorld (tx_view (db w) tx) (next_uuid w).
Proof. unfold Commit. intros H. inversion H. auto. Qed.

Lemma BeginTx_inv w w' tx : BeginTx w = (w', Ok tx) -> w' = w /\ tx = [].
Proof. unfold BeginTx, ret. intros H. inversion H. auto. Qed.

(* ================================================================== *)
(** * What the DECIMAL columns hold *)

Lemma round_half_away_cents q c :
  q == c # 100 -> round_half_away (q * 100) = c.
Proof.
  destruct q as [n d]. unfold Qeq, round_half_away. cbn [Qnum Qden Qmult].
  intros E. rewrite Pos.mul_1_r.
  assert (En : (n * 100 = c * Z.pos d)%Z) by lia. rewrite En.
  rewrite Z.sgn_mul, Z.abs_mul.
  change (Z.sgn (Z.pos d)) with 1%Z. change (Z.abs (Z.pos d)) with (Z.pos d).
  replace (2 * (Z.abs c * Z.pos d) + Z.pos d)%Z
    with (Z.pos d + Z.abs c * (2 * Z.pos d))%Z by ring.
  rewrite Z.div_add by lia. rewrite Z.div_small by lia.
  rewrite Z.mul_1_r, Z.add_0_l. destruct c; reflexivity.
Qed.

(** The values a column keeps as they are: the whole numbers of cents
    within its range. *)
Lemma held_2_cents precision q :
  held_2 precision q
  <-> exists c : Z, (Z.abs c < 10 ^ precision)%Z /\ q == c # 100.
Proof.
  unfold held_2, DECIMAL_2. split.
  - destruct (Z.ltb_spec (Z.abs (round_half_away (q * 100))) (10 ^ precision));
      [|tauto].
    intros E. eexists. split; [eassumption | symmetry; exact E].
  - intros (c & Hc & E). rewrite (round_half_away_cents E).
    destruct (Z.ltb_spec (Z.abs c) (10 ^ precision)); [|lia].
    symmetry. exact E.
Qed.

Lemma held_2_Qeq precision q q' : q == q' -> held_2 precision q -> held_2 precision q'.
Proof.
  intros E H. apply held_2_cents in H. destruct H as (c & Hc & Hq).
  apply held_2_cents. exists c. split; [exact Hc|]. rewrite <- E. exact Hq.
Qed.

Lemma cents_nonneg c : 0 <= c # 100 -> (0 <= c)%Z.
Proof. unfold Qle. cbn. lia. Qed.

(** Taking a held amount from a held balance that covers it leaves a
    held balance; so does giving back what was taken. *)
Lemma held_15_2_minus a b :
  held_15_2 a -> held_15_2 b -> 0 <= b -> 0 <= a - b -> held_15_2 (a - b).
Proof.
  unfold held_15_2. intros Ha Hb Hb0 Hab.
  apply held_2_cents in Ha. destruct Ha as (ca & Hca & Ea).
  apply held_2_cents in Hb. destruct Hb as (cb & Hcb & Eb).
  apply held_2_cents. exists (ca - cb)%Z.
  assert (E : a - b == (ca - cb) # 100).
  { rewrite Ea, Eb. unfold Qeq. cbn. lia. }
  split; [|exact E].
  rewrite Eb in Hb0. apply cents_nonneg in Hb0.
  rewrite E in Hab. apply cents_nonneg in Hab. lia.
Qed.

(** What the columns do to values that are not whole cents, or too
    large: half a cent becomes a cent, less than half a cent becomes
    nothing, and thirteen digits before the point are refused. *)
Lemma DECIMAL_15_2_examples :
  DECIMAL_15_2 (5 # 1000) = Some (1 # 100)
  /\ DECIMAL_15_2 (4 # 1000) = Some (0 # 100)
  /\ DECIMAL_15_2 (1 - (5 # 1000)) = Some (100 # 100)
  /\ DECIMAL_15_2 (- (5 # 1000)) = Some (-1 # 100)
  /\ DECIMAL_15_2 (10000000000000 # 1) = None
  /\ DECIMAL_15_2 (999999999999999 # 100) = Some (999999999999999 # 100).
Proof. repeat split; vm_compute; reflexivity. Qed.

(* ================================================================== *)
(** * Transfers *)

Lemma Transfer_commit_inv env X Y A u w w' :
  AccountService.Transfer env X Y A u w = (w', Ok tt) ->
  0 < A
  /\ (exists ax, find_account (accounts (db w)) X = Some ax)
  /\ (exists ay, find_account (accounts (db w)) Y = Some ay)
  /\ w' = mkWorld (tx_view (db w) (Transfer_writes env X Y A (next_uuid w)))
            (Pos.succ (Pos.succ (Pos.succ (next_uuid w)))).
Proof.
  unfold AccountService.Transfer. intros H.
  destruct (Qleb A 0) eqn:HA; [discriminate H|].
  apply Qleb_false in HA.
  inv_ok H. apply GetByID_inv in Hstep. destruct Hstep as [-> Hx].
  inv_ok H. inv_ok H.
  inv_ok H. apply GetByID_inv in Hstep. destruct Hstep as [-> Hy].
  inv_ok H.
  inv_ok H. apply BeginTx_inv in Hstep. destruct Hstep as [-> ->].
  inv_ok H. apply UpdateBalanceTx_inv in Hstep. destruct Hstep as (-> & -> & _ & _).
  inv_ok H. apply UpdateBalanceTx_inv in Hstep. destruct Hstep as (-> & -> & _ & _).
  inv_ok H. apply uuid_New_inv in Hstep. destruct Hstep as [-> ->].
  inv_ok H. apply uuid_New_inv in Hstep. destruct Hstep as [-> ->].
  inv_ok H. apply uuid_New_inv in Hstep. destruct Hstep as [-> ->].
  inv_ok H. apply CreateTx_inv in Hstep. destruct Hstep as (-> & -> & _).
  inv_ok H. apply CreateTx_inv in Hstep. destruct Hstep as (-> & -> & _).
  inv_ok H. apply Commit_inv in H. subst w'.
  repeat split; eauto.
Qed.

(** C1 (as amended): a committed transfer of [A] between two different
    accounts [X] and [Y], when [A] and the two balances that result are
    values the [DECIMAL(15,2)] columns keep as they are, has [A] positive,
    lowers the balance of [X] by exactly [A], raises the balance of [Y] by
    exactly [A], appends exactly two entries of kind transfer that carry
    the same reference, the identifier drawn from the generator by this
    call, and its four writes are the writes of one store transaction. *)
Theorem Transfer_conservation env X Y A u w w' :
  AccountService.Transfer env X Y A u w = (w', Ok tt) ->
  X <> Y ->
  held_15_2 A ->
  (forall ax, find_account (accounts (db w)) X = Some ax ->
              held_15_2 (Account.Balance ax - A)) ->
  (forall ay, find_account (accounts (db w)) Y = Some ay ->
              held_15_2 (Account.Balance ay + A)) ->
  0 < A
  /\ (exists ax ay ax' ay',
        find_account (accounts (db w)) X = Some ax
        /\ find_account (accounts (db w)) Y = Some ay
        /\ find_account (accounts (db w')) X = Some ax'
        /\ find_account (accounts (db w')) Y = Some ay'
        /\ Account.Balance ax' == Account.Balance ax - A
        /\ Account.Balance ay' == Account.Balance ay + A
        /\ held_15_2 (Account.Balance ax')
        /\ held_15_2 (Account.Balance ay'))
  /\ (let ref := next_uuid w in
      transactions (db w')
      = transactions (db w)
        ++ [ Transaction.mk (Pos.succ ref) X A TransactionTypeTransfer
               (Some ref) (time_Now env);
             Transaction.mk (Pos.succ (Pos.succ ref)) Y A
               TransactionTypeTransfer (Some ref) (time_Now env) ]
      /\ db w' = tx_view (db w) (Transfer_writes env X Y A ref)).
Proof.
  intros H Hne HA_held HX_held HY_held. apply Transfer_commit_inv in H.
  destruct H as (HA & [ax Hx] & [ay Hy] & ->).
  split; [exact HA|]. split.
  - exists ax, ay, (add_balance X (- A) (time_Now env) ax),
      (add_balance Y A (time_Now env) ay).
    cbn.
    split; [exact Hx|]. split; [exact Hy|].
    split.
    { rewrite find_account_add_other by exact Hne.
      apply find_account_add_same. exact Hx. }
    split.
    { apply find_account_add_same.
      rewrite find_account_add_other by (intros E; apply Hne; symmetry; exact E).
      exact Hy. }
    rewrite !add_balance_Balance_same by (eapply find_account_ID; eauto).
    split; [reflexivity|]. split; [reflexivity|].
    split; [apply (HX_held ax Hx) | apply (HY_held ay Hy)].
  - cbn. split; [|reflexivity]. rewrite <- app_assoc. reflexivity.
Qed.

Lemma Transfer_conservation_witness :
  exists w',
    AccountService.Transfer example_env 1 2 30 7 example_world = (w', Ok tt)
    /\ 1%positive <> 2%positive
    /\ held_15_2 30
    /\ exists ax' ay',
         find_account (accounts (db w')) 1 = Some ax'
         /\ find_account (accounts (db w')) 2 = Some ay'
         /\ Account.Balance ax' == 70 /\ Account.Balance ay' == 80.
Proof.
  eexists. split; [vm_compute; reflexivity|]. split; [discriminate|].
  split; [vm_compute; reflexivity|].
  match goal with
  | |- context [db ?w'] =>
      destruct (@Transfer_conservation example_env 1 2 30 7 example_world w'
                  eq_refl ltac:(discriminate))
        as (_ & (ax & ay & ax' & ay' & Hx & Hy & Hx' & Hy' & Bx & By & _) & _)
  end.
  - vm_compute. reflexivity.
  - intros ax Hx. vm_compute in Hx. injection Hx as <-. vm_compute. reflexivity.
  - intros ay Hy. vm_compute in Hy. injection Hy as <-. vm_compute. reflexivity.
  - exists ax', ay'. repeat split; auto.
    + rewrite Bx. vm_compute in Hx. injection Hx as <-. reflexivity.
    + rewrite By. vm_compute in Hy. injection Hy as <-. reflexivity.
Defined.

(** C1 as stated fails when the two accounts are the same: the transfer
    commits, writes its two entries, and the balance is what it was. *)

Lemma Transfer_to_self_counterexample :
  exists w' ax ax',
    AccountService.Transfer example_env 1 1 30 7 example_world = (w', Ok tt)
    /\ find_account (accounts (db example_world)) 1 = Some ax
    /\ find_account (accounts (db w')) 1 = Some ax'
    /\ ~ Account.Balance ax' == Account.Balance ax - 30.
Proof.
  eexists. eexists. eexists.
  split; [vm_compute; reflexivity|].
  split; [vm_compute; reflexivity|].
  split; [vm_compute; reflexivity|].
  vm_compute. discriminate.
Qed.

(* ================================================================== *)
(** * Hoare rules *)

Lemma hoare_ret A (a : A) (Q : A -> World -> Prop) E :
  hoare (Q a) (ret a) Q E.
Proof. intros w H. exact H. Qed.

Lemma hoare_fail A e (P : World -> Prop) (Q : A -> World -> Prop) :
  hoare P (fail e) Q P.
Proof. intros w H. exact H. Qed.

Lemma hoare_bind A B (c : M A) (k : A -> M B) P Q R E :
  hoare P c Q E -> (forall a, hoare (Q a) (k a) R E) -> hoare P (bind c k) R E.
Proof.
  intros Hc Hk w Hw. unfold bind. specialize (Hc w Hw).
  destruct (c w) as [w1 [a|e]]; [apply Hk; exact Hc | exact Hc].
Qed.

Lemma hoare_wrap A s (c : M A) P Q E :
  hoare P c Q E -> hoare P (wrap s c) Q E.
Proof.
  intros Hc w Hw. unfold wrap. specialize (Hc w Hw).
  destruct (c w) as [w1 [a|e]]; exact Hc.
Qed.

Lemma hoare_conseq A (c : M A) (P P' : World -> Prop) (Q Q' : A -> World -> Prop)
  (E E' : World -> Prop) :
  hoare P' c Q' E' ->
  (forall w, P w -> P' w) -> (forall a w, Q' a w -> Q a w) ->
  (forall w, E' w -> E w) ->
  hoare P c Q E.
Proof.
  intros Hc HP HQ HE w Hw. specialize (Hc w (HP w Hw)).
  destruct (c w) as [w1 [a|e]]; auto.
Qed.

Lemma hoare_fst A (c : M A) P (I : World -> Prop) :
  hoare P c (fun _ => I) I -> forall w, P w -> I (fst (c w)).
Proof.
  intros Hc w Hw. specialize (Hc w Hw). destruct (c w) as [w1 [a|e]]; exact Hc.
Qed.

Lemma hoare_keeps_accounts A (c : M A) (P : list Account.t -> Prop)
  (E : World -> Prop) :
  keeps_accounts c ->
  (forall w, P (accounts (db w)) -> E w) ->
  hoare (fun w => P (accounts (db w))) c (fun _ w => P (accounts (db w))) E.
Proof.
  intros Hk HE w Hw. specialize (Hk w).
  destruct (c w) as [w1 [a|e]]; simpl in Hk.
  - rewrite Hk. exact Hw.
  - apply HE. rewrite Hk. exact Hw.
Qed.

Lemma keeps_uuid_New : keeps_accounts uuid_New.
Proof. intros w. reflexivity. Qed.

Lemma keeps_GetByID id : keeps_accounts (AccountRepository.GetByID id).
Proof.
  intros w. unfold AccountRepository.GetByID.
  destruct (find_account _ _); reflexivity.
Qed.

Lemma keeps_GetByIDForUpdate tx id :
  keeps_accounts (AccountRepository.GetByIDForUpdate tx id).
Proof.
  intros w. unfold AccountRepository.GetByIDForUpdate.
  destruct (find_account _ _); reflexivity.
Qed.

Lemma keeps_UpdateBalanceTx env tx id amount :
  keeps_accounts (AccountRepository.UpdateBalanceTx env tx id amount).
Proof.
  intros w. unfold AccountRepository.UpdateBalanceTx.
  destruct (negb _); [reflexivity|]. destruct (filter _ _); reflexivity.
Qed.

Lemma keeps_CreateTx tx t : keeps_accounts (TransactionRepository.CreateTx tx t).
Proof.
  intros w. unfold TransactionRepository.CreateTx.
  destruct (negb _); [reflexivity|]. destruct (has_transaction _ _); [reflexivity|].
  destruct (find_account _ _); reflexivity.
Qed.

Lemma keeps_CreateCredit c : keeps_accounts (CreditRepository.CreateCredit c).
Proof.
  intros w. unfold CreditRepository.CreateCredit.
  destruct (find_credit _ _); [reflexivity|].
  destruct (find_account _ _); reflexivity.
Qed.

Lemma keeps_GetCreditByID id : keeps_accounts (CreditRepository.GetCreditByID id).
Proof.
  intros w. unfold CreditRepository.GetCreditByID.
  destruct (find_credit _ _); reflexivity.
Qed.

Lemma keeps_CreatePaymentSchedule p :
  keeps_accounts (CreditRepository.CreatePaymentSchedule p).
Proof.
  intros w. unfold CreditRepository.CreatePaymentSchedule.
  destruct (find_payment _ _); [reflexivity|].
  destruct (find_credit _ _); reflexivity.
Qed.

Lemma keeps_GetPaymentSchedule id :
  keeps_accounts (CreditRepository.GetPaymentSchedule id).
Proof. intros w. reflexivity. Qed.

Lemma keeps_GetPendingPayments t :
  keeps_accounts (CreditRepository.GetPendingPayments t).
Proof. intros w. reflexivity. Qed.

Lemma keeps_UpdatePaymentStatus env id s t :
  keeps_accounts (CreditRepository.UpdatePaymentStatus env id s t).
Proof. intros w. reflexivity. Qed.

Lemma keeps_UpdateCreditStatus env id s :
  keeps_accounts (CreditRepository.UpdateCreditStatus env id s).
Proof. intros w. reflexivity. Qed.

Lemma keeps_GetPaymentByID id : keeps_accounts (CreditRepository.GetPaymentByID id).
Proof.
  intros w. unfold CreditRepository.GetPaymentByID.
  destruct (find_payment _ _); reflexivity.
Qed.

Lemma keeps_ret A (a : A) : keeps_accounts (ret a).
Proof. intros w. reflexivity. Qed.

Lemma keeps_fail A e : keeps_accounts (@fail A e).
Proof. intros w. reflexivity. Qed.

Lemma keeps_wrap A s (c : M A) : keeps_accounts c -> keeps_accounts (wrap s c).
Proof.
  intros H w. specialize (H w). unfold wrap.
  destruct (c w) as [w1 [a|e]]; exact H.
Qed.

Lemma keeps_bind A B (c : M A) (k : A -> M B) :
  keeps_accounts c -> (forall a, keeps_accounts (k a)) -> keeps_accounts (bind c k).
Proof.
  intros Hc Hk w. specialize (Hc w). unfold bind.
  destruct (c w) as [w1 [a|e]]; simpl in Hc; [|exact Hc].
  rewrite (Hk a w1). exact Hc.
Qed.

Create HintDb keeps.
#[export] Hint Resolve keeps_uuid_New keeps_GetByID keeps_GetByIDForUpdate
  keeps_UpdateBalanceTx keeps_CreateTx keeps_CreateCredit keeps_GetCreditByID
  keeps_CreatePaymentSchedule keeps_GetPaymentSchedule keeps_GetPendingPayments
  keeps_UpdatePaymentStatus keeps_UpdateCreditStatus keeps_GetPaymentByID
  keeps_ret keeps_fail keeps_wrap : keeps.

(* ================================================================== *)
(** * Non-negative balances *)

Lemma tx_view_accounts_only d tx :
  accounts (tx_view d tx) = accounts (tx_view (mkDB (accounts d) [] [] []) tx).
Proof. apply tx_view_accounts_ext. reflexivity. Qed.

Lemma J_nonneg_I tx w : J_nonneg tx w -> I_nonneg w.
Proof. intros [H _]. exact H. Qed.

Lemma UpdateBalanceTx_refused env tx id amount w a :
  In a (accounts (tx_view (db w) tx)) -> Account.ID a = id ->
  Account.Balance a + amount < 0 ->
  AccountRepository.UpdateBalanceTx env tx id amount w
  = (w, Err (Wrap "failed to update balance"
               (ErrConstraint CheckBalanceNonNegative))).
Proof.
  intros Hin Hid Hneg. unfold AccountRepository.UpdateBalanceTx.
  destruct (forallb _ _) eqn:Hall; [|reflexivity].
  exfalso. rewrite forallb_forall in Hall.
  assert (Hle : Qleb 0 (Account.Balance a + amount) = true).
  { apply Hall. apply filter_In. split; [exact Hin | apply Pos.eqb_eq; exact Hid]. }
  apply Qleb_true in Hle. apply (Qlt_not_le _ _ Hneg Hle).
Qed.

Lemma hoare_BeginTx_nonneg :
  hoare I_nonneg BeginTx (fun tx => J_nonneg tx) I_nonneg.
Proof.
  intros w H. unfold BeginTx, ret, J_nonneg, nonneg_in_tx. simpl. split; exact H.
Qed.

Lemma hoare_UpdateBalanceTx_nonneg env tx id amount :
  hoare (J_nonneg tx) (AccountRepository.UpdateBalanceTx env tx id amount)
    (fun tx' => J_nonneg tx') I_nonneg.
Proof.
  intros w [Hc Hv].
  destruct (AccountRepository.UpdateBalanceTx env tx id amount w)
    as [w1 [tx'|e]] eqn:H.
  - apply UpdateBalanceTx_inv in H. destruct H as (-> & -> & _ & Hall).
    split; [exact Hc|]. rewrite tx_view_snoc. simpl.
    rewrite <- tx_view_accounts_only in *.
    unfold nonneg_accounts in *. rewrite Forall_forall in *.
    intros a' Hin. apply in_map_iff in Hin. destruct Hin as (a & <- & Hin).
    unfold add_balance. destruct (Pos.eqb (Account.ID a) id) eqn:E.
    + simpl. apply Hall; [exact Hin | apply Pos.eqb_eq; exact E].
    + apply Hv. exact Hin.
  - pose proof (keeps_UpdateBalanceTx env tx id amount w) as K.
    rewrite H in K. simpl in K. unfold I_nonneg. rewrite K. exact Hc.
Qed.

Lemma hoare_CreateTx_nonneg tx t :
  hoare (J_nonneg tx) (TransactionRepository.CreateTx tx t)
    (fun tx' => J_nonneg tx') I_nonneg.
Proof.
  intros w [Hc Hv].
  destruct (TransactionRepository.CreateTx tx t w) as [w1 [tx'|e]] eqn:H.
  - apply CreateTx_inv in H. destruct H as (-> & -> & _).
    split; [exact Hc|]. rewrite tx_view_snoc. exact Hv.
  - pose proof (keeps_CreateTx tx t w) as K.
    rewrite H in K. simpl in K. unfold I_nonneg. rewrite K. exact Hc.
Qed.

Lemma hoare_Commit_nonneg tx :
  hoare (J_nonneg tx) (Commit tx) (fun _ => I_nonneg) I_nonneg.
Proof.
  intros w [Hc Hv]. unfold Commit, I_nonneg. simpl.
  rewrite tx_view_accounts_only. exact Hv.
Qed.

(** Statements that do not touch the accounts keep both invariants. *)
Lemma hoare_keeps_I A (c : M A) :
  keeps_accounts c -> hoare I_nonneg c (fun _ => I_nonneg) I_nonneg.
Proof.
  intros H. apply (@hoare_keeps_accounts A c nonneg_accounts I_nonneg H). auto.
Qed.

Lemma hoare_keeps_J A (c : M A) tx :
  keeps_accounts c -> hoare (J_nonneg tx) c (fun _ => J_nonneg tx) I_nonneg.
Proof.
  intros H. apply (@hoare_keeps_accounts A c (nonneg_in_tx tx) I_nonneg H).
  intros w [Hc _]. exact Hc.
Qed.

Lemma hoare_fail_I A e (Q : A -> World -> Prop) :
  hoare I_nonneg (fail e) Q I_nonneg.
Proof. intros w H. exact H. Qed.

Lemma hoare_fail_J A e tx (Q : A -> World -> Prop) :
  hoare (J_nonneg tx) (fail e) Q I_nonneg.
Proof. intros w [H _]. exact H. Qed.

Lemma hoare_ret_pre A (a : A) (P : World -> Prop) (Q : A -> World -> Prop) E :
  (forall w, P w -> Q a w) -> hoare P (ret a) Q E.
Proof. intros H w Hw. apply H. exact Hw. Qed.

(** One step of a proof that a piece of service code keeps the balances
    non-negative. *)
Ltac nonneg_leaf :=
  first
    [ apply hoare_BeginTx_nonneg
    | apply hoare_UpdateBalanceTx_nonneg
    | apply hoare_CreateTx_nonneg
    | apply hoare_Commit_nonneg
    | apply hoare_fail_I
    | apply hoare_fail_J
    | apply hoare_keeps_I; auto with keeps
    | apply hoare_keeps_J; auto with keeps ].

Ltac nonneg_step :=
  lazymatch goal with
  | |- hoare _ (if ?b then _ else _) _ _ => destruct b
  | |- hoare _ (bind _ _) _ _ =>
      eapply hoare_bind; [first [apply hoare_wrap; nonneg_leaf | nonneg_leaf] | intros ?]
  | |- hoare _ (wrap _ _) _ _ => apply hoare_wrap; nonneg_leaf
  | |- hoare _ (fail _) _ _ => nonneg_leaf
  | |- hoare _ (ret _) _ _ => apply hoare_ret_pre; intros ? ?; assumption
  end.

Lemma Deposit_nonneg env accountID amount userID :
  hoare I_nonneg (AccountService.Deposit env accountID amount userID)
    (fun _ => I_nonneg) I_nonneg.
Proof. unfold AccountService.Deposit. repeat nonneg_step. Qed.

Lemma Withdraw_nonneg env accountID amount userID :
  hoare I_nonneg (AccountService.Withdraw env accountID amount userID)
    (fun _ => I_nonneg) I_nonneg.
Proof.
  unfold AccountService.Withdraw.
  eapply hoare_bind with (Q := fun _ => I_nonneg).
  - unfold AccountService.Withdraw_checks. repeat nonneg_step.
  - intros _. unfold AccountService.Withdraw_transaction. repeat nonneg_step.
Qed.

Lemma Transfer_nonneg env fromAccountID toAccountID amount userID :
  hoare I_nonneg
    (AccountService.Transfer env fromAccountID toAccountID amount userID)
    (fun _ => I_nonneg) I_nonneg.
Proof. unfold AccountService.Transfer. repeat nonneg_step. Qed.

Lemma keeps_generatePaymentSchedule_loop env credit rate n :
  forall i remaining,
    keeps_accounts
      (CreditService.generatePaymentSchedule_loop env credit rate n i remaining).
Proof.
  induction n as [|n IH]; intros i remaining; simpl.
  - apply keeps_ret.
  - apply keeps_bind; [apply keeps_uuid_New|]. intros id.
    apply keeps_bind; [auto with keeps|]. intros _. apply IH.
Qed.

Lemma keeps_generatePaymentSchedule env credit :
  keeps_accounts (CreditService.generatePaymentSchedule env credit).
Proof. apply keeps_generatePaymentSchedule_loop. Qed.

#[export] Hint Resolve keeps_generatePaymentSchedule : keeps.

Lemma CreateCredit_nonneg env req userID :
  hoare I_nonneg (CreditService.CreateCredit env req userID)
    (fun _ => I_nonneg) I_nonneg.
Proof. unfold CreditService.CreateCredit. repeat nonneg_step. Qed.

Lemma processPayment_nonneg env payment :
  hoare I_nonneg (CreditService.processPayment env payment)
    (fun _ => I_nonneg) I_nonneg.
Proof.
  unfold CreditService.processPayment.
  nonneg_step. nonneg_step. nonneg_step.
  eapply hoare_bind with (Q := fun r => J_nonneg (fst (fst (fst r)))).
  - destruct (Qleb _ _).
    + nonneg_step. apply hoare_ret_pre. intros w H. exact H.
    + apply hoare_ret_pre. intros w H. exact H.
  - intros [[[tx status] paidAt] penalty]. simpl.
    nonneg_step.
    eapply hoare_bind with (Q := fun _ => J_nonneg tx).
    + destruct (String.eqb status "paid").
      * nonneg_step. destruct (CreditService.allPaid _ _).
        -- apply hoare_wrap. nonneg_leaf.
        -- apply hoare_ret_pre. intros w H. exact H.
      * apply hoare_ret_pre. intros w H. exact H.
    + intros _. repeat nonneg_step.
Qed.

Lemma ProcessPayments_loop_nonneg env l :
  hoare I_nonneg (CreditService.ProcessPayments_loop env l)
    (fun _ => I_nonneg) I_nonneg.
Proof.
  induction l as [|p l IH]; simpl.
  - apply hoare_ret_pre. auto.
  - intros w Hw. apply IH.
    apply (hoare_fst (processPayment_nonneg env p)). exact Hw.
Qed.

Lemma ProcessPayments_nonneg env :
  hoare I_nonneg (CreditService.ProcessPayments env)
    (fun _ => I_nonneg) I_nonneg.
Proof.
  unfold CreditService.ProcessPayments.
  eapply hoare_bind; [apply hoare_wrap; nonneg_leaf|].
  intros l. apply ProcessPayments_loop_nonneg.
Qed.

Lemma ProcessPayment_nonneg env paymentID amount :
  hoare I_nonneg (CreditService.ProcessPayment env paymentID amount)
    (fun _ => I_nonneg) I_nonneg.
Proof.
  unfold CreditService.ProcessPayment.
  eapply hoare_bind; [apply hoare_wrap; nonneg_leaf|].
  intros p. destruct (Qltb _ _); [nonneg_leaf | apply processPayment_nonneg].
Qed.

Lemma handler_CreateCredit_nonneg env body userID w :
  I_nonneg w -> I_nonneg (fst (CreditHandler.CreateCredit env body userID w)).
Proof.
  intros Hw. unfold CreditHandler.CreateCredit.
  destruct body as [req|]; [|exact Hw].
  destruct userID as [| |u]; [exact Hw | exact Hw |].
  pose proof (hoare_fst (CreateCredit_nonneg env req u) w Hw) as H.
  destruct (CreditService.CreateCredit env req u w) as [w1 [c|e]]; exact H.
Qed.

Lemma handler_MakePayment_nonneg env body userID w :
  I_nonneg w -> I_nonneg (fst (CreditHandler.MakePayment env body userID w)).
Proof.
  intros Hw. unfold CreditHandler.MakePayment.
  destruct body as [req|]; [|exact Hw].
  destruct userID as [| |u]; [exact Hw | exact Hw |].
  assert (H1 : hoare I_nonneg
                 (CreditService.GetCreditByID (CreditPaymentRequest.CreditID req))
                 (fun _ => I_nonneg) I_nonneg)
    by (unfold CreditService.GetCreditByID; apply hoare_wrap; nonneg_leaf).
  pose proof (hoare_fst H1 w Hw) as Hw1.
  destruct (CreditService.GetCreditByID _ w) as [w1 [credit|e]]; [|exact Hw1].
  simpl in Hw1. destruct (negb _); [exact Hw1|].
  assert (H2 : hoare I_nonneg
                 (CreditService.GetNextPayment (CreditPaymentRequest.CreditID req))
                 (fun _ => I_nonneg) I_nonneg).
  { unfold CreditService.GetNextPayment.
    eapply hoare_bind; [apply hoare_wrap; nonneg_leaf|].
    intros l. destruct (find _ l); [apply hoare_ret_pre; auto | nonneg_leaf]. }
  pose proof (hoare_fst H2 w1 Hw1) as Hw2.
  destruct (CreditService.GetNextPayment _ w1) as [w2 [schedule|e]]; [|exact Hw2].
  simpl in Hw2.
  pose proof (hoare_fst (ProcessPayment_nonneg env (PaymentSchedule.ID schedule)
                           (CreditPaymentRequest.Amount req)) w2 Hw2) as Hw3.
  destruct (CreditService.ProcessPayment _ _ _ w2) as [w3 [x|e]]; exact Hw3.
Qed.

Lemma step_nonneg w op : I_nonneg w -> I_nonneg (step w op).
Proof.
  intros Hw. destruct op; simpl.
  - apply (hoare_fst (Deposit_nonneg env accountID amount userID)). exact Hw.
  - apply (hoare_fst (Withdraw_nonneg env accountID amount userID)). exact Hw.
  - apply (hoare_fst (Transfer_nonneg env fromAccountID toAccountID amount userID)).
    exact Hw.
  - apply handler_CreateCredit_nonneg. exact Hw.
  - apply (hoare_fst (ProcessPayments_nonneg env)). exact Hw.
  - apply handler_MakePayment_nonneg. exact Hw.
Qed.

Lemma run_nonneg ops : forall w, I_nonneg w -> I_nonneg (run ops w).
Proof.
  unfold run. induction ops as [|op ops IH]; intros w Hw; simpl.
  - exact Hw.
  - apply IH. apply step_nonneg. exact Hw.
Qed.



(* ================================================================== *)
(** * The amortization schedule *)

Lemma find_payment_fresh l id :
  Forall (fun p => (PaymentSchedule.ID p < id)%positive) l ->
  find_payment l id = None.
Proof.
  unfold find_payment. induction l as [|x l IH]; intros H; [reflexivity|].
  inversion H as [|? ? Hx Hl]; subst. simpl.
  destruct (Pos.eqb (PaymentSchedule.ID x) id) eqn:E.
  - apply Pos.eqb_eq in E. lia.
  - apply IH. exact Hl.
Qed.

(** The loop inserts the rows of [schedule_rows] and nothing else. *)
Lemma generatePaymentSchedule_loop_run env credit rate n :
  forall i remaining w,
    find_credit (credits (db w)) (Credit.ID credit) <> None ->
    schedule_ids_fresh w ->
    exists id',
      (next_uuid w <= id')%positive
      /\ CreditService.generatePaymentSchedule_loop env credit rate n i remaining w
         = (mkWorld
              (set_payment_schedules (db w)
                 (payment_schedules (db w)
                  ++ schedule_rows env credit rate n i remaining (next_uuid w)))
              id',
            Ok tt).
Proof.
  induction n as [|n IH]; intros i remaining w Hfk Hfresh.
  - exists (next_uuid w). split; [lia|]. simpl. unfold ret. rewrite app_nil_r.
    destruct w as [[a t c p] u]. reflexivity.
  - cbn [CreditService.generatePaymentSchedule_loop schedule_rows].
    set (interest := remaining * rate).
    set (principal := if Z.eqb i (Credit.TermMonths credit) then remaining
                      else Credit.MonthlyPayment credit - interest).
    set (row := PaymentSchedule.mk (next_uuid w) (Credit.ID credit) i
                  (time_AddDate env (Credit.StartDate credit) 0 i 0)
                  (Credit.MonthlyPayment credit) principal interest "pending"
                  None (time_Now env) (time_Now env)).
    set (w1 := mkWorld
                 (set_payment_schedules (db w) (payment_schedules (db w) ++ [row]))
                 (Pos.succ (next_uuid w))).
    assert (Hins :
      CreditRepository.CreatePaymentSchedule row
        (mkWorld (db w) (Pos.succ (next_uuid w))) = (w1, Ok tt)).
    { unfold CreditRepository.CreatePaymentSchedule. cbn [db next_uuid].
      rewrite (find_payment_fresh (l := payment_schedules (db w))
                 (id := PaymentSchedule.ID row)) by exact Hfresh.
      cbn [PaymentSchedule.CreditID row].
      destruct (find_credit (credits (db w)) (Credit.ID credit));
        [reflexivity | congruence]. }
    destruct (IH (i + 1)%Z (remaining - principal) w1) as (id' & Hle & Hrun).
    + exact Hfk.
    + unfold schedule_ids_fresh, w1. cbn [db next_uuid payment_schedules
        set_payment_schedules].
      apply Forall_app. split.
      * eapply Forall_impl; [|exact Hfresh]. cbn beta. intros p Hp. lia.
      * constructor; [|constructor]. cbn. lia.
    + exists id'. split; [unfold w1 in Hle; cbn [next_uuid] in Hle; lia|].
      unfold bind at 1. unfold uuid_New at 1.
      unfold bind at 1. rewrite (@wrap_ok _ _ _ _ _ _ Hins).
      fold row. rewrite Hrun. unfold w1.
      cbn [db next_uuid payment_schedules set_payment_schedules accounts
             transactions credits].
      rewrite <- app_assoc. reflexivity.
Qed.

Lemma schedule_rows_length env credit rate n :
  forall i remaining id,
    List.length (schedule_rows env credit rate n i remaining id) = n.
Proof.
  induction n as [|n IH]; intros; simpl; [reflexivity|]. rewrite IH. reflexivity.
Qed.

Lemma schedule_rows_CreditID env credit rate n :
  forall i remaining id p,
    In p (schedule_rows env credit rate n i remaining id) ->
    PaymentSchedule.CreditID p = Credit.ID credit.
Proof.
  induction n as [|n IH]; intros i remaining id p Hin; simpl in Hin; [tauto|].
  destruct Hin as [<- | Hin]; [reflexivity | eapply IH; eauto].
Qed.

Lemma schedule_rows_Amount env credit rate n :
  forall i remaining id p,
    In p (schedule_rows env credit rate n i remaining id) ->
    PaymentSchedule.Amount p = Credit.MonthlyPayment credit.
Proof.
  induction n as [|n IH]; intros i remaining id p Hin; simpl in Hin; [tauto|].
  destruct Hin as [<- | Hin]; [reflexivity | eapply IH; eauto].
Qed.

(** Rows other than the one numbered [TermMonths] split the monthly
    payment into principal and interest. *)
Lemma schedule_rows_split env credit rate n :
  forall i remaining id p,
    In p (schedule_rows env credit rate n i remaining id) ->
    PaymentSchedule.PaymentNumber p <> Credit.TermMonths credit ->
    PaymentSchedule.Principal p + PaymentSchedule.Interest p
    == PaymentSchedule.Amount p.
Proof.
  induction n as [|n IH]; intros i remaining id p Hin Hnum; simpl in Hin; [tauto|].
  destruct Hin as [<- | Hin]; [|eapply IH; eauto].
  cbn in *. destruct (Z.eqb_spec i (Credit.TermMonths credit)); [contradiction|].
  ring.
Qed.

Lemma schedule_rows_numbers env credit rate n :
  forall i remaining id p,
    In p (schedule_rows env credit rate n i remaining id) ->
    (i <= PaymentSchedule.PaymentNumber p < i + Z.of_nat n)%Z.
Proof.
  induction n as [|n IH]; intros i remaining id p Hin; simpl in Hin; [tauto|].
  destruct Hin as [<- | Hin]; [cbn; lia|].
  apply IH in Hin. lia.
Qed.

(** The rows are the loop's rows up to the last one, then the last one,
    whose principal is the remaining principal left by the others. *)
Lemma schedule_rows_last env credit rate n :
  forall i remaining id,
    (i + Z.of_nat n = Credit.TermMonths credit)%Z ->
    exists id',
      schedule_rows env credit rate (S n) i remaining id
      = schedule_rows env credit rate n i remaining id
        ++ [ PaymentSchedule.mk id' (Credit.ID credit) (Credit.TermMonths credit)
               (time_AddDate env (Credit.StartDate credit) 0
                  (Credit.TermMonths credit) 0)
               (Credit.MonthlyPayment credit)
               (remainingPrincipal_loop credit rate n i remaining)
               (remainingPrincipal_loop credit rate n i remaining * rate)
               "pending" None (time_Now env) (time_Now env) ].
Proof.
  induction n as [|n IH]; intros i remaining id Hi.
  - exists id. cbn. replace i with (Credit.TermMonths credit) by lia.
    rewrite Z.eqb_refl. reflexivity.
  - destruct (IH (i + 1)%Z
                (remaining - (if Z.eqb i (Credit.TermMonths credit) then remaining
                              else Credit.MonthlyPayment credit - remaining * rate))
                (Pos.succ id)) as [id' E]; [lia|].
    exists id'.
    change (schedule_rows env credit rate (S (S n)) i remaining id)
      with (PaymentSchedule.mk id (Credit.ID credit) i
              (time_AddDate env (Credit.StartDate credit) 0 i 0)
              (Credit.MonthlyPayment credit)
              (if Z.eqb i (Credit.TermMonths credit) then remaining
               else Credit.MonthlyPayment credit - remaining * rate)
              (remaining * rate) "pending" None (time_Now env) (time_Now env)
            :: schedule_rows env credit rate (S n) (i + 1)%Z
                 (remaining - (if Z.eqb i (Credit.TermMonths credit) then remaining
                               else Credit.MonthlyPayment credit - remaining * rate))
                 (Pos.succ id)).
    rewrite E. reflexivity.
Qed.

(** The remaining principal is the principal less the principal
    components of the rows generated so far. *)
Lemma remainingPrincipal_loop_sum env credit rate n :
  forall i remaining id,
    remainingPrincipal_loop credit rate n i remaining
    == remaining
       - Qsum (map PaymentSchedule.Principal
                 (schedule_rows env credit rate n i remaining id)).
Proof.
  induction n as [|n IH]; intros i remaining id.
  - cbn. ring.
  - cbn [remainingPrincipal_loop schedule_rows map Qsum fold_right
           PaymentSchedule.Principal].
    rewrite (IH (i + 1)%Z _ (Pos.succ id)). unfold Qsum. ring.
Qed.

Lemma Qsum_app l1 l2 : Qsum (l1 ++ l2) == Qsum l1 + Qsum l2.
Proof.
  induction l1 as [|x l1 IH]; simpl.
  - ring.
  - rewrite IH. ring.
Qed.

(** The generated rows come out of [ORDER BY payment_number] as they were
    inserted. *)
Lemma order_by_schedule_rows env credit rate n :
  forall i remaining id,
    order_by PaymentSchedule.PaymentNumber
      (schedule_rows env credit rate n i remaining id)
    = schedule_rows env credit rate n i remaining id.
Proof.
  induction n as [|n IH]; intros i remaining id; [reflexivity|].
  cbn [schedule_rows order_by fold_right].
  change (fold_right (insert_by PaymentSchedule.PaymentNumber) [] ?l)
    with (order_by PaymentSchedule.PaymentNumber l).
  rewrite IH. destruct n as [|n]; [reflexivity|].
  cbn [schedule_rows insert_by PaymentSchedule.PaymentNumber].
  destruct (Z.leb_spec i (i + 1)); [reflexivity | lia].
Qed.

Lemma filter_none A (f : A -> bool) l :
  (forall x, In x l -> f x = false) -> filter f l = [].
Proof.
  induction l as [|x l IH]; intros H; [reflexivity|]. simpl.
  rewrite (H x) by (left; reflexivity). apply IH. intros y Hy. apply H. right. exact Hy.
Qed.

Lemma filter_all A (f : A -> bool) l :
  (forall x, In x l -> f x = true) -> filter f l = l.
Proof.
  induction l as [|x l IH]; intros H; [reflexivity|]. simpl.
  rewrite (H x) by (left; reflexivity). f_equal. apply IH.
  intros y Hy. apply H. right. exact Hy.
Qed.

Lemma Qpower_succ q n :
  ~ q == 0 -> q ^ Z.of_nat (S n) == q ^ Z.of_nat n * q.
Proof.
  intros Hq. rewrite Nat2Z.inj_succ. unfold Z.succ.
  rewrite Qpower_plus by exact Hq. simpl (q ^ 1). reflexivity.
Qed.

Lemma Qpower_ge_1 q n : 1 < q -> 1 <= q ^ Z.of_nat n.
Proof.
  intros Hq. induction n as [|n IH].
  - simpl. lra.
  - rewrite Qpower_succ by lra.
    setoid_replace 1 with (1 * 1) at 1 by ring.
    apply Qmult_le_compat_nonneg; split; lra.
Qed.

Lemma Qpower_gt_1 q n : 1 < q -> 1 < q ^ Z.of_nat (S n).
Proof.
  intros Hq. rewrite Qpower_succ by lra.
  pose proof (@Qpower_ge_1 q n Hq) as H.
  setoid_replace 1 with (1 * 1) at 1 by ring.
  apply Qle_lt_trans with (y := q ^ Z.of_nat n * 1).
  - apply Qmult_le_compat_r; lra.
  - apply Qmult_lt_l; lra.
Qed.

(** The remaining principal after [n] rows none of which is the last:
    the closed form of the recurrence [R' = R (1 + r) - M]. *)
Lemma remainingPrincipal_loop_closed credit r n :
  ~ r == 0 -> ~ 1 + r == 0 ->
  forall i remaining,
    (i + Z.of_nat n <= Credit.TermMonths credit)%Z ->
    remainingPrincipal_loop credit r n i remaining
    == remaining * (1 + r) ^ Z.of_nat n
       - Credit.MonthlyPayment credit * (((1 + r) ^ Z.of_nat n - 1) / r).
Proof.
  intros Hr Hq. induction n as [|n IH]; intros i remaining Hi.
  - cbn [remainingPrincipal_loop Z.of_nat]. simpl ((1 + r) ^ 0). field. exact Hr.
  - cbn [remainingPrincipal_loop].
    assert (E : Z.eqb i (Credit.TermMonths credit) = false)
      by (apply Z.eqb_neq; lia).
    rewrite E. rewrite IH by lia. rewrite (Qpower_succ n Hq).
    set (A := (1 + r) ^ Z.of_nat n). field. exact Hr.
Qed.

Lemma annuity_last_row credit r T :
  0 < r ->
  Credit.TermMonths credit = Z.of_nat (S T) ->
  Credit.MonthlyPayment credit
  == Credit.Amount credit
     * (r * (1 + r) ^ Z.of_nat (S T) / ((1 + r) ^ Z.of_nat (S T) - 1)) ->
  remainingPrincipal_loop credit r T 1 (Credit.Amount credit) * (1 + r)
  == Credit.MonthlyPayment credit.
Proof.
  intros Hr HT HM.
  assert (Hq : ~ 1 + r == 0) by lra.
  assert (Hr0 : ~ r == 0) by lra.
  pose proof (@Qpower_gt_1 (1 + r) T ltac:(lra)) as Hgt.
  rewrite (@remainingPrincipal_loop_closed credit r T Hr0 Hq) by lia.
  rewrite (Qpower_succ T Hq) in HM, Hgt.
  set (B := (1 + r) ^ Z.of_nat T) in *.
  set (M := Credit.MonthlyPayment credit) in *.
  set (P := Credit.Amount credit) in *.
  assert (Hden : ~ B * (1 + r) - 1 == 0) by lra.
  assert (HM' : M * (B * (1 + r) - 1) == P * (r * (B * (1 + r)))).
  { rewrite HM. field. exact Hden. }
  assert (Hgoal : (P * B - M * ((B - 1) / r)) * (1 + r) * r == M * r).
  { transitivity (P * (r * (B * (1 + r))) - M * (B * (1 + r) - 1) + M * r).
    - field. exact Hr0.
    - rewrite HM'. ring. }
  apply (Qmult_inj_r _ _ r Hr0). exact Hgoal.
Qed.

(** What [generatePaymentSchedule] leaves in the store, and what
    [GetPaymentSchedule] then returns for the credit. *)
Lemma generatePaymentSchedule_run env credit w :
  find_credit (credits (db w)) (Credit.ID credit) <> None ->
  schedule_ids_fresh w ->
  (forall p, In p (payment_schedules (db w)) ->
             PaymentSchedule.CreditID p <> Credit.ID credit) ->
  exists w',
    CreditService.generatePaymentSchedule env credit w = (w', Ok tt)
    /\ CreditRepository.GetPaymentSchedule (Credit.ID credit) w'
       = (w', Ok (schedule_rows env credit (Credit.InterestRate credit / 12 / 100)
                    (Z.to_nat (Credit.TermMonths credit)) 1 (Credit.Amount credit)
                    (next_uuid w))).
Proof.
  intros Hfk Hfresh Hold. unfold CreditService.generatePaymentSchedule.
  destruct (@generatePaymentSchedule_loop_run env credit
              (Credit.InterestRate credit / 12 / 100)
              (Z.to_nat (Credit.TermMonths credit)) 1 (Credit.Amount credit) w
              Hfk Hfresh) as (id' & _ & Hrun).
  eexists. split; [exact Hrun|].
  unfold CreditRepository.GetPaymentSchedule.
  cbn [db payment_schedules set_payment_schedules].
  rewrite filter_app, filter_none, filter_all.
  - cbn [app]. rewrite order_by_schedule_rows. reflexivity.
  - intros p Hp. apply Pos.eqb_eq. eapply schedule_rows_CreditID. exact Hp.
  - intros p Hp. apply Pos.eqb_neq. apply Hold. exact Hp.
Qed.

(** The monthly payment of [example_credit] is what the column keeps of
    the annuity payment of 1200 at 27 percent over 6 months. *)
Lemma example_credit_payment_stored :
  DECIMAL_15_2 (CreditService.CalculateMonthlyPayment 1200 6 27)
  = Some (Credit.MonthlyPayment example_credit).
Proof. vm_compute. reflexivity. Qed.

(** The loop hands the rows of [schedule_rows] to the repository, one by
    one and in order, whatever the repository does with them. *)
Lemma generatePaymentSchedule_loop_hands env credit rate n :
  forall i remaining w,
    CreditService.generatePaymentSchedule_loop env credit rate n i remaining w
    = hand_rows (schedule_rows env credit rate n i remaining (next_uuid w)) w.
Proof.
  induction n as [|n IH]; intros i remaining w; [reflexivity|].
  cbn [CreditService.generatePaymentSchedule_loop schedule_rows hand_rows].
  unfold bind at 1 3. unfold uuid_New.
  unfold bind at 1 2. unfold wrap at 1 2.
  unfold CreditRepository.CreatePaymentSchedule.
  cbn [db next_uuid PaymentSchedule.ID PaymentSchedule.CreditID].
  destruct (find_payment (payment_schedules (db w)) (next_uuid w));
    [reflexivity|].
  destruct (find_credit (credits (db w)) (Credit.ID credit)); [|reflexivity].
  apply IH.
Qed.

Lemma generatePaymentSchedule_hands env credit w :
  CreditService.generatePaymentSchedule env credit w
  = hand_rows (issued_schedule env credit (next_uuid w)) w.
Proof. apply generatePaymentSchedule_loop_hands. Qed.

(** In a store that holds the credit and drew its identifiers from the
    generator, every insertion of the loop succeeds. *)
Lemma generatePaymentSchedule_stores env credit w :
  find_credit (credits (db w)) (Credit.ID credit) <> None ->
  schedule_ids_fresh w ->
  exists w',
    CreditService.generatePaymentSchedule env credit w = (w', Ok tt)
    /\ List.length (payment_schedules (db w'))
       = (List.length (payment_schedules (db w))
          + List.length (issued_schedule env credit (next_uuid w)))%nat.
Proof.
  intros Hfk Hfresh. unfold CreditService.generatePaymentSchedule.
  destruct (@generatePaymentSchedule_loop_run env credit
              (Credit.InterestRate credit / 12 / 100)
              (Z.to_nat (Credit.TermMonths credit)) 1 (Credit.Amount credit) w
              Hfk Hfresh) as (id' & _ & Hrun).
  eexists. split; [exact Hrun|].
  cbn [db payment_schedules set_payment_schedules].
  rewrite length_app. reflexivity.
Qed.




(** C7 (as amended): every row [generatePaymentSchedule] computes carries
    the monthly payment as its amount; on every row but the last the
    principal and interest components add up to that amount; on the last
    row the principal component is the remaining principal, the interest
    component is that month's interest on it, and the amount is still the
    monthly payment: it is not recomputed.  In exact arithmetic the two
    components of the last row add up to the amount all the same when the
    rate is positive and the monthly payment is the annuity payment, as
    [CreateCredit] sets it. *)
Theorem schedule_row_components env credit w :
  (1 <= Credit.TermMonths credit)%Z ->
  exists earlier last,
    CreditService.generatePaymentSchedule env credit w
    = hand_rows (earlier ++ [last]) w
    /\ (forall p, In p (earlier ++ [last]) ->
                  PaymentSchedule.Amount p = Credit.MonthlyPayment credit)
    /\ (forall p, In p earlier ->
                  PaymentSchedule.Principal p + PaymentSchedule.Interest p
                  == PaymentSchedule.Amount p)
    /\ PaymentSchedule.PaymentNumber last = Credit.TermMonths credit
    /\ PaymentSchedule.Principal last
       = remainingPrincipal_before credit (List.length earlier)
    /\ PaymentSchedule.Interest last
       = remainingPrincipal_before credit (List.length earlier)
         * (Credit.InterestRate credit / 12 / 100)
    /\ PaymentSchedule.Amount last = Credit.MonthlyPayment credit
    /\ (0 < Credit.InterestRate credit ->
        Credit.MonthlyPayment credit
        == CreditService.CalculateMonthlyPayment (Credit.Amount credit)
             (Credit.TermMonths credit) (Credit.InterestRate credit) ->
        PaymentSchedule.Principal last + PaymentSchedule.Interest last
        == PaymentSchedule.Amount last).
Proof.
  intros HT.
  pose proof (@generatePaymentSchedule_hands env credit w) as Hgen.
  unfold issued_schedule in Hgen.
  set (rate := Credit.InterestRate credit / 12 / 100) in *.
  destruct (Z.to_nat (Credit.TermMonths credit)) as [|n] eqn:En; [lia|].
  destruct (@schedule_rows_last env credit rate n 1 (Credit.Amount credit)
              (next_uuid w)) as [id' Elast]; [lia|].
  rewrite Elast in Hgen.
  eexists. eexists. split; [exact Hgen|].
  rewrite schedule_rows_length. unfold remainingPrincipal_before. fold rate.
  cbn [PaymentSchedule.PaymentNumber PaymentSchedule.Principal
         PaymentSchedule.Interest PaymentSchedule.Amount].
  split; [|split; [|split; [|split; [|split; [|split]]]]]; try reflexivity.
  - intros p Hp. rewrite <- Elast in Hp. eapply schedule_rows_Amount. exact Hp.
  - intros p Hp. eapply schedule_rows_split; [exact Hp|].
    apply schedule_rows_numbers in Hp. lia.
  - intros Hrate HM.
    assert (Hr : 0 < rate).
    { unfold rate. apply Qlt_shift_div_l; [reflexivity|].
      apply Qlt_shift_div_l; [reflexivity|]. lra. }
    assert (HTn : Credit.TermMonths credit = Z.of_nat (S n)) by lia.
    rewrite <- (@annuity_last_row credit rate n Hr HTn).
    + ring.
    + rewrite HM. unfold CreditService.CalculateMonthlyPayment.
      fold rate. rewrite HTn. reflexivity.
Qed.

Lemma schedule_row_components_witness :
  exists earlier last,
    CreditService.generatePaymentSchedule example_env example_credit
      example_credit_world = hand_rows (earlier ++ [last]) example_credit_world
    /\ PaymentSchedule.PaymentNumber last = 6%Z
    /\ PaymentSchedule.Amount last = Credit.MonthlyPayment example_credit.
Proof.
  destruct (@schedule_row_components example_env example_credit
              example_credit_world)
    as (earlier & last & H1 & _ & _ & H3 & _ & _ & H4 & _).
  - cbn. lia.
  - exists earlier, last. repeat split; assumption.
Defined.

(** C7 as stated fails on the rows a credit has in the store, and not
    only on the last one.  For a credit of 1000 over 6 months issued at 27
    percent, the second row handed to the repository splits its amount
    exactly, and the columns [principal], [interest] and [amount], each
    [DECIMAL(15,2)], keep 161.08, 18.96 and 180.03 of it: the stored
    components add up to 180.04. *)
Lemma stored_row_components_counterexample :
  exists w' credit row,
    CreditService.CreateCredit example_env (CreateCreditRequest.mk 1 1000 6) 7
      example_world = (w', Ok credit)
    /\ nth_error (payment_schedules (db w')) 1 = Some row
    /\ PaymentSchedule.CreditID row = Credit.ID credit
    /\ PaymentSchedule.PaymentNumber row = 2%Z
    /\ PaymentSchedule.Principal row + PaymentSchedule.Interest row
       == PaymentSchedule.Amount row
    /\ stored_principal row = Some (16108 # 100)
    /\ stored_interest row = Some (1896 # 100)
    /\ stored_amount row = Some (18003 # 100)
    /\ ~ (16108 # 100) + (1896 # 100) == 18003 # 100.
Proof.
  eexists. eexists. eexists.
  split; [vm_compute; reflexivity|].
  split; [reflexivity|].
  split; [reflexivity|].
  split; [reflexivity|].
  split; [vm_compute; reflexivity|].
  split; [vm_compute; reflexivity|].
  split; [vm_compute; reflexivity|].
  split; [vm_compute; reflexivity|].
  intros H. vm_compute in H. discriminate H.
Qed.

(* ================================================================== *)
(** * Settlement of one installment *)

Lemma filter_unique_account l id a :
  NoDup (map Account.ID l) ->
  find_account l id = Some a ->
  filter (fun x => Pos.eqb (Account.ID x) id) l = [a].
Proof.
  unfold find_account. induction l as [|x l IH]; intros Hnd H; [discriminate|].
  simpl in *. inversion Hnd as [|? ? Hnotin Hnd']; subst.
  destruct (Pos.eqb (Account.ID x) id) eqn:E.
  - injection H as <-. f_equal. apply filter_none. intros y Hy.
    apply Pos.eqb_neq. intros Ey. apply Hnotin. apply Pos.eqb_eq in E.
    rewrite E, <- Ey. apply in_map. exact Hy.
  - apply IH; assumption.
Qed.

(** The insufficient-balance path. *)
Lemma processPayment_overdue_run env payment credit account w :
  find_credit (credits (db w)) (PaymentSchedule.CreditID payment) = Some credit ->
  find_account (accounts (db w)) (Credit.AccountID credit) = Some account ->
  has_transaction (transactions (db w)) (next_uuid w) = false ->
  0 <= Account.Balance account ->
  Account.Balance account < PaymentSchedule.Amount payment ->
  CreditService.processPayment env payment w
  = (mkWorld
       (mkDB (accounts (db w))
          (transactions (db w)
           ++ [payment_entry env payment account
                 (PaymentSchedule.Amount payment * (1 # 10)) (next_uuid w)])
          (credits (db w))
          (schedules_marked env payment "overdue" None (db w)))
       (Pos.succ (next_uuid w)),
     Ok tt).
Proof.
  intros Hc Ha Hfresh Hnn Hlt. unfold CreditService.processPayment.
  unfold bind at 1. unfold wrap at 1. unfold CreditRepository.GetCreditByID.
  rewrite Hc.
  unfold bind at 1. unfold wrap at 1, BeginTx, ret at 1.
  unfold bind at 1. unfold wrap at 1. unfold AccountRepository.GetByIDForUpdate.
  rewrite tx_view_nil, Ha.
  apply Qleb_false in Hlt. rewrite Hlt.
  unfold bind at 1. unfold ret at 1.
  unfold bind at 1. unfold wrap at 1, CreditRepository.UpdatePaymentStatus.
  cbn [String.eqb Ascii.eqb Bool.eqb andb].
  unfold bind at 1. unfold ret at 1.
  unfold bind at 1. unfold uuid_New. cbn [db next_uuid].
  unfold bind at 1. unfold wrap at 1, TransactionRepository.CreateTx.
  cbn [db next_uuid Transaction.Amount Transaction.ID Transaction.AccountID].
  rewrite tx_view_nil.
  cbn [transactions accounts set_payment_schedules].
  assert (Hpos : Qltb 0 (PaymentSchedule.Amount payment
                         + PaymentSchedule.Amount payment * (1 # 10)) = true).
  { apply Qltb_true. apply Qleb_false in Hlt.
    assert (0 < PaymentSchedule.Amount payment)
      by (eapply Qle_lt_trans; eauto).
    assert (0 <= PaymentSchedule.Amount payment * (1 # 10)).
    { apply Qmult_le_0_compat; [apply Qlt_le_weak; assumption | discriminate]. }
    apply Qlt_le_trans with (PaymentSchedule.Amount payment); [assumption|].
    rewrite <- (Qplus_0_r (PaymentSchedule.Amount payment)) at 1.
    apply Qplus_le_r. assumption. }
  rewrite Hpos. cbn [negb]. rewrite Hfresh.
  rewrite (find_account_ID _ _ Ha), Ha.
  unfold wrap, Commit. cbn [db next_uuid].
  rewrite tx_view_snoc, tx_view_nil.
  unfold payment_entry. rewrite (find_account_ID _ _ Ha). reflexivity.
Qed.

(** The sufficient-balance path. *)
Lemma processPayment_paid_run env payment credit account w :
  find_credit (credits (db w)) (PaymentSchedule.CreditID payment) = Some credit ->
  find_account (accounts (db w)) (Credit.AccountID credit) = Some account ->
  NoDup (map Account.ID (accounts (db w))) ->
  has_transaction (transactions (db w)) (next_uuid w) = false ->
  0 < PaymentSchedule.Amount payment ->
  PaymentSchedule.Amount payment <= Account.Balance account ->
  CreditService.processPayment env payment w
  = (mkWorld
       (mkDB (map (add_balance (Account.ID account)
                     (- PaymentSchedule.Amount payment) (time_Now env))
                (accounts (db w)))
          (transactions (db w)
           ++ [payment_entry env payment account 0 (next_uuid w)])
          (credits_after_payment env payment credit (db w))
          (schedules_marked env payment "paid" (Some (time_Now env)) (db w)))
       (Pos.succ (next_uuid w)),
     Ok tt).
Proof.
  intros Hc Ha Hpk Hfresh Hpos Hle. unfold CreditService.processPayment.
  pose proof (find_account_ID _ _ Ha) as Hid.
  unfold bind at 1. unfold wrap at 1. unfold CreditRepository.GetCreditByID.
  rewrite Hc.
  unfold bind at 1. unfold wrap at 1, BeginTx, ret at 1.
  unfold bind at 1. unfold wrap at 1. unfold AccountRepository.GetByIDForUpdate.
  rewrite tx_view_nil, Ha.
  pose proof Hle as Hle'. apply Qleb_true in Hle'. rewrite Hle'.
  assert (Hupd :
    AccountRepository.UpdateBalanceTx env [] (Account.ID account)
      (- PaymentSchedule.Amount payment) w
    = (w, Ok [WUpdateBalance (Account.ID account)
                (- PaymentSchedule.Amount payment) (time_Now env)])).
  { unfold AccountRepository.UpdateBalanceTx. rewrite tx_view_nil.
    rewrite Hid. rewrite (@filter_unique_account _ _ _ Hpk Ha).
    cbn [forallb andb].
    assert (Hchk : Qleb 0 (Account.Balance account
                           + - PaymentSchedule.Amount payment) = true).
    { apply Qleb_true. rewrite <- (Qplus_opp_r (PaymentSchedule.Amount payment)).
      apply Qplus_le_l. exact Hle. }
    rewrite Hchk. reflexivity. }
  unfold bind at 1. unfold bind at 1. rewrite (@wrap_ok _ _ _ _ _ _ Hupd).
  unfold ret at 1.
  unfold bind at 1. unfold wrap at 1, CreditRepository.UpdatePaymentStatus.
  cbn [String.eqb Ascii.eqb Bool.eqb andb].
  unfold bind at 1.
  set (w1 := mkWorld _ (next_uuid w)).
  assert (Hcred :
    (remainingPayments <- wrap "get payments"
         (CreditRepository.GetPaymentSchedule (Credit.ID credit)) ;;
     (if CreditService.allPaid remainingPayments (PaymentSchedule.ID payment)
      then wrap "update credit"
             (CreditRepository.UpdateCreditStatus env (Credit.ID credit) "paid")
      else ret tt)) w1
    = (mkWorld (set_credits (db w1) (credits_after_payment env payment credit (db w)))
         (next_uuid w), Ok tt)).
  { unfold bind, wrap, CreditRepository.GetPaymentSchedule.
    unfold credits_after_payment, schedules_marked. subst w1.
    cbn [db payment_schedules set_payment_schedules].
    destruct (CreditService.allPaid _ _).
    - unfold CreditRepository.UpdateCreditStatus. reflexivity.
    - unfold ret. cbn [db next_uuid set_payment_schedules set_credits credits
                         accounts transactions payment_schedules].
      reflexivity. }
  rewrite Hcred. clear Hcred.
  unfold bind at 1. unfold uuid_New. cbn [db next_uuid].
  unfold bind at 1. unfold wrap at 1, TransactionRepository.CreateTx.
  cbn [db next_uuid Transaction.Amount Transaction.ID Transaction.AccountID].
  unfold tx_view at 1 2. cbn [fold_left apply_write].
  subst w1.
  cbn [db transactions accounts set_payment_schedules set_credits set_accounts].
  assert (Hamt : Qltb 0 (PaymentSchedule.Amount payment + 0) = true).
  { apply Qltb_true. rewrite Qplus_0_r. exact Hpos. }
  rewrite Hamt. cbn [negb]. rewrite Hfresh.
  rewrite <- Hid in Ha.
  rewrite (@find_account_add_same _ _ (- PaymentSchedule.Amount payment)
             (time_Now env) _ Ha).
  unfold wrap, Commit. cbn [db next_uuid].
  unfold tx_view. cbn [fold_left apply_write app].
  unfold payment_entry. reflexivity.
Qed.

Lemma find_payment_marked l id status paidAt now p :
  find_payment l id = Some p ->
  find_payment (map (CreditRepository.set_payment_status id status paidAt now) l) id
  = Some (CreditRepository.set_payment_status id status paidAt now p).
Proof.
  unfold find_payment. induction l as [|x l IH]; simpl; [discriminate|].
  destruct (Pos.eqb (PaymentSchedule.ID x) id) eqn:E.
  - intros H. injection H as <-.
    unfold CreditRepository.set_payment_status at 1. rewrite E. simpl.
    rewrite E. reflexivity.
  - intros H. unfold CreditRepository.set_payment_status at 1. rewrite E.
    rewrite E. apply IH. exact H.
Qed.

Lemma set_payment_status_Status id status paidAt now p :
  PaymentSchedule.ID p = id ->
  PaymentSchedule.Status
    (CreditRepository.set_payment_status id status paidAt now p) = status.
Proof.
  intros H. unfold CreditRepository.set_payment_status.
  rewrite H, Pos.eqb_refl. reflexivity.
Qed.

Lemma find_payment_ID l id p : find_payment l id = Some p -> PaymentSchedule.ID p = id.
Proof.
  unfold find_payment. intros H. apply find_some in H.
  destruct H as [_ H]. apply Pos.eqb_eq in H. exact H.
Qed.

(** The sufficient-balance path for an installment whose amount is not
    positive: the debit is accepted, the installment is marked paid
    through the store handle, the entry is refused by [CHECK (amount >
    0)], and the transaction is abandoned. *)
Lemma processPayment_nonpositive_run env payment credit account w :
  find_credit (credits (db w)) (PaymentSchedule.CreditID payment) = Some credit ->
  find_account (accounts (db w)) (Credit.AccountID credit) = Some account ->
  NoDup (map Account.ID (accounts (db w))) ->
  0 <= Account.Balance account ->
  PaymentSchedule.Amount payment <= 0 ->
  CreditService.processPayment env payment w
  = (mkWorld
       (mkDB (accounts (db w)) (transactions (db w))
          (credits_after_payment env payment credit (db w))
          (schedules_marked env payment "paid" (Some (time_Now env)) (db w)))
       (Pos.succ (next_uuid w)),
     Err (Wrap "record transaction"
            (Wrap "failed to create transaction"
               (ErrConstraint CheckAmountPositive)))).
Proof.
  intros Hc Ha Hpk Hnn Hle0. unfold CreditService.processPayment.
  pose proof (find_account_ID _ _ Ha) as Hid.
  unfold bind at 1. unfold wrap at 1. unfold CreditRepository.GetCreditByID.
  rewrite Hc.
  unfold bind at 1. unfold wrap at 1, BeginTx, ret at 1.
  unfold bind at 1. unfold wrap at 1. unfold AccountRepository.GetByIDForUpdate.
  rewrite tx_view_nil, Ha.
  assert (Hle : PaymentSchedule.Amount payment <= Account.Balance account)
    by lra.
  pose proof Hle as Hle'. apply Qleb_true in Hle'. rewrite Hle'.
  assert (Hupd :
    AccountRepository.UpdateBalanceTx env [] (Account.ID account)
      (- PaymentSchedule.Amount payment) w
    = (w, Ok [WUpdateBalance (Account.ID account)
                (- PaymentSchedule.Amount payment) (time_Now env)])).
  { unfold AccountRepository.UpdateBalanceTx. rewrite tx_view_nil.
    rewrite Hid. rewrite (@filter_unique_account _ _ _ Hpk Ha).
    cbn [forallb andb].
    assert (Hchk : Qleb 0 (Account.Balance account
                           + - PaymentSchedule.Amount payment) = true)
      by (apply Qleb_true; lra).
    rewrite Hchk. reflexivity. }
  unfold bind at 1. unfold bind at 1. rewrite (@wrap_ok _ _ _ _ _ _ Hupd).
  unfold ret at 1.
  unfold bind at 1. unfold wrap at 1, CreditRepository.UpdatePaymentStatus.
  cbn [String.eqb Ascii.eqb Bool.eqb andb].
  unfold bind at 1.
  set (w1 := mkWorld _ (next_uuid w)).
  assert (Hcred :
    (remainingPayments <- wrap "get payments"
         (CreditRepository.GetPaymentSchedule (Credit.ID credit)) ;;
     (if CreditService.allPaid remainingPayments (PaymentSchedule.ID payment)
      then wrap "update credit"
             (CreditRepository.UpdateCreditStatus env (Credit.ID credit) "paid")
      else ret tt)) w1
    = (mkWorld (set_credits (db w1) (credits_after_payment env payment credit (db w)))
         (next_uuid w), Ok tt)).
  { unfold bind, wrap, CreditRepository.GetPaymentSchedule.
    unfold credits_after_payment, schedules_marked. subst w1.
    cbn [db payment_schedules set_payment_schedules].
    destruct (CreditService.allPaid _ _).
    - unfold CreditRepository.UpdateCreditStatus. reflexivity.
    - unfold ret. cbn [db next_uuid set_payment_schedules set_credits credits
                         accounts transactions payment_schedules].
      reflexivity. }
  rewrite Hcred. clear Hcred.
  unfold bind at 1. unfold uuid_New. cbn [db next_uuid].
  unfold bind at 1. unfold wrap at 1, TransactionRepository.CreateTx.
  cbn [db next_uuid Transaction.Amount Transaction.ID Transaction.AccountID].
  assert (Hamt : Qltb 0 (PaymentSchedule.Amount payment + 0) = false)
    by (apply Qltb_false; lra).
  rewrite Hamt. cbn [negb].
  subst w1.
  cbn [db transactions accounts credits payment_schedules
         set_payment_schedules set_credits set_accounts].
  reflexivity.
Qed.




(* ================================================================== *)
(** * Manual payment *)

Lemma ProcessPayment_too_small env paymentID amount payment w :
  find_payment (payment_schedules (db w)) paymentID = Some payment ->
  amount < PaymentSchedule.Amount payment ->
  CreditService.ProcessPayment env paymentID amount w = (w, Err ErrPaymentTooSmall).
Proof.
  intros Hp Hlt. unfold CreditService.ProcessPayment, bind, wrap,
    CreditRepository.GetPaymentByID.
  rewrite Hp. apply Qltb_true in Hlt. rewrite Hlt. reflexivity.
Qed.

Lemma ProcessPayment_enough env paymentID amount payment w :
  find_payment (payment_schedules (db w)) paymentID = Some payment ->
  PaymentSchedule.Amount payment <= amount ->
  CreditService.ProcessPayment env paymentID amount w
  = CreditService.processPayment env payment w.
Proof.
  intros Hp Hle. unfold CreditService.ProcessPayment, bind, wrap,
    CreditRepository.GetPaymentByID.
  rewrite Hp. apply Qltb_false in Hle. rewrite Hle. reflexivity.
Qed.




(* ================================================================== *)
(** * Settlement runs *)

Lemma insert_by_perm A (key : A -> Z) x l :
  Permutation (insert_by key x l) (x :: l).
Proof.
  induction l as [|y l IH]; simpl; [apply Permutation_refl|].
  destruct (Z.leb (key x) (key y)); [apply Permutation_refl|].
  eapply Permutation_trans; [apply perm_skip; exact IH | apply perm_swap].
Qed.

Lemma order_by_perm A (key : A -> Z) l : Permutation (order_by key l) l.
Proof.
  induction l as [|x l IH]; simpl; [apply Permutation_refl|].
  eapply Permutation_trans; [apply insert_by_perm | apply perm_skip; exact IH].
Qed.

Lemma order_by_In A (key : A -> Z) l x : In x (order_by key l) <-> In x l.
Proof.
  split; apply Permutation_in;
    [apply order_by_perm | apply Permutation_sym, order_by_perm].
Qed.

Lemma NoDup_map_filter A B (f : A -> B) (g : A -> bool) l :
  NoDup (map f l) -> NoDup (map f (filter g l)).
Proof.
  induction l as [|x l IH]; simpl; intros H; [constructor|].
  inversion H as [|? ? Hnotin Hnd]; subst.
  destruct (g x); simpl; [|apply IH; exact Hnd].
  constructor; [|apply IH; exact Hnd].
  intros Hin. apply Hnotin. apply in_map_iff in Hin.
  destruct Hin as (y & Hy & Hin). apply filter_In in Hin.
  apply in_map_iff. exists y. tauto.
Qed.

(** Each stored installment is handed to [processPayment] at most once in
    a run. *)
Lemma due_payments_NoDup env w :
  NoDup (map PaymentSchedule.ID (payment_schedules (db w))) ->
  NoDup (map PaymentSchedule.ID (due_payments env w)).
Proof.
  intros H. unfold due_payments.
  eapply Permutation_NoDup.
  - apply Permutation_map. apply Permutation_sym. apply order_by_perm.
  - apply NoDup_map_filter. exact H.
Qed.

(** ** Steps that keep keys and schedules *)

Lemma keeps_keys_ret A (a : A) : keeps_keys (ret a).
Proof. intros w. split; reflexivity. Qed.

Lemma keeps_keys_fail A e : keeps_keys (@fail A e).
Proof. intros w. split; reflexivity. Qed.

Lemma keeps_keys_wrap A s (c : M A) : keeps_keys c -> keeps_keys (wrap s c).
Proof.
  intros H w. specialize (H w). unfold wrap.
  destruct (c w) as [w1 [a|e]]; exact H.
Qed.

Lemma keeps_keys_bind A B (c : M A) (k : A -> M B) :
  keeps_keys c -> (forall a, keeps_keys (k a)) -> keeps_keys (bind c k).
Proof.
  intros Hc Hk w. specialize (Hc w). unfold bind.
  destruct (c w) as [w1 [a|e]]; simpl in Hc; [|exact Hc].
  destruct (Hk a w1) as [H1 H2]. destruct Hc as [H3 H4].
  split; congruence.
Qed.

Lemma keeps_schedules_ret A (a : A) : keeps_schedules (ret a).
Proof. intros w. reflexivity. Qed.

Lemma keeps_schedules_fail A e : keeps_schedules (@fail A e).
Proof. intros w. reflexivity. Qed.

Lemma keeps_schedules_wrap A s (c : M A) :
  keeps_schedules c -> keeps_schedules (wrap s c).
Proof.
  intros H w. specialize (H w). unfold wrap.
  destruct (c w) as [w1 [a|e]]; exact H.
Qed.

Lemma keeps_schedules_bind A B (c : M A) (k : A -> M B) :
  keeps_schedules c -> (forall a, keeps_schedules (k a)) ->
  keeps_schedules (bind c k).
Proof.
  intros Hc Hk w. specialize (Hc w). unfold bind.
  destruct (c w) as [w1 [a|e]]; simpl in Hc; [|exact Hc].
  rewrite (Hk a w1). exact Hc.
Qed.

Lemma tx_view_account_keys d tx : account_keys (tx_view d tx) = account_keys d.
Proof.
  unfold tx_view. revert d. induction tx as [|wr tx IH]; intros d; [reflexivity|].
  cbn [fold_left]. rewrite IH. destruct wr; [|reflexivity].
  unfold account_keys. simpl. rewrite map_map. apply map_ext.
  intros a. apply add_balance_ID.
Qed.

Lemma tx_view_credit_keys d tx : credit_keys (tx_view d tx) = credit_keys d.
Proof. unfold credit_keys. rewrite tx_view_credits. reflexivity. Qed.

Lemma keeps_keys_uuid_New : keeps_keys uuid_New.
Proof. intros w. split; reflexivity. Qed.

Lemma keeps_keys_Commit tx : keeps_keys (Commit tx).
Proof.
  intros w. unfold Commit. simpl.
  split; [apply tx_view_account_keys | apply tx_view_credit_keys].
Qed.

Lemma keeps_keys_CreateTx tx t : keeps_keys (TransactionRepository.CreateTx tx t).
Proof.
  intros w. unfold TransactionRepository.CreateTx.
  destruct (negb _); [split; reflexivity|].
  destruct (has_transaction _ _); [split; reflexivity|].
  destruct (find_account _ _); split; reflexivity.
Qed.

Lemma keeps_keys_GetPaymentSchedule id :
  keeps_keys (CreditRepository.GetPaymentSchedule id).
Proof. intros w. split; reflexivity. Qed.

Lemma set_credit_status_keys id status now c :
  (Credit.ID (CreditRepository.set_credit_status id status now c),
   Credit.AccountID (CreditRepository.set_credit_status id status now c))
  = (Credit.ID c, Credit.AccountID c).
Proof.
  unfold CreditRepository.set_credit_status. destruct (Pos.eqb _ _); reflexivity.
Qed.

Lemma keeps_keys_UpdateCreditStatus env id status :
  keeps_keys (CreditRepository.UpdateCreditStatus env id status).
Proof.
  intros w. unfold CreditRepository.UpdateCreditStatus. simpl.
  split; [reflexivity|]. unfold credit_keys. simpl. rewrite map_map.
  apply map_ext. intros c. apply set_credit_status_keys.
Qed.

Lemma keeps_keys_UpdatePaymentStatus env id status paidAt :
  keeps_keys (CreditRepository.UpdatePaymentStatus env id status paidAt).
Proof. intros w. split; reflexivity. Qed.

Lemma keeps_schedules_uuid_New : keeps_schedules uuid_New.
Proof. intros w. reflexivity. Qed.

Lemma keeps_schedules_Commit tx : keeps_schedules (Commit tx).
Proof. intros w. unfold Commit. simpl. apply tx_view_payment_schedules. Qed.

Lemma keeps_schedules_CreateTx tx t :
  keeps_schedules (TransactionRepository.CreateTx tx t).
Proof.
  intros w. unfold TransactionRepository.CreateTx.
  destruct (negb _); [reflexivity|].
  destruct (has_transaction _ _); [reflexivity|].
  destruct (find_account _ _); reflexivity.
Qed.

Lemma keeps_schedules_GetPaymentSchedule id :
  keeps_schedules (CreditRepository.GetPaymentSchedule id).
Proof. intros w. reflexivity. Qed.

Lemma keeps_schedules_UpdateCreditStatus env id status :
  keeps_schedules (CreditRepository.UpdateCreditStatus env id status).
Proof. intros w. reflexivity. Qed.

Create HintDb settle.
#[export] Hint Resolve keeps_keys_ret keeps_keys_fail keeps_keys_wrap
  keeps_keys_uuid_New keeps_keys_Commit keeps_keys_CreateTx
  keeps_keys_GetPaymentSchedule keeps_keys_UpdateCreditStatus
  keeps_keys_UpdatePaymentStatus
  keeps_schedules_ret keeps_schedules_fail keeps_schedules_wrap
  keeps_schedules_uuid_New keeps_schedules_Commit keeps_schedules_CreateTx
  keeps_schedules_GetPaymentSchedule keeps_schedules_UpdateCreditStatus : settle.

(** The part of [processPayment] that follows the status update. *)
Ltac keeps_tail :=
  repeat first
    [ apply keeps_keys_bind; [auto with settle | intros ?]
    | apply keeps_schedules_bind; [auto with settle | intros ?]
    | match goal with
      | |- keeps_keys (if ?b then _ else _) => destruct b
      | |- keeps_schedules (if ?b then _ else _) => destruct b
      end
    | solve [auto with settle] ].

(** What one call of [processPayment] does to the store: nothing, on an
    installment whose credit or account is missing; otherwise it gives the
    rows of the installment a status other than pending, and keeps the
    keys of accounts and credits. *)
Lemma processPayment_effect env p w w' r :
  NoDup (account_keys (db w)) ->
  CreditService.processPayment env p w = (w', r) ->
  (w' = w /\ orphan (db w) p)
  \/ (exists status paidAt,
        (status = "paid" \/ status = "overdue")
        /\ payment_schedules (db w') = schedules_marked env p status paidAt (db w)
        /\ account_keys (db w') = account_keys (db w)
        /\ credit_keys (db w') = credit_keys (db w)).
Proof.
  intros Hpk H. unfold CreditService.processPayment in H.
  unfold bind at 1 in H. unfold wrap at 1 in H.
  unfold CreditRepository.GetCreditByID in H.
  destruct (find_credit (credits (db w)) (PaymentSchedule.CreditID p))
    as [credit|] eqn:Hc;
    [|left; inversion H; subst; split;
      [reflexivity | unfold orphan; rewrite Hc; exact I]].
  unfold bind at 1 in H. unfold wrap at 1, BeginTx, ret at 1 in H.
  unfold bind at 1 in H. unfold wrap at 1 in H.
  unfold AccountRepository.GetByIDForUpdate in H.
  rewrite tx_view_nil in H.
  destruct (find_account (accounts (db w)) (Credit.AccountID credit))
    as [account|] eqn:Ha;
    [|left; inversion H; subst; split;
      [reflexivity | unfold orphan; rewrite Hc; exact Ha]].
  right.
  destruct (Qleb (PaymentSchedule.Amount p) (Account.Balance account)) eqn:Hq.
  - exists "paid", (Some (time_Now env)). split; [left; reflexivity|].
    assert (Hupd :
      AccountRepository.UpdateBalanceTx env [] (Account.ID account)
        (- PaymentSchedule.Amount p) w
      = (w, Ok [WUpdateBalance (Account.ID account)
                  (- PaymentSchedule.Amount p) (time_Now env)])).
    { unfold AccountRepository.UpdateBalanceTx. rewrite tx_view_nil.
      rewrite (find_account_ID _ _ Ha).
      rewrite (@filter_unique_account _ _ _ Hpk Ha).
      cbn [forallb andb].
      assert (Hchk : Qleb 0 (Account.Balance account
                             + - PaymentSchedule.Amount p) = true).
      { apply Qleb_true. apply Qleb_true in Hq.
        rewrite <- (Qplus_opp_r (PaymentSchedule.Amount p)).
        apply Qplus_le_l. exact Hq. }
      rewrite Hchk. reflexivity. }
    unfold bind at 1 in H. unfold bind at 1 in H.
    rewrite (@wrap_ok _ _ _ _ _ _ Hupd) in H.
    unfold ret at 1 in H.
    unfold bind at 1 in H.
    unfold wrap at 1, CreditRepository.UpdatePaymentStatus in H.
    match type of H with
    | ?c (mkWorld ?d ?u) = _ =>
        assert (K : keeps_keys c) by keeps_tail;
        assert (S : keeps_schedules c) by keeps_tail;
        destruct (K (mkWorld d u)) as [K1 K2]; specialize (S (mkWorld d u));
        rewrite H in K1, K2, S
    end.
    repeat split; assumption.
  - exists "overdue", None. split; [right; reflexivity|].
    unfold bind at 1 in H. unfold ret at 1 in H.
    unfold bind at 1 in H.
    unfold wrap at 1, CreditRepository.UpdatePaymentStatus in H.
    match type of H with
    | ?c (mkWorld ?d ?u) = _ =>
        assert (K : keeps_keys c) by keeps_tail;
        assert (S : keeps_schedules c) by keeps_tail;
        destruct (K (mkWorld d u)) as [K1 K2]; specialize (S (mkWorld d u));
        rewrite H in K1, K2, S
    end.
    repeat split; assumption.
Qed.

Lemma find_account_None_keys l l' id :
  map Account.ID l = map Account.ID l' ->
  find_account l id = None -> find_account l' id = None.
Proof.
  unfold find_account. revert l'.
  induction l as [|x l IH]; intros [|x' l'] E H; try discriminate; [reflexivity|].
  simpl in *. injection E as E1 E2. rewrite <- E1.
  destruct (Pos.eqb (Account.ID x) id); [discriminate|]. apply IH; assumption.
Qed.

Lemma find_credit_keys l l' id :
  map (fun c => (Credit.ID c, Credit.AccountID c)) l
  = map (fun c => (Credit.ID c, Credit.AccountID c)) l' ->
  option_map Credit.AccountID (find_credit l id)
  = option_map Credit.AccountID (find_credit l' id).
Proof.
  unfold find_credit. revert l'.
  induction l as [|x l IH]; intros [|x' l'] E; try discriminate; [reflexivity|].
  simpl in *. injection E as E1 E2 E3. rewrite <- E1.
  destruct (Pos.eqb (Credit.ID x) id); [simpl; congruence|]. apply IH; assumption.
Qed.

Lemma orphan_keys d d' p :
  account_keys d = account_keys d' -> credit_keys d = credit_keys d' ->
  orphan d p -> orphan d' p.
Proof.
  unfold orphan, account_keys, credit_keys. intros Ea Ec.
  pose proof (@find_credit_keys (credits d) (credits d')
                (PaymentSchedule.CreditID p) Ec) as E.
  destruct (find_credit (credits d) _) as [c|];
    destruct (find_credit (credits d') _) as [c'|]; simpl in E;
    try discriminate; auto.
  injection E as E. rewrite <- E. apply find_account_None_keys. exact Ea.
Qed.

(** On an orphan installment [processPayment] fails and writes nothing. *)
Lemma processPayment_orphan env p w :
  orphan (db w) p -> fst (CreditService.processPayment env p w) = w.
Proof.
  unfold orphan, CreditService.processPayment. intros H.
  unfold bind at 1. unfold wrap at 1. unfold CreditRepository.GetCreditByID.
  destruct (find_credit _ _) as [credit|]; [|reflexivity].
  unfold bind at 1. unfold wrap at 1, BeginTx, ret at 1.
  unfold bind at 1. unfold wrap at 1. unfold AccountRepository.GetByIDForUpdate.
  rewrite tx_view_nil, H. reflexivity.
Qed.

Lemma ProcessPayments_loop_orphans env l :
  forall w,
    (forall q, In q l -> orphan (db w) q) ->
    CreditService.ProcessPayments_loop env l w = (w, Ok tt).
Proof.
  induction l as [|p l IH]; intros w H; simpl; [reflexivity|].
  rewrite processPayment_orphan by (apply H; left; reflexivity).
  apply IH. intros q Hq. apply H. right. exact Hq.
Qed.

Lemma is_due_marked env p status paidAt q :
  status = "paid" \/ status = "overdue" ->
  CreditRepository.is_due (time_Now env)
    (CreditRepository.set_payment_status (PaymentSchedule.ID p) status paidAt
       (time_Now env) q) = true ->
  CreditRepository.set_payment_status (PaymentSchedule.ID p) status paidAt
    (time_Now env) q = q
  /\ PaymentSchedule.ID q <> PaymentSchedule.ID p.
Proof.
  intros Hst. unfold CreditRepository.set_payment_status.
  destruct (Pos.eqb (PaymentSchedule.ID q) (PaymentSchedule.ID p)) eqn:E.
  - unfold CreditRepository.is_due. simpl.
    destruct Hst as [-> | ->]; simpl; discriminate.
  - intros _. split; [reflexivity|]. apply Pos.eqb_neq. exact E.
Qed.

(** After the loop every installment still due is an orphan. *)
Lemma ProcessPayments_loop_settles env l :
  forall w,
    NoDup (account_keys (db w)) ->
    (forall q, In q (payment_schedules (db w)) ->
               CreditRepository.is_due (time_Now env) q = true ->
               In q l \/ orphan (db w) q) ->
    forall q,
      In q (payment_schedules
              (db (fst (CreditService.ProcessPayments_loop env l w)))) ->
      CreditRepository.is_due (time_Now env) q = true ->
      orphan (db (fst (CreditService.ProcessPayments_loop env l w))) q.
Proof.
  induction l as [|p l IH]; intros w Hpk Hinv q Hq Hdue.
  - simpl in *. destruct (Hinv q Hq Hdue) as [[]|H]. exact H.
  - cbn [CreditService.ProcessPayments_loop] in *.
    destruct (CreditService.processPayment env p w) as [w' r] eqn:Hrun.
    cbn [fst] in *.
    destruct (@processPayment_effect env p w w' r Hpk Hrun)
      as [[-> Horph] | (status & paidAt & Hst & Hsched & Hak & Hck)].
    + apply (IH w Hpk); [|exact Hq | exact Hdue].
      intros q0 Hq0 Hdue0. destruct (Hinv q0 Hq0 Hdue0) as [[<- | Hin] | Ho];
        [right; exact Horph | left; exact Hin | right; exact Ho].
    + apply (IH w'); [rewrite Hak; exact Hpk | | exact Hq | exact Hdue].
      intros q0 Hq0 Hdue0. rewrite Hsched in Hq0. unfold schedules_marked in Hq0.
      apply in_map_iff in Hq0. destruct Hq0 as (q1 & <- & Hq1).
      destruct (@is_due_marked env p status paidAt q1 Hst Hdue0) as [Esame Hne].
      rewrite Esame in *.
      destruct (Hinv q1 Hq1 Hdue0) as [[<- | Hin] | Ho].
      * contradiction Hne. reflexivity.
      * left. exact Hin.
      * right. eapply orphan_keys; [symmetry; exact Hak | symmetry; exact Hck | exact Ho].
Qed.

Lemma ProcessPayments_unfold env w :
  CreditService.ProcessPayments env w
  = CreditService.ProcessPayments_loop env (due_payments env w) w.
Proof. reflexivity. Qed.

(** A settlement run that follows a settlement run changes nothing. *)
Lemma ProcessPayments_twice env w :
  NoDup (account_keys (db w)) ->
  CreditService.ProcessPayments env (fst (CreditService.ProcessPayments env w))
  = (fst (CreditService.ProcessPayments env w), Ok tt).
Proof.
  intros Hpk. rewrite (ProcessPayments_unfold env (fst _)).
  apply ProcessPayments_loop_orphans. intros q Hq.
  unfold due_payments in Hq. apply order_by_In in Hq. apply filter_In in Hq.
  destruct Hq as [Hq Hdue]. rewrite ProcessPayments_unfold in *.
  apply (@ProcessPayments_loop_settles env (due_payments env w) w Hpk);
    [|exact Hq | exact Hdue].
  intros q0 Hq0 Hdue0. left. unfold due_payments. apply order_by_In.
  apply filter_In. split; assumption.
Qed.

Lemma find_payment_unique l p :
  NoDup (map PaymentSchedule.ID l) -> In p l ->
  find_payment l (PaymentSchedule.ID p) = Some p.
Proof.
  unfold find_payment. induction l as [|x l IH]; intros Hnd Hin; [contradiction|].
  simpl in *. inversion Hnd as [|? ? Hnotin Hnd']; subst.
  destruct Hin as [-> | Hin]; [rewrite Pos.eqb_refl; reflexivity|].
  destruct (Pos.eqb (PaymentSchedule.ID x) (PaymentSchedule.ID p)) eqn:E.
  - exfalso. apply Hnotin. apply Pos.eqb_eq in E. rewrite E.
    apply in_map. exact Hin.
  - apply IH; assumption.
Qed.

(** [GetNextPayment] reads only, and what it returns is a stored pending
    installment of the credit. *)
Lemma GetNextPayment_inv creditID w w' p :
  CreditService.GetNextPayment creditID w = (w', Ok p) ->
  w' = w
  /\ In p (payment_schedules (db w))
  /\ PaymentSchedule.CreditID p = creditID
  /\ PaymentSchedule.Status p = "pending".
Proof.
  unfold CreditService.GetNextPayment, bind, wrap,
    CreditRepository.GetPaymentSchedule.
  destruct (find _ _) as [p0|] eqn:F; intros H; inversion H; subst.
  apply find_some in F. destruct F as [Hin Hst].
  apply order_by_In in Hin. apply filter_In in Hin. destruct Hin as [Hin Hc].
  repeat split; [exact Hin | apply Pos.eqb_eq; exact Hc | apply String.eqb_eq; exact Hst].
Qed.

Lemma GetNextPayment_err creditID w w' e :
  CreditService.GetNextPayment creditID w = (w', Err e) -> w' = w.
Proof.
  unfold CreditService.GetNextPayment, bind, wrap,
    CreditRepository.GetPaymentSchedule.
  destruct (find _ _); intros H; inversion H; reflexivity.
Qed.

(** The handler of "pay now" either changes nothing or hands a stored
    pending installment of the credit to [ProcessPayment]. *)
Lemma MakePayment_pending env body userID w :
  NoDup (map PaymentSchedule.ID (payment_schedules (db w))) ->
  fst (CreditHandler.MakePayment env body userID w) = w
  \/ exists req p,
       body = Some req
       /\ find_payment (payment_schedules (db w)) (PaymentSchedule.ID p) = Some p
       /\ PaymentSchedule.Status p = "pending"
       /\ PaymentSchedule.CreditID p = CreditPaymentRequest.CreditID req
       /\ fst (CreditHandler.MakePayment env body userID w)
          = fst (CreditService.ProcessPayment env (PaymentSchedule.ID p)
                   (CreditPaymentRequest.Amount req) w).
Proof.
  intros Hpk. unfold CreditHandler.MakePayment.
  destruct body as [req|]; [|left; reflexivity].
  destruct userID as [| |u]; [left; reflexivity | left; reflexivity |].
  unfold CreditService.GetCreditByID, wrap, CreditRepository.GetCreditByID.
  destruct (find_credit _ _) as [credit|]; [|left; reflexivity].
  destruct (negb _); [left; reflexivity|].
  destruct (CreditService.GetNextPayment (CreditPaymentRequest.CreditID req) w)
    as [w2 [p|e]] eqn:Hnext.
  - apply GetNextPayment_inv in Hnext. destruct Hnext as (-> & Hin & Hc & Hst).
    right. exists req, p. split; [reflexivity|].
    split; [apply find_payment_unique; assumption|].
    split; [exact Hst|]. split; [exact Hc|].
    destruct (CreditService.ProcessPayment env _ _ w) as [w3 [x|e]]; reflexivity.
  - apply GetNextPayment_err in Hnext. subst w2. left. reflexivity.
Qed.

(** C4 (as amended): in a store with its primary keys, a settlement run
    hands each stored installment to the settlement at most once, a second
    run started right after the first changes nothing, so that no
    installment is debited twice, and the "pay now" handler only ever
    hands a stored pending installment to [ProcessPayment].  (The guard
    is the selection made by the callers: [ProcessPayment] itself takes
    any installment.) *)
Theorem settlement_charges_at_most_once env w :
  NoDup (map Account.ID (accounts (db w))) ->
  NoDup (map PaymentSchedule.ID (payment_schedules (db w))) ->
  CreditService.ProcessPayments env w
  = CreditService.ProcessPayments_loop env (due_payments env w) w
  /\ NoDup (map PaymentSchedule.ID (due_payments env w))
  /\ CreditService.ProcessPayments env (fst (CreditService.ProcessPayments env w))
     = (fst (CreditService.ProcessPayments env w), Ok tt)
  /\ (forall body userID,
        fst (CreditHandler.MakePayment env body userID w) = w
        \/ exists req p,
             body = Some req
             /\ find_payment (payment_schedules (db w)) (PaymentSchedule.ID p)
                = Some p
             /\ PaymentSchedule.Status p = "pending"
             /\ PaymentSchedule.CreditID p = CreditPaymentRequest.CreditID req
             /\ fst (CreditHandler.MakePayment env body userID w)
                = fst (CreditService.ProcessPayment env (PaymentSchedule.ID p)
                         (CreditPaymentRequest.Amount req) w)).
Proof.
  intros Hacc Hsch. split; [reflexivity|].
  split; [apply due_payments_NoDup; exact Hsch|].
  split; [apply ProcessPayments_twice; exact Hacc|].
  intros body userID. apply MakePayment_pending. exact Hsch.
Qed.

Lemma settlement_charges_at_most_once_witness :
  exists w1 account1,
    CreditService.ProcessPayments example_env (example_settle_world 100 "pending")
    = (w1, Ok tt)
    /\ find_account (accounts (db w1)) 1 = Some account1
    /\ Account.Balance account1 == 50
    /\ CreditService.ProcessPayments example_env w1 = (w1, Ok tt).
Proof.
  destruct (@settlement_charges_at_most_once example_env
              (example_settle_world 100 "pending"))
    as (_ & _ & H & _).
  - repeat constructor. intros [].
  - repeat constructor. intros [].
  - eexists. eexists. split; [vm_compute; reflexivity|].
    split; [vm_compute; reflexivity|]. split; [vm_compute; reflexivity|].
    exact H.
Defined.

(** C4 as stated fails for [ProcessPayment]: called again on the
    installment it has just settled, whose status is now paid, it debits
    the account a second time. *)
Lemma manual_payment_recharges_paid_counterexample :
  exists w1 w2 p account1 account2,
    CreditService.ProcessPayment example_env 30 50
      (example_settle_world 100 "pending") = (w1, Ok tt)
    /\ find_payment (payment_schedules (db w1)) 30 = Some p
    /\ PaymentSchedule.Status p = "paid"
    /\ CreditService.ProcessPayment example_env 30 50 w1 = (w2, Ok tt)
    /\ find_account (accounts (db w1)) 1 = Some account1
    /\ find_account (accounts (db w2)) 1 = Some account2
    /\ Account.Balance account1 == 50
    /\ Account.Balance account2 == 0.
Proof.
  eexists. eexists. eexists. eexists. eexists.
  split; [vm_compute; reflexivity|].
  split; [vm_compute; reflexivity|].
  split; [vm_compute; reflexivity|].
  split; [vm_compute; reflexivity|].
  split; [vm_compute; reflexivity|].
  split; [vm_compute; reflexivity|].
  split; vm_compute; reflexivity.
Qed.

(* ================================================================== *)
(** * Withdrawals that race *)

Lemma Withdraw_checks_world accountID amount userID w w' r :
  AccountService.Withdraw_checks accountID amount userID w = (w', r) -> w' = w.
Proof.
  unfold AccountService.Withdraw_checks.
  destruct (Qleb amount 0); [unfold fail; congruence|].
  unfold bind, wrap, AccountRepository.GetByID.
  destruct (find_account _ _) as [a|]; [|congruence].
  destruct (negb _); [unfold fail; congruence|].
  destruct (Qltb _ _); [unfold fail; congruence|].
  destruct (negb _); unfold fail, ret; congruence.
Qed.

(** The checks of [Withdraw] are made on the committed row, before the
    store transaction is opened. *)
Lemma Withdraw_insufficient env accountID amount userID w account :
  find_account (accounts (db w)) accountID = Some account ->
  0 < amount ->
  Account.UserID account = userID ->
  Account.Balance account < amount ->
  AccountService.Withdraw env accountID amount userID w
  = (w, Err ErrInsufficientFunds).
Proof.
  intros Ha Hpos Hu Hlt.
  unfold AccountService.Withdraw, AccountService.Withdraw_checks.
  apply Qleb_false in Hpos. unfold bind at 1. rewrite Hpos.
  unfold bind, wrap, AccountRepository.GetByID. rewrite Ha.
  rewrite Hu, Pos.eqb_refl. cbn [negb].
  apply Qltb_true in Hlt. rewrite Hlt. reflexivity.
Qed.

Lemma Withdraw_transaction_ok env accountID amount w w' u :
  AccountService.Withdraw_transaction env accountID amount w = (w', Ok u) ->
  exists account,
    find_account (accounts (db w)) accountID = Some account
    /\ find_account (accounts (db w')) accountID
       = Some (add_balance accountID (- amount) (time_Now env) account)
    /\ 0 <= Account.Balance account + - amount.
Proof.
  unfold AccountService.Withdraw_transaction. intros H.
  inv_ok H. apply BeginTx_inv in Hstep. destruct Hstep as [-> ->].
  inv_ok H. apply UpdateBalanceTx_inv in Hstep.
  destruct Hstep as (-> & -> & [account Ha] & Hall).
  rewrite tx_view_nil in Ha, Hall.
  inv_ok H. apply uuid_New_inv in Hstep. destruct Hstep as [-> ->].
  inv_ok H. apply uuid_New_inv in Hstep. destruct Hstep as [-> ->].
  inv_ok H. apply CreateTx_inv in Hstep. destruct Hstep as (-> & -> & _).
  inv_ok H. apply Commit_inv in H. subst w'.
  exists account. split; [exact Ha|]. split.
  - cbn. apply find_account_add_same. exact Ha.
  - apply Hall; [eapply find_account_In; eauto | eapply find_account_ID; eauto].
Qed.

Lemma Withdraw_transaction_err env accountID amount w w' e :
  AccountService.Withdraw_transaction env accountID amount w = (w', Err e) ->
  db w' = db w.
Proof.
  unfold AccountService.Withdraw_transaction.
  unfold bind at 1. unfold wrap at 1, BeginTx, ret at 1.
  unfold bind at 1. unfold wrap at 1.
  destruct (AccountRepository.UpdateBalanceTx env [] accountID (- amount) w)
    as [w1 [tx|e1]] eqn:Hupd.
  - apply UpdateBalanceTx_inv in Hupd. destruct Hupd as (-> & -> & _).
    unfold bind at 1. unfold uuid_New at 1.
    unfold bind at 1. unfold uuid_New at 1.
    unfold bind at 1. unfold wrap at 1.
    match goal with
    | |- context [TransactionRepository.CreateTx ?tx ?t ?w0] =>
        destruct (TransactionRepository.CreateTx tx t w0) as [w2 [tx2|e2]] eqn:Hc
    end.
    + unfold wrap, Commit. intros H. discriminate H.
    + intros H. inversion H; subst.
      unfold TransactionRepository.CreateTx in Hc.
      destruct (negb _); [inversion Hc; reflexivity|].
      destruct (has_transaction _ _); [inversion Hc; reflexivity|].
      destruct (find_account _ _); inversion Hc; reflexivity.
  - intros H. inversion H; subst.
    pose proof (keeps_UpdateBalanceTx env [] accountID (- amount) w) as K.
    unfold AccountRepository.UpdateBalanceTx in Hupd.
    destruct (negb _); [inversion Hupd; reflexivity|].
    destruct (filter _ _); inversion Hupd; reflexivity.
Qed.

(** One step of one request: the balance goes down by what the request
    has newly taken, and stays non-negative. *)
Lemma step_withdraw_balance req ph w ph' w' account :
  Race.step_withdraw req ph w = (ph', w') ->
  find_account (accounts (db w)) (Race.accountID req) = Some account ->
  0 <= Account.Balance account ->
  exists account',
    find_account (accounts (db w')) (Race.accountID req) = Some account'
    /\ Account.Balance account'
       == Account.Balance account
          - (debited ph' (Race.amount req) - debited ph (Race.amount req))
    /\ 0 <= Account.Balance account'.
Proof.
  intros Hstep Ha Hnn. destruct ph as [| |r]; simpl in Hstep.
  - destruct (AccountService.Withdraw_checks _ _ _ w) as [w1 [u|e]] eqn:Hc;
      apply Withdraw_checks_world in Hc; subst w1;
      inversion Hstep; subst; exists account;
      (split; [exact Ha|]); (split; [simpl; ring | exact Hnn]).
  - destruct (AccountService.Withdraw_transaction _ _ _ w) as [w1 [u|e]] eqn:Ht;
      inversion Hstep; subst.
    + apply Withdraw_transaction_ok in Ht.
      destruct Ht as (account0 & Ha0 & Ha' & Hchk).
      rewrite Ha in Ha0. injection Ha0 as <-.
      eexists. split; [exact Ha'|].
      rewrite add_balance_Balance_same by (eapply find_account_ID; eauto).
      split; [simpl; ring | exact Hchk].
    + apply Withdraw_transaction_err in Ht. rewrite Ht.
      exists account. split; [exact Ha|]. split; [simpl; ring | exact Hnn].
  - inversion Hstep; subst. exists account.
    split; [exact Ha|]. split; [ring | exact Hnn].
Qed.

Lemma race_step_invariant r1 r2 b s t :
  Race.accountID r2 = Race.accountID r1 ->
  race_invariant r1 r2 (Race.accountID r1) b s ->
  race_invariant r1 r2 (Race.accountID r1) b (Race.step r1 r2 s t).
Proof.
  intros Hid (account & Ha & Hbal & Hnn). destruct t; unfold Race.step.
  - destruct (Race.step_withdraw r1 (Race.phase1 s) (Race.world s))
      as [ph' w'] eqn:Hstep.
    destruct (@step_withdraw_balance r1 _ _ _ _ account Hstep Ha Hnn)
      as (account' & Ha' & Hbal' & Hnn').
    exists account'. simpl. split; [exact Ha'|]. split; [|exact Hnn'].
    rewrite Hbal', Hbal. ring.
  - destruct (Race.step_withdraw r2 (Race.phase2 s) (Race.world s))
      as [ph' w'] eqn:Hstep.
    rewrite <- Hid in Ha.
    destruct (@step_withdraw_balance r2 _ _ _ _ account Hstep Ha Hnn)
      as (account' & Ha' & Hbal' & Hnn').
    rewrite Hid in Ha'.
    exists account'. simpl. split; [exact Ha'|]. split; [|exact Hnn'].
    rewrite Hbal', Hbal. ring.
Qed.

Lemma race_run_invariant r1 r2 b schedule :
  Race.accountID r2 = Race.accountID r1 ->
  forall s,
    race_invariant r1 r2 (Race.accountID r1) b s ->
    race_invariant r1 r2 (Race.accountID r1) b
      (fold_left (Race.step r1 r2) schedule s).
Proof.
  intros Hid. induction schedule as [|t schedule IH]; intros s Hs; simpl.
  - exact Hs.
  - apply IH. apply race_step_invariant; assumption.
Qed.

(** What a request has taken is nothing or its amount, and an amount
    that passed the checks is positive. *)
Lemma Withdraw_checks_positive accountID amount userID w w' u :
  AccountService.Withdraw_checks accountID amount userID w = (w', Ok u) ->
  0 < amount.
Proof.
  unfold AccountService.Withdraw_checks.
  destruct (Qleb amount 0) eqn:E; [unfold fail; discriminate|].
  intros _. apply Qleb_false in E. exact E.
Qed.

Lemma step_withdraw_taken req ph w ph' w' :
  Race.step_withdraw req ph w = (ph', w') ->
  0 <= debited ph (Race.amount req)
  /\ (ph = Race.Checked -> 0 < Race.amount req) ->
  0 <= debited ph' (Race.amount req)
  /\ (ph' = Race.Checked -> 0 < Race.amount req).
Proof.
  intros Hstep [Hd Hc]. destruct ph as [| |r]; simpl in Hstep.
  - destruct (AccountService.Withdraw_checks _ _ _ w) as [w1 [u|e]] eqn:Hchk;
      inversion Hstep; subst; simpl.
    + split; [lra|]. intros _. eapply Withdraw_checks_positive. exact Hchk.
    + split; [lra | discriminate].
  - destruct (AccountService.Withdraw_transaction _ _ _ w) as [w1 r];
      inversion Hstep; subst.
    split; [|discriminate].
    destruct r as [u|e]; simpl; [|lra].
    apply Qlt_le_weak. apply Hc. reflexivity.
  - inversion Hstep; subst. split; [exact Hd | discriminate].
Qed.

Lemma race_run_taken r1 r2 schedule :
  forall s,
    (0 <= debited (Race.phase1 s) (Race.amount r1)
     /\ (Race.phase1 s = Race.Checked -> 0 < Race.amount r1))
    /\ (0 <= debited (Race.phase2 s) (Race.amount r2)
        /\ (Race.phase2 s = Race.Checked -> 0 < Race.amount r2)) ->
    0 <= debited (Race.phase1 (fold_left (Race.step r1 r2) schedule s))
           (Race.amount r1)
    /\ 0 <= debited (Race.phase2 (fold_left (Race.step r1 r2) schedule s))
              (Race.amount r2).
Proof.
  induction schedule as [|t schedule IH]; intros s [H1 H2]; simpl.
  - split; [apply H1 | apply H2].
  - apply IH. destruct t; unfold Race.step.
    + destruct (Race.step_withdraw r1 (Race.phase1 s) (Race.world s))
        as [ph' w'] eqn:Hstep. simpl. split; [|exact H2].
      eapply step_withdraw_taken; eauto.
    + destruct (Race.step_withdraw r2 (Race.phase2 s) (Race.world s))
        as [ph' w'] eqn:Hstep. simpl. split; [exact H1|].
      eapply step_withdraw_taken; eauto.
Qed.

Lemma held_debited ph amount :
  held_15_2 amount -> held_15_2 (debited ph amount).
Proof.
  intros H. destruct ph as [| |[u|e]]; simpl; try exact H;
    vm_compute; reflexivity.
Qed.

(** C5 (as amended): [Withdraw] verifies [balance >= amount] on the row
    returned by the unlocked read made before the store transaction opens;
    it is the constraint on the balance-delta write that decides a race:
    of two withdrawals from the same account, of amounts that are whole
    cents as the balance is, run in any interleaving of their steps
    against a balance that does not cover both, at most one succeeds, and
    the balance of the account is never negative and remains a value the
    column keeps as it is. *)
Theorem racing_withdrawals_cannot_overdraw r1 r2 schedule w account :
  Race.accountID r2 = Race.accountID r1 ->
  find_account (accounts (db w)) (Race.accountID r1) = Some account ->
  0 <= Account.Balance account ->
  Account.Balance account < Race.amount r1 + Race.amount r2 ->
  held_15_2 (Account.Balance account) ->
  held_15_2 (Race.amount r1) ->
  held_15_2 (Race.amount r2) ->
  (0 < Race.amount r1 ->
   Account.UserID account = Race.userID r1 ->
   Account.Balance account < Race.amount r1 ->
   AccountService.Withdraw (Race.env r1) (Race.accountID r1) (Race.amount r1)
     (Race.userID r1) w
   = (w, Err ErrInsufficientFunds))
  /\ ~ (Race.succeeded (Race.phase1 (Race.run r1 r2 schedule w))
        /\ Race.succeeded (Race.phase2 (Race.run r1 r2 schedule w)))
  /\ exists account',
       find_account (accounts (db (Race.world (Race.run r1 r2 schedule w))))
         (Race.accountID r1) = Some account'
       /\ 0 <= Account.Balance account'
       /\ held_15_2 (Account.Balance account').
Proof.
  intros Hid Ha Hnn Hlt Hb H1 H2. split.
  - intros Hpos Hu Hb'. eapply Withdraw_insufficient; eauto.
  - assert (Hinv : race_invariant r1 r2 (Race.accountID r1)
                     (Account.Balance account) (Race.run r1 r2 schedule w)).
    { unfold Race.run. apply race_run_invariant; [exact Hid|].
      exists account. simpl. split; [exact Ha|]. split; [ring | exact Hnn]. }
    destruct (@race_run_taken r1 r2 schedule (Race.mkState w Race.Start Race.Start))
      as [Hd1 Hd2].
    { simpl. repeat split; try lra; discriminate. }
    fold (Race.run r1 r2 schedule w) in Hd1, Hd2.
    destruct Hinv as (account' & Ha' & Hbal & Hnn'). split.
    + intros [S1 S2]. unfold Race.succeeded in S1, S2.
      rewrite S1, S2 in Hbal. simpl in Hbal.
      lra.
    + exists account'. split; [exact Ha'|]. split; [exact Hnn'|].
      set (d1 := debited (Race.phase1 (Race.run r1 r2 schedule w))
                   (Race.amount r1)) in *.
      set (d2 := debited (Race.phase2 (Race.run r1 r2 schedule w))
                   (Race.amount r2)) in *.
      apply (@held_2_Qeq 15 (Account.Balance account - d1 - d2));
        [symmetry; exact Hbal|].
      apply held_15_2_minus.
      * apply held_15_2_minus; [exact Hb | apply held_debited; exact H1
                               | exact Hd1 | lra].
      * apply held_debited; exact H2.
      * exact Hd2.
      * lra.
Qed.

Lemma racing_withdrawals_cannot_overdraw_witness :
  ~ (Race.succeeded
       (Race.phase1
          (Race.run example_request example_request
             [Race.First; Race.Second; Race.Second; Race.First] example_world))
     /\ Race.succeeded
          (Race.phase2
             (Race.run example_request example_request
                [Race.First; Race.Second; Race.Second; Race.First]
                example_world)))
  /\ Race.balance
       (Race.world
          (Race.run example_request example_request
             [Race.First; Race.Second; Race.Second; Race.First] example_world))
       1
     = Some (100 + - (100)).
Proof.
  destruct (@racing_withdrawals_cannot_overdraw example_request example_request
              [Race.First; Race.Second; Race.Second; Race.First] example_world
              (example_account 1 7 100))
    as (_ & H & _).
  - reflexivity.
  - reflexivity.
  - vm_compute. discriminate.
  - vm_compute. reflexivity.
  - vm_compute. reflexivity.
  - vm_compute. reflexivity.
  - vm_compute. reflexivity.
  - split; [exact H | vm_compute; reflexivity].
Defined.

(** The sequential [Withdraw] is the two steps of a request run one after
    the other. *)
Lemma Withdraw_two_steps req w :
  Race.run req req [Race.First; Race.First] w
  = Race.mkState
      (fst (AccountService.Withdraw (Race.env req) (Race.accountID req)
              (Race.amount req) (Race.userID req) w))
      (Race.Finished
         (snd (AccountService.Withdraw (Race.env req) (Race.accountID req)
                 (Race.amount req) (Race.userID req) w)))
      Race.Start.
Proof.
  unfold Race.run, AccountService.Withdraw, bind. cbn [fold_left Race.step
    Race.phase1 Race.phase2 Race.world Race.step_withdraw].
  destruct (AccountService.Withdraw_checks _ _ _ w) as [w1 [u|e]];
    cbn [Race.step_withdraw Race.world Race.phase1 Race.phase2 fst snd];
    [|reflexivity].
  destruct (AccountService.Withdraw_transaction _ _ _ w1) as [w2 r]. reflexivity.
Qed.

(** C5 as stated fails: the check of [Withdraw] is made on a row read
    before the transaction and without a lock.  With a balance of 100 and
    two withdrawals of 100, both requests pass the check; when the second
    enters its transaction the balance is 0, and it is the store that
    refuses the write, with a constraint violation and not with
    insufficient funds. *)
Lemma withdraw_check_is_unlocked_counterexample :
  Race.phase2
    (Race.run example_request example_request
       [Race.First; Race.Second; Race.First] example_world)
  = Race.Checked
  /\ Race.balance
       (Race.world
          (Race.run example_request example_request
             [Race.First; Race.Second; Race.First] example_world)) 1
     = Some (100 + - (100))
  /\ 100 + - (100) < Race.amount example_request
  /\ Race.phase2
       (Race.run example_request example_request
          [Race.First; Race.Second; Race.First; Race.Second] example_world)
     = Race.Finished
         (Err (Wrap "withdraw"
                 (Wrap "failed to update balance"
                    (ErrConstraint CheckBalanceNonNegative)))).
Proof.
  split; [vm_compute; reflexivity|].
  split; [vm_compute; reflexivity|].
  split; vm_compute; reflexivity.
Qed.

(* ================================================================== *)
(** * Credit issuance *)

Lemma find_credit_fresh l id :
  Forall (fun c => (Credit.ID c < id)%positive) l -> find_credit l id = None.
Proof.
  unfold find_credit. induction l as [|x l IH]; intros H; [reflexivity|].
  inversion H as [|? ? Hx Hl]; subst. simpl.
  destruct (Pos.eqb (Credit.ID x) id) eqn:E.
  - apply Pos.eqb_eq in E. lia.
  - apply IH. exact Hl.
Qed.

Lemma find_credit_last l c : find_credit (l ++ [c]) (Credit.ID c) <> None.
Proof.
  unfold find_credit. induction l as [|x l IH]; simpl.
  - rewrite Pos.eqb_refl. discriminate.
  - destruct (Pos.eqb (Credit.ID x) (Credit.ID c)); [discriminate | exact IH].
Qed.

Lemma has_transaction_fresh l id :
  Forall (fun t => (Transaction.ID t < id)%positive) l ->
  has_transaction l id = false.
Proof.
  unfold has_transaction. induction l as [|x l IH]; intros H; [reflexivity|].
  inversion H as [|? ? Hx Hl]; subst. simpl.
  destruct (Pos.eqb (Transaction.ID x) id) eqn:E.
  - apply Pos.eqb_eq in E. lia.
  - apply IH. exact Hl.
Qed.

(** Issuance into a well-formed store, for an account of the requester and
    a positive amount: it succeeds whatever the term is, and these are the
    rows it leaves. *)
Lemma CreateCredit_run env req userID account w :
  store_wf w ->
  find_account (accounts (db w)) (CreateCreditRequest.AccountID req)
  = Some account ->
  Account.UserID account = userID ->
  0 <= Account.Balance account ->
  0 < CreateCreditRequest.Amount req ->
  let credit := issued_credit env req userID (next_uuid w) in
  exists id',
    (Pos.succ (next_uuid w) <= id')%positive
    /\ CreditService.CreateCredit env req userID w
       = (mkWorld
            (mkDB
               (map (add_balance (CreateCreditRequest.AccountID req)
                       (CreateCreditRequest.Amount req) (time_Now env))
                  (accounts (db w)))
               (transactions (db w)
                ++ [ Transaction.mk id' (CreateCreditRequest.AccountID req)
                       (CreateCreditRequest.Amount req) TransactionTypeCredit
                       (Some (next_uuid w)) (time_Now env) ])
               (credits (db w) ++ [credit])
               (payment_schedules (db w)
                ++ issued_schedule env credit (Pos.succ (next_uuid w))))
            (Pos.succ id'),
          Ok credit).
Proof.
  intros (Hpk & Hcr & Hsc & Htx) Ha Hu Hnn Hpos credit.
  unfold CreditService.CreateCredit.
  unfold bind at 1. unfold wrap at 1. unfold AccountRepository.GetByID.
  rewrite Ha, Hu, Pos.eqb_refl. cbn [negb].
  unfold bind at 1. unfold uuid_New at 1.
  fold (issued_credit env req userID (next_uuid w)). fold credit.
  unfold bind at 1. unfold wrap at 1, BeginTx, ret at 1.
  set (w1 := mkWorld (db w) (Pos.succ (next_uuid w))).
  assert (Hupd :
    AccountRepository.UpdateBalanceTx env [] (CreateCreditRequest.AccountID req)
      (CreateCreditRequest.Amount req) w1
    = (w1, Ok [WUpdateBalance (CreateCreditRequest.AccountID req)
                 (CreateCreditRequest.Amount req) (time_Now env)])).
  { unfold AccountRepository.UpdateBalanceTx. rewrite tx_view_nil.
    unfold w1. cbn [db].
    rewrite (@filter_unique_account _ _ _ Hpk Ha). cbn [forallb andb].
    assert (Hchk : Qleb 0 (Account.Balance account
                           + CreateCreditRequest.Amount req) = true)
      by (apply Qleb_true; lra).
    rewrite Hchk. reflexivity. }
  unfold bind at 1. rewrite (@wrap_ok _ _ _ _ _ _ Hupd).
  set (w2 := mkWorld (set_credits (db w) (credits (db w) ++ [credit]))
               (Pos.succ (next_uuid w))).
  assert (Hins : CreditRepository.CreateCredit credit w1 = (w2, Ok tt)).
  { unfold CreditRepository.CreateCredit, w1. cbn [db next_uuid].
    rewrite (@find_credit_fresh (credits (db w)) (Credit.ID credit)) by exact Hcr.
    cbn [Credit.AccountID credit issued_credit]. rewrite Ha. reflexivity. }
  unfold bind at 1. rewrite (@wrap_ok _ _ _ _ _ _ Hins).
  destruct (@generatePaymentSchedule_loop_run env credit
              (Credit.InterestRate credit / 12 / 100)
              (Z.to_nat (Credit.TermMonths credit)) 1 (Credit.Amount credit) w2)
    as (id' & Hle & Hgen).
  { unfold w2. cbn [db credits set_credits]. apply find_credit_last. }
  { unfold schedule_ids_fresh, w2. cbn [db next_uuid payment_schedules set_credits].
    eapply Forall_impl; [|exact Hsc]. cbn beta. intros p [Hp _]. lia. }
  unfold w2 in Hle. cbn [next_uuid] in Hle.
  exists id'. split; [exact Hle|].
  unfold bind at 1. unfold CreditService.generatePaymentSchedule.
  rewrite (@wrap_ok _ _ _ _ _ _ Hgen).
  unfold bind at 1. unfold uuid_New at 1. cbn [db next_uuid].
  unfold bind at 1. unfold wrap at 1, TransactionRepository.CreateTx.
  cbn [db next_uuid Transaction.Amount Transaction.ID Transaction.AccountID].
  unfold tx_view at 1 2. cbn [fold_left apply_write].
  unfold w2.
  cbn [db next_uuid transactions accounts set_payment_schedules set_credits
         set_accounts].
  apply Qltb_true in Hpos. rewrite Hpos. cbn [negb].
  rewrite (@has_transaction_fresh (transactions (db w)) id')
    by (eapply Forall_impl; [|exact Htx]; cbn beta; intros t Ht; lia).
  rewrite (@find_account_add_same _ _ (CreateCreditRequest.Amount req)
             (time_Now env) _ Ha).
  unfold bind at 1. unfold wrap, Commit. cbn [db next_uuid].
  unfold tx_view. cbn [fold_left apply_write app].
  unfold ret, issued_schedule.
  cbn [set_transactions set_accounts accounts transactions credits
         payment_schedules].
  reflexivity.
Qed.

(** The schedule read back after an issuance is the schedule of the
    issued credit. *)
Lemma CreateCredit_schedule_read_back env req userID account w :
  store_wf w ->
  find_account (accounts (db w)) (CreateCreditRequest.AccountID req)
  = Some account ->
  Account.UserID account = userID ->
  0 <= Account.Balance account ->
  0 < CreateCreditRequest.Amount req ->
  exists w',
    CreditService.CreateCredit env req userID w
    = (w', Ok (issued_credit env req userID (next_uuid w)))
    /\ CreditRepository.GetPaymentSchedule (next_uuid w) w'
       = (w', Ok (issued_schedule env (issued_credit env req userID (next_uuid w))
                    (Pos.succ (next_uuid w)))).
Proof.
  intros Hwf Ha Hu Hnn Hpos.
  destruct (@CreateCredit_run env req userID account w Hwf Ha Hu Hnn Hpos)
    as (id' & _ & Hrun).
  eexists. split; [exact Hrun|].
  unfold CreditRepository.GetPaymentSchedule.
  cbn [db payment_schedules].
  rewrite filter_app, filter_none, filter_all.
  - cbn [app]. unfold issued_schedule. rewrite order_by_schedule_rows. reflexivity.
  - intros p Hp. apply Pos.eqb_eq. unfold issued_schedule in Hp.
    apply schedule_rows_CreditID in Hp. exact Hp.
  - intros p Hp. apply Pos.eqb_neq. destruct Hwf as (_ & _ & Hsc & _).
    rewrite Forall_forall in Hsc. destruct (Hsc p Hp) as [_ Hlt]. lia.
Qed.

(** C9, the code on the inputs of the claim: a request whose term is at
    least 1 and outside [6, 60], made by the owner of the account for a
    positive amount, is not rejected.  The handler answers 201 Created,
    the account is credited with the amount, and a credit with that term
    and a schedule of that many rows is stored. *)
Theorem CreateCredit_accepts_term_out_of_range env req userID account w :
  store_wf w ->
  find_account (accounts (db w)) (CreateCreditRequest.AccountID req)
  = Some account ->
  Account.UserID account = userID ->
  0 <= Account.Balance account ->
  0 < CreateCreditRequest.Amount req ->
  (1 <= CreateCreditRequest.TermMonths req)%Z ->
  ~ (6 <= CreateCreditRequest.TermMonths req <= 60)%Z ->
  exists w' account' credit,
    CreditHandler.CreateCredit env (Some req) (User userID) w
    = (w', CreditHandler.StatusCreated)
    /\ find_account (accounts (db w')) (CreateCreditRequest.AccountID req)
       = Some account'
    /\ Account.Balance account'
       == Account.Balance account + CreateCreditRequest.Amount req
    /\ credits (db w') = credits (db w) ++ [credit]
    /\ Credit.TermMonths credit = CreateCreditRequest.TermMonths req
    /\ Z.of_nat (List.length (payment_schedules (db w')))
       = (Z.of_nat (List.length (payment_schedules (db w)))
          + CreateCreditRequest.TermMonths req)%Z
    /\ List.length (transactions (db w'))
       = S (List.length (transactions (db w))).
Proof.
  intros Hwf Ha Hu Hnn Hpos Hterm _.
  destruct (@CreateCredit_run env req userID account w Hwf Ha Hu Hnn Hpos)
    as (id' & _ & Hrun).
  unfold CreditHandler.CreateCredit. rewrite Hrun.
  eexists. eexists. eexists. split; [reflexivity|].
  cbn [db accounts credits payment_schedules transactions].
  split; [apply find_account_add_same; exact Ha|].
  split.
  { rewrite add_balance_Balance_same by (eapply find_account_ID; eauto).
    reflexivity. }
  split; [reflexivity|]. split; [reflexivity|]. split.
  - rewrite length_app. unfold issued_schedule. rewrite schedule_rows_length.
    cbn [Credit.TermMonths issued_credit]. lia.
  - rewrite length_app. cbn [List.length]. lia.
Qed.

Lemma CreateCredit_accepts_term_out_of_range_witness :
  exists w' account',
    CreditHandler.CreateCredit example_env
      (Some (CreateCreditRequest.mk 1 1200 3)) (User 7) example_world
    = (w', CreditHandler.StatusCreated)
    /\ find_account (accounts (db w')) 1 = Some account'
    /\ Account.Balance account' == 100 + 1200
    /\ Z.of_nat (List.length (payment_schedules (db w'))) = 3%Z.
Proof.
  destruct (@CreateCredit_accepts_term_out_of_range example_env
              (CreateCreditRequest.mk 1 1200 3) 7%positive
              (example_account 1 7 100) example_world)
    as (w' & account' & credit & H1 & H2 & H3 & _ & _ & H4 & _).
  - repeat split; repeat constructor; cbn; intuition discriminate.
  - reflexivity.
  - reflexivity.
  - vm_compute. discriminate.
  - vm_compute. reflexivity.
  - cbn. lia.
  - cbn. lia.
  - exists w', account'. repeat split; assumption.
Defined.

(** C3, the code on failing inputs: for a request with a non-positive
    amount (no validation stops it), made by the owner of the account into
    a well-formed store, [CreateCredit] fails when the transaction entry
    is refused by [CHECK (amount > 0)]; the balance change is rolled back
    and no entry is written, but the credit row and all its schedule rows,
    inserted through [r.db], stay in the store. *)
Theorem CreateCredit_failure_leaves_credit_and_schedule env req userID account w :
  store_wf w ->
  find_account (accounts (db w)) (CreateCreditRequest.AccountID req)
  = Some account ->
  Account.UserID account = userID ->
  0 <= Account.Balance account + CreateCreditRequest.Amount req ->
  CreateCreditRequest.Amount req <= 0 ->
  exists w',
    CreditService.CreateCredit env req userID w
    = (w', Err (Wrap "record transaction"
                  (Wrap "failed to create transaction"
                     (ErrConstraint CheckAmountPositive))))
    /\ accounts (db w') = accounts (db w)
    /\ transactions (db w') = transactions (db w)
    /\ credits (db w')
       = credits (db w) ++ [issued_credit env req userID (next_uuid w)]
    /\ payment_schedules (db w')
       = payment_schedules (db w)
         ++ issued_schedule env (issued_credit env req userID (next_uuid w))
              (Pos.succ (next_uuid w)).
Proof.
  intros (Hpk & Hcr & Hsc & Htx) Ha Hu Hchk0 Hle0.
  set (credit := issued_credit env req userID (next_uuid w)).
  unfold CreditService.CreateCredit.
  unfold bind at 1. unfold wrap at 1. unfold AccountRepository.GetByID.
  rewrite Ha, Hu, Pos.eqb_refl. cbn [negb].
  unfold bind at 1. unfold uuid_New at 1.
  fold (issued_credit env req userID (next_uuid w)). fold credit.
  unfold bind at 1. unfold wrap at 1, BeginTx, ret at 1.
  set (w1 := mkWorld (db w) (Pos.succ (next_uuid w))).
  assert (Hupd :
    AccountRepository.UpdateBalanceTx env [] (CreateCreditRequest.AccountID req)
      (CreateCreditRequest.Amount req) w1
    = (w1, Ok [WUpdateBalance (CreateCreditRequest.AccountID req)
                 (CreateCreditRequest.Amount req) (time_Now env)])).
  { unfold AccountRepository.UpdateBalanceTx. rewrite tx_view_nil.
    unfold w1. cbn [db].
    rewrite (@filter_unique_account _ _ _ Hpk Ha). cbn [forallb andb].
    apply Qleb_true in Hchk0. rewrite Hchk0. reflexivity. }
  unfold bind at 1. rewrite (@wrap_ok _ _ _ _ _ _ Hupd).
  set (w2 := mkWorld (set_credits (db w) (credits (db w) ++ [credit]))
               (Pos.succ (next_uuid w))).
  assert (Hins : CreditRepository.CreateCredit credit w1 = (w2, Ok tt)).
  { unfold CreditRepository.CreateCredit, w1. cbn [db next_uuid].
    rewrite (@find_credit_fresh (credits (db w)) (Credit.ID credit)) by exact Hcr.
    cbn [Credit.AccountID credit issued_credit]. rewrite Ha. reflexivity. }
  unfold bind at 1. rewrite (@wrap_ok _ _ _ _ _ _ Hins).
  destruct (@generatePaymentSchedule_loop_run env credit
              (Credit.InterestRate credit / 12 / 100)
              (Z.to_nat (Credit.TermMonths credit)) 1 (Credit.Amount credit) w2)
    as (id' & Hle & Hgen).
  { unfold w2. cbn [db credits set_credits]. apply find_credit_last. }
  { unfold schedule_ids_fresh, w2. cbn [db next_uuid payment_schedules set_credits].
    eapply Forall_impl; [|exact Hsc]. cbn beta. intros p [Hp _]. lia. }
  unfold bind at 1. unfold CreditService.generatePaymentSchedule.
  rewrite (@wrap_ok _ _ _ _ _ _ Hgen).
  unfold bind at 1. unfold uuid_New at 1. cbn [db next_uuid].
  unfold bind at 1. unfold wrap at 1, TransactionRepository.CreateTx.
  cbn [db next_uuid Transaction.Amount].
  apply Qltb_false in Hle0. rewrite Hle0. cbn [negb].
  eexists. split; [reflexivity|].
  unfold w2, issued_schedule. cbn. repeat split.
Qed.

Lemma CreateCredit_failure_leaves_credit_and_schedule_witness :
  exists w' credit,
    CreditService.CreateCredit example_env (CreateCreditRequest.mk 1 0 6) 7
      example_world
    = (w', Err (Wrap "record transaction"
                  (Wrap "failed to create transaction"
                     (ErrConstraint CheckAmountPositive))))
    /\ accounts (db w') = accounts (db example_world)
    /\ transactions (db w') = []
    /\ credits (db w') = [credit]
    /\ List.length (payment_schedules (db w')) = 6%nat.
Proof.
  destruct (@CreateCredit_failure_leaves_credit_and_schedule example_env
              (CreateCreditRequest.mk 1 0 6) 7%positive
              (example_account 1 7 100) example_world)
    as (w' & H1 & H2 & H3 & H4 & H5).
  - repeat split; repeat constructor; cbn; intuition discriminate.
  - reflexivity.
  - reflexivity.
  - vm_compute. discriminate.
  - vm_compute. discriminate.
  - exists w'. eexists. split; [exact H1|]. split; [exact H2|].
    split; [exact H3|]. split; [exact H4|].
    rewrite H5. vm_compute. reflexivity.
Defined.

(* ================================================================== *)
(** * Further properties of the account service *)

Lemma keeps_db_ret A (a : A) : keeps_db (ret a).
Proof. intros w. reflexivity. Qed.

Lemma keeps_db_fail A e : keeps_db (@fail A e).
Proof. intros w. reflexivity. Qed.

Lemma keeps_db_wrap A s (c : M A) : keeps_db c -> keeps_db (wrap s c).
Proof.
  intros H w. specialize (H w). unfold wrap.
  destruct (c w) as [w1 [a|e]]; exact H.
Qed.

Lemma keeps_db_bind A B (c : M A) (k : A -> M B) :
  keeps_db c -> (forall a, keeps_db (k a)) -> keeps_db (bind c k).
Proof.
  intros Hc Hk w. specialize (Hc w). unfold bind.
  destruct (c w) as [w1 [a|e]]; simpl in Hc; [|exact Hc].
  rewrite (Hk a w1). exact Hc.
Qed.

Lemma keeps_db_uuid_New : keeps_db uuid_New.
Proof. intros w. reflexivity. Qed.

Lemma keeps_db_BeginTx : keeps_db BeginTx.
Proof. intros w. reflexivity. Qed.

Lemma keeps_db_GetByID id : keeps_db (AccountRepository.GetByID id).
Proof.
  intros w. unfold AccountRepository.GetByID.
  destruct (find_account _ _); reflexivity.
Qed.

Lemma keeps_db_GetByIDForUpdate tx id :
  keeps_db (AccountRepository.GetByIDForUpdate tx id).
Proof.
  intros w. unfold AccountRepository.GetByIDForUpdate.
  destruct (find_account _ _); reflexivity.
Qed.

Lemma keeps_db_UpdateBalanceTx env tx id amount :
  keeps_db (AccountRepository.UpdateBalanceTx env tx id amount).
Proof.
  intros w. unfold AccountRepository.UpdateBalanceTx.
  destruct (negb _); [reflexivity|]. destruct (filter _ _); reflexivity.
Qed.

Lemma keeps_db_CreateTx tx t : keeps_db (TransactionRepository.CreateTx tx t).
Proof.
  intros w. unfold TransactionRepository.CreateTx.
  destruct (negb _); [reflexivity|]. destruct (has_transaction _ _); [reflexivity|].
  destruct (find_account _ _); reflexivity.
Qed.

Lemma keeps_db_GetUserAccounts u : keeps_db (AccountRepository.GetUserAccounts u).
Proof. intros w. reflexivity. Qed.

Lemma keeps_db_GetCreditByID id : keeps_db (CreditRepository.GetCreditByID id).
Proof.
  intros w. unfold CreditRepository.GetCreditByID.
  destruct (find_credit _ _); reflexivity.
Qed.

Lemma keeps_db_GetPaymentSchedule id :
  keeps_db (CreditRepository.GetPaymentSchedule id).
Proof. intros w. reflexivity. Qed.

Lemma keeps_db_GetPaymentByID id : keeps_db (CreditRepository.GetPaymentByID id).
Proof.
  intros w. unfold CreditRepository.GetPaymentByID.
  destruct (find_payment _ _); reflexivity.
Qed.

Create HintDb keepsdb.
#[export] Hint Resolve keeps_db_ret keeps_db_fail keeps_db_wrap keeps_db_uuid_New
  keeps_db_BeginTx keeps_db_GetByID keeps_db_GetByIDForUpdate
  keeps_db_UpdateBalanceTx keeps_db_CreateTx keeps_db_GetUserAccounts
  keeps_db_GetCreditByID keeps_db_GetPaymentSchedule keeps_db_GetPaymentByID
  : keepsdb.

Lemma hoare_keeps_db A (c : M A) d :
  keeps_db c -> hoare (db_is d) c (fun _ => db_is d) (db_is d).
Proof.
  intros Hk w Hw. specialize (Hk w). unfold db_is in *.
  destruct (c w) as [w1 [a|e]]; simpl in Hk; congruence.
Qed.

(** [tx.Commit] is the only step that writes, and it does not fail. *)
Lemma hoare_Commit_last s tx d :
  hoare (db_is d) (wrap s (Commit tx)) (fun _ _ => True) (db_is d).
Proof. intros w Hw. unfold wrap, Commit. exact I. Qed.

(** One step of a proof that code made of reads and of writes through a
    transaction, committed at the end, changes nothing when it fails. *)
Ltac atomic_step :=
  lazymatch goal with
  | |- hoare _ (if ?b then _ else _) _ _ => destruct b
  | |- hoare _ (wrap _ (Commit _)) _ _ => apply hoare_Commit_last
  | |- hoare _ (bind _ _) _ _ =>
      eapply hoare_bind; [apply hoare_keeps_db; auto with keepsdb | intros ?]
  | |- hoare _ (fail _) _ _ => apply hoare_fail
  end.

Lemma hoare_err_db A (c : M A) d w w' e :
  hoare (db_is d) c (fun _ _ => True) (db_is d) ->
  db w = d -> c w = (w', Err e) -> db w' = d.
Proof.
  intros H Hw Hrun. specialize (H w Hw). rewrite Hrun in H. exact H.
Qed.

Lemma Deposit_err_db env accountID amount userID w w' e :
  AccountService.Deposit env accountID amount userID w = (w', Err e) ->
  db w' = db w.
Proof.
  intros H. eapply hoare_err_db; [|reflexivity | exact H].
  unfold AccountService.Deposit. repeat atomic_step.
Qed.

Lemma Withdraw_err_db env accountID amount userID w w' e :
  AccountService.Withdraw env accountID amount userID w = (w', Err e) ->
  db w' = db w.
Proof.
  intros H. eapply hoare_err_db; [|reflexivity | exact H].
  unfold AccountService.Withdraw, AccountService.Withdraw_checks,
    AccountService.Withdraw_transaction.
  eapply hoare_bind with (Q := fun _ => db_is (db w)).
  - repeat atomic_step. apply hoare_keeps_db. auto with keepsdb.
  - intros _. repeat atomic_step.
Qed.

Lemma Transfer_err_db env fromAccountID toAccountID amount userID w w' e :
  AccountService.Transfer env fromAccountID toAccountID amount userID w
  = (w', Err e) ->
  db w' = db w.
Proof.
  intros H. eapply hoare_err_db; [|reflexivity | exact H].
  unfold AccountService.Transfer. repeat atomic_step.
Qed.

(** X1: deposits, withdrawals and transfers are all-or-nothing: one that
    returns an error leaves the committed store exactly as it was. *)
Theorem account_operations_all_or_nothing env w w' e :
  (forall accountID amount userID,
     AccountService.Deposit env accountID amount userID w = (w', Err e) ->
     db w' = db w)
  /\ (forall accountID amount userID,
        AccountService.Withdraw env accountID amount userID w = (w', Err e) ->
        db w' = db w)
  /\ (forall fromAccountID toAccountID amount userID,
        AccountService.Transfer env fromAccountID toAccountID amount userID w
        = (w', Err e) ->
        db w' = db w).
Proof.
  split; [|split]; intros.
  - eapply Deposit_err_db; eauto.
  - eapply Withdraw_err_db; eauto.
  - eapply Transfer_err_db; eauto.
Qed.

Lemma account_operations_all_or_nothing_witness :
  exists w' e,
    AccountService.Withdraw example_env 1 130 7 example_world = (w', Err e)
    /\ db w' = db example_world.
Proof.
  eexists. eexists. split; [vm_compute; reflexivity|].
  destruct (@account_operations_all_or_nothing example_env example_world
              example_world ErrInsufficientFunds) as (_ & H & _).
  apply (H 1%positive 130 7%positive). vm_compute. reflexivity.
Defined.

(** ** Deposits and withdrawals that succeed *)

Lemma find_account_RUB_check account :
  Account.Currency account = "RUB" ->
  negb (AccountService.is_RUB (Account.Currency account)) = false.
Proof. intros ->. reflexivity. Qed.

(** The steps of the store transaction of a deposit or a withdrawal: one
    balance delta and one entry. *)
Lemma single_entry_transaction_run s1 s2 s3 s4 env accountID delta amount kind
  account w :
  store_wf w ->
  find_account (accounts (db w)) accountID = Some account ->
  0 <= Account.Balance account + delta ->
  0 < amount ->
  (tx <- wrap s1 BeginTx ;;
   tx <- wrap s2 (AccountRepository.UpdateBalanceTx env tx accountID delta) ;;
   transferID <- uuid_New ;;
   transactionID <- uuid_New ;;
   tx <- wrap s3
           (TransactionRepository.CreateTx tx
              (Transaction.mk transactionID accountID amount kind
                 (Some transferID) (time_Now env))) ;;
   wrap s4 (Commit tx)) w
  = (mkWorld
       (mkDB (map (add_balance accountID delta (time_Now env)) (accounts (db w)))
          (transactions (db w)
           ++ [Transaction.mk (Pos.succ (next_uuid w)) accountID amount kind
                 (Some (next_uuid w)) (time_Now env)])
          (credits (db w)) (payment_schedules (db w)))
       (Pos.succ (Pos.succ (next_uuid w))),
     Ok tt).
Proof.
  intros (Hpk & _ & _ & Htx) Ha Hchk Hpos.
  unfold bind at 1. unfold wrap at 1, BeginTx, ret at 1.
  assert (Hupd :
    AccountRepository.UpdateBalanceTx env [] accountID delta w
    = (w, Ok [WUpdateBalance accountID delta (time_Now env)])).
  { unfold AccountRepository.UpdateBalanceTx. rewrite tx_view_nil.
    rewrite (@filter_unique_account _ _ _ Hpk Ha). cbn [forallb andb].
    apply Qleb_true in Hchk. rewrite Hchk. reflexivity. }
  unfold bind at 1. rewrite (@wrap_ok _ _ _ _ _ _ Hupd).
  unfold bind at 1. unfold uuid_New at 1.
  unfold bind at 1. unfold uuid_New at 1. cbn [db next_uuid].
  unfold bind at 1. unfold wrap at 1, TransactionRepository.CreateTx.
  cbn [db next_uuid Transaction.Amount Transaction.ID Transaction.AccountID].
  unfold tx_view at 1 2. cbn [fold_left apply_write].
  cbn [transactions accounts set_accounts].
  apply Qltb_true in Hpos. rewrite Hpos. cbn [negb].
  rewrite (@has_transaction_fresh (transactions (db w)) (Pos.succ (next_uuid w)))
    by (eapply Forall_impl; [|exact Htx]; cbn beta; intros t Ht; lia).
  rewrite (@find_account_add_same _ _ delta (time_Now env) _ Ha).
  unfold wrap, Commit. cbn [db next_uuid].
  unfold tx_view. cbn [fold_left apply_write].
  destruct w as [[a t c p] u]. reflexivity.
Qed.

(** X2: in a well-formed store, a deposit by the owner of a RUB account
    of a positive amount, when the amount and the balance that results are
    values the [DECIMAL(15,2)] columns keep as they are (whole cents,
    fewer than fourteen digits before the point), succeeds: the balance of
    the account goes up by exactly the amount and is kept as it is by the
    column, one entry of kind deposit is appended for it, and every other
    account, the credits and the schedules are untouched. *)
Theorem Deposit_effect env accountID amount userID account w :
  store_wf w ->
  find_account (accounts (db w)) accountID = Some account ->
  Account.UserID account = userID ->
  Account.Currency account = "RUB" ->
  0 <= Account.Balance account ->
  0 < amount ->
  held_15_2 amount ->
  held_15_2 (Account.Balance account + amount) ->
  exists w' account',
    AccountService.Deposit env accountID amount userID w = (w', Ok tt)
    /\ find_account (accounts (db w')) accountID = Some account'
    /\ Account.Balance account' == Account.Balance account + amount
    /\ held_15_2 (Account.Balance account')
    /\ transactions (db w')
       = transactions (db w)
         ++ [Transaction.mk (Pos.succ (next_uuid w)) accountID amount
               TransactionTypeDeposit (Some (next_uuid w)) (time_Now env)]
    /\ (forall id, id <> accountID ->
                   find_account (accounts (db w')) id
                   = find_account (accounts (db w)) id)
    /\ credits (db w') = credits (db w)
    /\ payment_schedules (db w') = payment_schedules (db w).
Proof.
  intros Hwf Ha Hu Hcur Hnn Hpos _ Hheld.
  unfold AccountService.Deposit.
  pose proof Hpos as Hpos'. apply Qleb_false in Hpos'. rewrite Hpos'.
  unfold bind at 1. unfold wrap at 1. unfold AccountRepository.GetByID.
  rewrite Ha, Hu, Pos.eqb_refl. cbn [negb].
  rewrite (find_account_RUB_check _ Hcur).
  rewrite (@single_entry_transaction_run _ _ _ _ env accountID amount amount
             TransactionTypeDeposit account w Hwf Ha) by (try assumption; lra).
  eexists. eexists. split; [reflexivity|]. cbn [db accounts transactions credits
    payment_schedules].
  split; [apply find_account_add_same; exact Ha|].
  rewrite add_balance_Balance_same by (eapply find_account_ID; eauto).
  split; [reflexivity|]. split; [exact Hheld|].
  split; [reflexivity|]. split; [|split; reflexivity].
  intros id Hne. apply find_account_add_other. exact Hne.
Qed.

Lemma Deposit_effect_witness :
  exists w' account',
    AccountService.Deposit example_env 1 (1000005 # 10) 7 example_world
    = (w', Ok tt)
    /\ find_account (accounts (db w')) 1 = Some account'
    /\ Account.Balance account' == 100 + (1000005 # 10).
Proof.
  destruct (@Deposit_effect example_env 1%positive (1000005 # 10) 7%positive
              (example_account 1 7 100) example_world)
    as (w' & account' & H1 & H2 & H3 & _).
  - repeat split; repeat constructor; cbn; intuition discriminate.
  - reflexivity.
  - reflexivity.
  - reflexivity.
  - vm_compute. discriminate.
  - vm_compute. reflexivity.
  - vm_compute. reflexivity.
  - vm_compute. reflexivity.
  - exists w', account'. repeat split; assumption.
Defined.

(** X3: in a well-formed store, a withdrawal by the owner of a RUB
    account of a positive amount, when the amount and the balance are
    values the [DECIMAL(15,2)] columns keep as they are (whole cents,
    fewer than fourteen digits before the point), succeeds exactly when
    the balance covers the amount.  When it does, the balance goes down by
    exactly the amount, stays non-negative and is kept as it is by the
    column, one entry of kind withdrawal is appended and the other
    accounts are untouched; when it does not, the withdrawal fails with
    insufficient funds and nothing is written. *)
Theorem Withdraw_effect env accountID amount userID account w :
  store_wf w ->
  find_account (accounts (db w)) accountID = Some account ->
  Account.UserID account = userID ->
  Account.Currency account = "RUB" ->
  0 < amount ->
  held_15_2 amount ->
  held_15_2 (Account.Balance account) ->
  (amount <= Account.Balance account ->
   exists w' account',
     AccountService.Withdraw env accountID amount userID w = (w', Ok tt)
     /\ find_account (accounts (db w')) accountID = Some account'
     /\ Account.Balance account' == Account.Balance account - amount
     /\ 0 <= Account.Balance account'
     /\ held_15_2 (Account.Balance account')
     /\ transactions (db w')
        = transactions (db w)
          ++ [Transaction.mk (Pos.succ (next_uuid w)) accountID amount
                TransactionTypeWithdrawal (Some (next_uuid w)) (time_Now env)]
     /\ (forall id, id <> accountID ->
                    find_account (accounts (db w')) id
                    = find_account (accounts (db w)) id))
  /\ (Account.Balance account < amount ->
      AccountService.Withdraw env accountID amount userID w
      = (w, Err ErrInsufficientFunds)).
Proof.
  intros Hwf Ha Hu Hcur Hpos Hheld Hbal. split.
  - intros Hle.
    unfold AccountService.Withdraw, AccountService.Withdraw_checks,
      AccountService.Withdraw_transaction.
    pose proof Hpos as Hpos'. apply Qleb_false in Hpos'.
    unfold bind at 1. rewrite Hpos'.
    unfold bind at 1. unfold wrap at 1. unfold AccountRepository.GetByID.
    rewrite Ha, Hu, Pos.eqb_refl. cbn [negb].
    pose proof Hle as Hle'. apply Qltb_false in Hle'. rewrite Hle'.
    rewrite (find_account_RUB_check _ Hcur). unfold ret at 1.
    rewrite (@single_entry_transaction_run _ _ _ _ env accountID (- amount) amount
               TransactionTypeWithdrawal account w Hwf Ha)
      by (try assumption; lra).
    eexists. eexists. split; [reflexivity|].
    cbn [db accounts transactions].
    split; [apply find_account_add_same; exact Ha|].
    rewrite add_balance_Balance_same by (eapply find_account_ID; eauto).
    split; [reflexivity|]. split; [lra|].
    split; [apply held_15_2_minus; try assumption; lra|].
    split; [reflexivity|].
    intros id Hne. apply find_account_add_other. exact Hne.
  - intros Hlt. eapply Withdraw_insufficient; eauto.
Qed.

Lemma Withdraw_effect_witness :
  (exists w' account',
     AccountService.Withdraw example_env 1 30 7 example_world = (w', Ok tt)
     /\ find_account (accounts (db w')) 1 = Some account'
     /\ Account.Balance account' == 100 - 30)
  /\ AccountService.Withdraw example_env 1 130 7 example_world
     = (example_world, Err ErrInsufficientFunds).
Proof.
  destruct (@Withdraw_effect example_env 1%positive 30 7%positive
              (example_account 1 7 100) example_world) as [H1 _].
  { repeat split; repeat constructor; cbn; intuition discriminate. }
  { reflexivity. } { reflexivity. } { reflexivity. } { vm_compute. reflexivity. }
  { vm_compute. reflexivity. } { vm_compute. reflexivity. }
  destruct (@Withdraw_effect example_env 1%positive 130 7%positive
              (example_account 1 7 100) example_world) as [_ H2].
  { repeat split; repeat constructor; cbn; intuition discriminate. }
  { reflexivity. } { reflexivity. } { reflexivity. } { vm_compute. reflexivity. }
  { vm_compute. reflexivity. } { vm_compute. reflexivity. }
  split.
  - destruct H1 as (w' & account' & E1 & E2 & E3 & _);
      [vm_compute; discriminate|].
    exists w', account'. repeat split; assumption.
  - apply H2. vm_compute. reflexivity.
Defined.

(* ================================================================== *)
(** * The sum of the balances *)

Lemma add_balance_absent l id amount now :
  ~ In id (map Account.ID l) -> map (add_balance id amount now) l = l.
Proof.
  induction l as [|x l IH]; intros H; [reflexivity|]. simpl in *.
  rewrite IH by tauto. unfold add_balance.
  destruct (Pos.eqb (Account.ID x) id) eqn:E; [|reflexivity].
  apply Pos.eqb_eq in E. tauto.
Qed.

Lemma Qsum_add_balance l id amount now a :
  NoDup (map Account.ID l) ->
  find_account l id = Some a ->
  Qsum (map Account.Balance (map (add_balance id amount now) l))
  == Qsum (map Account.Balance l) + amount.
Proof.
  unfold find_account.
  induction l as [|x l IH]; intros Hnd Hf; [discriminate|].
  simpl in Hnd, Hf. inversion Hnd as [|? ? Hx Hl]; subst.
  cbn [map Qsum fold_right].
  destruct (Pos.eqb (Account.ID x) id) eqn:E.
  - apply Pos.eqb_eq in E.
    rewrite add_balance_absent by (rewrite <- E; exact Hx).
    rewrite add_balance_Balance_same by exact E. ring.
  - fold (Qsum (map Account.Balance (map (add_balance id amount now) l))).
    fold (Qsum (map Account.Balance l)).
    rewrite (IH Hl Hf). unfold add_balance. rewrite E. ring.
Qed.

Lemma add_balance_keys l id amount now :
  map Account.ID (map (add_balance id amount now) l) = map Account.ID l.
Proof. rewrite map_map. apply map_ext. intros a. apply add_balance_ID. Qed.

Lemma find_account_add_some l id id' amount now a :
  find_account l id' = Some a ->
  exists a', find_account (map (add_balance id amount now) l) id' = Some a'.
Proof.
  intros H. destruct (Pos.eq_dec id' id) as [->|Hne].
  - eexists. apply find_account_add_same. exact H.
  - exists a. rewrite find_account_add_other by exact Hne. exact H.
Qed.

(** X4: a transfer of whole cents never creates or destroys money.  When
    the amount and the balances of the store are values the
    [DECIMAL(15,2)] columns keep as they are, then whatever the transfer
    returns, and also when the two accounts are the same one, the sum of
    the balances of all accounts after the call equals the sum before it,
    as long as account identifiers are unique (the primary key). *)
Theorem Transfer_preserves_total_balance env X Y A u w w' r :
  NoDup (map Account.ID (accounts (db w))) ->
  held_15_2 A ->
  Forall (fun a => held_15_2 (Account.Balance a)) (accounts (db w)) ->
  AccountService.Transfer env X Y A u w = (w', r) ->
  total_balance (db w') == total_balance (db w).
Proof.
  intros Hnd _ _ H. destruct r as [[]|e].
  - apply Transfer_commit_inv in H.
    destruct H as (_ & [ax Hx] & [ay Hy] & ->).
    unfold total_balance, Transfer_writes.
    cbn [db tx_view fold_left apply_write set_accounts set_transactions
           accounts].
    destruct (@find_account_add_some (accounts (db w)) X Y (- A)
                (time_Now env) ay Hy) as [ay' Hy'].
    rewrite (@Qsum_add_balance _ Y A (time_Now env) ay')
      by (try rewrite add_balance_keys; assumption).
    rewrite (@Qsum_add_balance _ X (- A) (time_Now env) ax) by assumption.
    ring.
  - apply Transfer_err_db in H. rewrite H. reflexivity.
Qed.

Lemma Transfer_preserves_total_balance_witness :
  total_balance
    (db (fst (AccountService.Transfer example_env 1 2 30 7 example_world)))
  == total_balance (db example_world).
Proof.
  apply (@Transfer_preserves_total_balance example_env 1%positive 2%positive
           30 7%positive example_world
           (fst (AccountService.Transfer example_env 1 2 30 7 example_world))
           (snd (AccountService.Transfer example_env 1 2 30 7 example_world))).
  - repeat constructor; cbn; intuition discriminate.
  - vm_compute. reflexivity.
  - repeat constructor; vm_compute; reflexivity.
  - destruct (AccountService.Transfer example_env 1 2 30 7 example_world).
    reflexivity.
Defined.

(* ================================================================== *)
(** * Ownership *)

(** X5: an account the requester does not own, or that does not exist,
    cannot be touched: a deposit to it, a withdrawal from it and a transfer
    out of it are all refused with an error, and the whole state, the
    identifier generator included, is exactly as before. *)
Theorem foreign_account_is_refused env accountID toAccountID amount userID w :
  (forall a, find_account (accounts (db w)) accountID = Some a ->
             Account.UserID a <> userID) ->
  (exists e, AccountService.Deposit env accountID amount userID w = (w, Err e))
  /\ (exists e,
        AccountService.Withdraw env accountID amount userID w = (w, Err e))
  /\ (exists e,
        AccountService.Transfer env accountID toAccountID amount userID w
        = (w, Err e)).
Proof.
  intros Hown.
  assert (Hget :
    (exists e, AccountRepository.GetByID accountID w = (w, Err e))
    \/ (exists a, AccountRepository.GetByID accountID w = (w, Ok a)
                  /\ Pos.eqb (Account.UserID a) userID = false)).
  { unfold AccountRepository.GetByID.
    destruct (find_account (accounts (db w)) accountID) as [a|] eqn:E.
    - right. exists a. split; [reflexivity|].
      apply Pos.eqb_neq. apply Hown. reflexivity.
    - left. eexists. reflexivity. }
  unfold AccountService.Deposit, AccountService.Withdraw,
    AccountService.Withdraw_checks, AccountService.Transfer.
  destruct (Qleb amount 0).
  - repeat split; eexists; reflexivity.
  - destruct Hget as [[e Hg]|(a & Hg & Hu)].
    + repeat split; eexists;
        repeat (unfold bind at 1); unfold wrap at 1; rewrite Hg; reflexivity.
    + repeat split; eexists;
        repeat (unfold bind at 1); unfold wrap at 1; rewrite Hg, Hu;
        reflexivity.
Qed.

Lemma foreign_account_is_refused_witness :
  AccountService.Withdraw example_env 2 10 7 example_world
  = (example_world, Err ErrNotOwner).
Proof.
  destruct (@foreign_account_is_refused example_env 2%positive 1%positive 10
              7%positive example_world) as (_ & [e He] & _).
  - intros a Ha. vm_compute in Ha. injection Ha as <-. discriminate.
  - rewrite He. vm_compute in He. injection He as <-. reflexivity.
Defined.

(* ================================================================== *)
(** * Opening an account *)

Lemma find_account_app_fresh l account :
  find_account l (Account.ID account) = None ->
  find_account (l ++ [account]) (Account.ID account) = Some account.
Proof.
  unfold find_account. intros H. induction l as [|x l IH]; simpl in *.
  - rewrite Pos.eqb_refl. reflexivity.
  - destruct (Pos.eqb (Account.ID x) (Account.ID account)); [discriminate|].
    apply IH. exact H.
Qed.

Lemma find_account_app_old l account id a :
  find_account l id = Some a -> find_account (l ++ [account]) id = Some a.
Proof.
  unfold find_account. intros H. induction l as [|x l IH]; simpl in *.
  - discriminate.
  - destruct (Pos.eqb (Account.ID x) id); [exact H|]. apply IH. exact H.
Qed.

Lemma CreateAccount_inv env userID currency w w' account :
  AccountService.CreateAccount env userID currency w = (w', Ok account) ->
  currency = "RUB"
  /\ account = Account.mk (next_uuid w) userID 0 currency (time_Now env)
                 (time_Now env)
  /\ find_account (accounts (db w)) (next_uuid w) = None
  /\ w' = mkWorld (set_accounts (db w) (accounts (db w) ++ [account]))
            (Pos.succ (next_uuid w)).
Proof.
  unfold AccountService.CreateAccount, AccountService.is_RUB. intros H.
  destruct (String.eqb currency "RUB") eqn:Hc; [|discriminate H].
  apply String.eqb_eq in Hc. cbn [negb] in H.
  unfold bind at 1 in H. unfold uuid_New at 1 in H.
  unfold bind at 1 in H. unfold wrap at 1 in H.
  unfold AccountRepository.Create in H.
  cbn [db next_uuid Account.Balance Account.ID] in H.
  replace (Qleb 0 0) with true in H by reflexivity. cbn [negb] in H.
  destruct (find_account (accounts (db w)) (next_uuid w)) eqn:Hf;
    [discriminate H|].
  unfold ret in H. injection H as <- <-. repeat split; assumption.
Qed.

Lemma CreateAccount_err_db env userID currency w w' e :
  AccountService.CreateAccount env userID currency w = (w', Err e) ->
  db w' = db w.
Proof.
  unfold AccountService.CreateAccount. intros H.
  destruct (negb (AccountService.is_RUB currency)).
  { injection H as <- _. reflexivity. }
  unfold bind at 1 in H. unfold uuid_New at 1 in H.
  unfold bind at 1 in H. unfold wrap at 1 in H.
  unfold AccountRepository.Create in H.
  cbn [db next_uuid Account.Balance Account.ID] in H.
  replace (Qleb 0 0) with true in H by reflexivity. cbn [negb] in H.
  destruct (find_account (accounts (db w)) (next_uuid w)) eqn:Hf.
  - injection H as <- _. reflexivity.
  - discriminate H.
Qed.

(** X6: an account that was opened can be read back.  When [CreateAccount]
    succeeds the currency is RUB, the account returned belongs to the
    requester and has balance 0, [GetByID] on its identifier returns that
    very account, the accounts listed for the requester are, in some
    order, the accounts listed before and the new account, and no account
    that existed is changed. *)
Theorem CreateAccount_round_trip env userID currency w w' account :
  AccountService.CreateAccount env userID currency w = (w', Ok account) ->
  currency = "RUB"
  /\ Account.UserID account = userID
  /\ Account.Balance account = 0
  /\ AccountRepository.GetByID (Account.ID account) w' = (w', Ok account)
  /\ (exists before after,
        AccountService.GetUserAccounts userID w = (w, Ok before)
        /\ AccountService.GetUserAccounts userID w' = (w', Ok after)
        /\ Permutation after (account :: before))
  /\ (forall id a, find_account (accounts (db w)) id = Some a ->
                   find_account (accounts (db w')) id = Some a)
  /\ transactions (db w') = transactions (db w).
Proof.
  intros H. apply CreateAccount_inv in H.
  destruct H as (Hc & Ha & Hf & ->).
  assert (Hid : Account.ID account = next_uuid w) by (rewrite Ha; reflexivity).
  assert (Hu : Account.UserID account = userID) by (rewrite Ha; reflexivity).
  split; [exact Hc|]. split; [exact Hu|].
  split; [rewrite Ha; reflexivity|].
  split.
  { unfold AccountRepository.GetByID. cbn [db accounts set_accounts].
    rewrite find_account_app_fresh by (rewrite Hid; exact Hf). reflexivity. }
  split.
  { eexists. eexists. split; [reflexivity|]. split.
    - unfold AccountService.GetUserAccounts, wrap,
        AccountRepository.GetUserAccounts.
      cbn [db accounts set_accounts]. rewrite filter_app. cbn [filter].
      rewrite Hu, Pos.eqb_refl. reflexivity.
    - apply Permutation_sym. apply Permutation_cons_append. }
  split; [|reflexivity].
  intros id a Hfa. cbn [db accounts set_accounts].
  apply find_account_app_old. exact Hfa.
Qed.

Lemma CreateAccount_round_trip_witness :
  let account := Account.mk 10 7 0 "RUB" 100 100 in
  let w' :=
    mkWorld (mkDB [example_account 1 7 100; example_account 2 8 50; account]
               [] [] []) 11 in
  AccountRepository.GetByID 10 w' = (w', Ok account)
  /\ exists after,
       AccountService.GetUserAccounts 7 w' = (w', Ok after)
       /\ Permutation after [account; example_account 1 7 100].
Proof.
  intros account w'.
  destruct (@CreateAccount_round_trip example_env 7%positive "RUB"
              example_world w' account)
    as (_ & _ & _ & H1 & (before & after & H2 & H3 & H4) & _).
  - vm_compute. reflexivity.
  - split; [exact H1|]. exists after. split; [exact H3|].
    vm_compute in H2. injection H2 as <-. exact H4.
Defined.

(** X7: an account is opened in RUB only, and a refusal writes nothing.
    With any other currency code [CreateAccount] fails before it draws an
    identifier; it fails for no other reason than the currency or an
    identifier that is already taken; and whenever it fails the committed
    rows are as before. *)
Theorem CreateAccount_refusal env userID currency w :
  (currency <> "RUB" ->
   AccountService.CreateAccount env userID currency w = (w, Err ErrCurrency))
  /\ (forall w' e,
        AccountService.CreateAccount env userID currency w = (w', Err e) ->
        db w' = db w
        /\ (currency <> "RUB"
            \/ exists a,
                 find_account (accounts (db w)) (next_uuid w) = Some a)).
Proof.
  split.
  - intros Hc. unfold AccountService.CreateAccount, AccountService.is_RUB.
    apply String.eqb_neq in Hc. rewrite Hc. reflexivity.
  - intros w' e H. split; [eapply CreateAccount_err_db; exact H|].
    unfold AccountService.CreateAccount, AccountService.is_RUB in H.
    destruct (String.eqb currency "RUB") eqn:Hc.
    + right. cbn [negb] in H.
      unfold bind at 1 in H. unfold uuid_New at 1 in H.
      unfold bind at 1 in H. unfold wrap at 1 in H.
      unfold AccountRepository.Create in H.
      cbn [db next_uuid Account.Balance Account.ID] in H.
      replace (Qleb 0 0) with true in H by reflexivity. cbn [negb] in H.
      destruct (find_account (accounts (db w)) (next_uuid w)) as [a|];
        [eauto | discriminate H].
    + left. apply String.eqb_neq. exact Hc.
Qed.

Lemma CreateAccount_refusal_witness :
  AccountService.CreateAccount example_env 7 "USD" example_world
  = (example_world, Err ErrCurrency).
Proof.
  apply (@CreateAccount_refusal example_env 7%positive "USD" example_world).
  discriminate.
Defined.

(* ================================================================== *)
(** * The account handler *)

Lemma with_request_cases B (body : option B) userID w k :
  (exists req userUUID,
     body = Some req /\ userID = User userUUID
     /\ AccountHandler.with_request body userID w k = k req userUUID)
  \/ (AccountHandler.with_request body userID w k
      = (w, CreditHandler.StatusBadRequest)
      /\ (body = None \/ userID = BadUser))
  \/ (AccountHandler.with_request body userID w k
      = (w, CreditHandler.StatusUnauthorized)
      /\ userID = NoUser).
Proof.
  destruct body as [req|]; [|right; left; split; [reflexivity|left; reflexivity]].
  destruct userID as [| |userUUID].
  - right. right. split; reflexivity.
  - right. left. split; [reflexivity|right; reflexivity].
  - left. exists req, userUUID. repeat split.
Qed.

(** X8: the status of a money-moving request tells whether anything was
    written.  The handlers of transfers, deposits and withdrawals answer
    200, 400 or 401 and nothing else; with any answer but 200 the committed
    rows are exactly as before the request; and 200 is only answered to a
    request with a decodable body and a user identifier. *)
Theorem account_handler_status env userID w w' status
  (bodyT : option TransferRequest.t) (bodyC : option ChangeRequest.t) :
  AccountHandler.Transfer env bodyT userID w = (w', status)
  \/ AccountHandler.Deposit env bodyC userID w = (w', status)
  \/ AccountHandler.Credit env bodyC userID w = (w', status) ->
  (status = CreditHandler.StatusOK
   \/ status = CreditHandler.StatusBadRequest
   \/ status = CreditHandler.StatusUnauthorized)
  /\ (status <> CreditHandler.StatusOK -> db w' = db w)
  /\ (status = CreditHandler.StatusOK ->
      exists userUUID, userID = User userUUID).
Proof.
  assert (Hbad : CreditHandler.StatusBadRequest <> CreditHandler.StatusOK)
    by discriminate.
  assert (Hun : CreditHandler.StatusUnauthorized <> CreditHandler.StatusOK)
    by discriminate.
  assert (Hend : forall (r : World * Result unit),
            (forall w1 e, r = (w1, Err e) -> db w1 = db w) ->
            forall userUUID, userID = User userUUID ->
            match r with
            | (w1, Err _) => (w1, CreditHandler.StatusBadRequest)
            | (w1, Ok _) => (w1, CreditHandler.StatusOK)
            end = (w', status) ->
            (status = CreditHandler.StatusOK
             \/ status = CreditHandler.StatusBadRequest
             \/ status = CreditHandler.StatusUnauthorized)
            /\ (status <> CreditHandler.StatusOK -> db w' = db w)
            /\ (status = CreditHandler.StatusOK ->
                exists userUUID, userID = User userUUID)).
  { intros [w1 [[]|e]] Herr userUUID Hu E; injection E as <- <-.
    - split; [left; reflexivity|]. split; [congruence|]. eauto.
    - split; [right; left; reflexivity|].
      split; [intros _; eapply Herr; reflexivity|]. eauto. }
  assert (Hearly : forall s, (w, s) = (w', status) ->
            s = CreditHandler.StatusBadRequest
            \/ s = CreditHandler.StatusUnauthorized ->
            (status = CreditHandler.StatusOK
             \/ status = CreditHandler.StatusBadRequest
             \/ status = CreditHandler.StatusUnauthorized)
            /\ (status <> CreditHandler.StatusOK -> db w' = db w)
            /\ (status = CreditHandler.StatusOK ->
                exists userUUID, userID = User userUUID)).
  { intros s E Hs. injection E as <- <-.
    split; [tauto|]. split; [reflexivity|].
    intros ->. destruct Hs; congruence. }
  intros [H|[H|H]].
  - unfold AccountHandler.Transfer in H.
    destruct (with_request_cases bodyT userID w
                (fun req userUUID =>
                   match AccountService.Transfer env
                           (TransferRequest.FromAccountID req)
                           (TransferRequest.ToAccountID req)
                           (TransferRequest.Amount req) userUUID w with
                   | (w', Err _) => (w', CreditHandler.StatusBadRequest)
                   | (w', Ok _) => (w', CreditHandler.StatusOK)
                   end))
      as [(req & userUUID & _ & Hu & E)|[[E _]|[E _]]];
      rewrite E in H.
    + eapply Hend; [|exact Hu|exact H].
      intros w1 e. apply Transfer_err_db.
    + eapply Hearly; [exact H|tauto].
    + eapply Hearly; [exact H|tauto].
  - unfold AccountHandler.Deposit in H.
    destruct (with_request_cases bodyC userID w
                (fun req userUUID =>
                   match AccountService.Deposit env
                           (ChangeRequest.AccountID req)
                           (ChangeRequest.Amount req) userUUID w with
                   | (w', Err _) => (w', CreditHandler.StatusBadRequest)
                   | (w', Ok _) => (w', CreditHandler.StatusOK)
                   end))
      as [(req & userUUID & _ & Hu & E)|[[E _]|[E _]]];
      rewrite E in H.
    + eapply Hend; [|exact Hu|exact H].
      intros w1 e. apply Deposit_err_db.
    + eapply Hearly; [exact H|tauto].
    + eapply Hearly; [exact H|tauto].
  - unfold AccountHandler.Credit in H.
    destruct (with_request_cases bodyC userID w
                (fun req userUUID =>
                   match AccountService.Withdraw env
                           (ChangeRequest.AccountID req)
                           (ChangeRequest.Amount req) userUUID w with
                   | (w', Err _) => (w', CreditHandler.StatusBadRequest)
                   | (w', Ok _) => (w', CreditHandler.StatusOK)
                   end))
      as [(req & userUUID & _ & Hu & E)|[[E _]|[E _]]];
      rewrite E in H.
    + eapply Hend; [|exact Hu|exact H].
      intros w1 e. apply Withdraw_err_db.
    + eapply Hearly; [exact H|tauto].
    + eapply Hearly; [exact H|tauto].
Qed.

Lemma account_handler_status_witness :
  db (fst (AccountHandler.Credit example_env
             (Some (ChangeRequest.mk 1 130)) (User 7)
             example_world))
  = db example_world.
Proof.
  destruct (@account_handler_status example_env (User 7)
              example_world
              (fst (AccountHandler.Credit example_env
                      (Some (ChangeRequest.mk 1 130)) (User 7)
                      example_world))
              CreditHandler.StatusBadRequest
              None (Some (ChangeRequest.mk 1 130)))
    as (_ & H & _).
  - right. right. reflexivity.
  - apply H. discriminate.
Defined.

(* ================================================================== *)
(** * ORDER BY sorts *)

Lemma insert_by_sorted A (key : A -> Z) x l :
  StronglySorted (fun a b => (key a <= key b)%Z) l ->
  StronglySorted (fun a b => (key a <= key b)%Z) (insert_by key x l).
Proof.
  induction l as [|y l IH]; intros Hs; simpl.
  - constructor; constructor.
  - destruct (Z.leb (key x) (key y)) eqn:E.
    + apply Z.leb_le in E. constructor; [exact Hs|].
      constructor; [exact E|]. inversion Hs as [|? ? _ Hall]; subst.
      eapply Forall_impl; [|exact Hall]. intros a Ha. simpl in Ha. lia.
    + apply Z.leb_gt in E. inversion Hs as [|? ? Hs' Hall]; subst.
      constructor; [apply IH; exact Hs'|].
      apply Forall_forall. intros a Ha.
      apply (Permutation_in _ (insert_by_perm key x l)) in Ha.
      destruct Ha as [<-|Ha]; [lia|].
      rewrite Forall_forall in Hall. apply Hall. exact Ha.
Qed.

Lemma order_by_sorted A (key : A -> Z) l :
  StronglySorted (fun a b => (key a <= key b)%Z) (order_by key l).
Proof.
  unfold order_by. induction l as [|x l IH]; simpl.
  - constructor.
  - apply insert_by_sorted. exact IH.
Qed.

Lemma find_sorted_least A (key : A -> Z) (f : A -> bool) l p :
  StronglySorted (fun a b => (key a <= key b)%Z) l ->
  find f l = Some p ->
  forall q, In q l -> f q = true -> (key p <= key q)%Z.
Proof.
  induction l as [|a l IH]; simpl; intros Hs Hf q Hq Hfq; [discriminate|].
  inversion Hs as [|? ? Hs' Hall]; subst.
  destruct (f a) eqn:E.
  - injection Hf as <-. destruct Hq as [<-|Hq]; [lia|].
    rewrite Forall_forall in Hall. apply Hall. exact Hq.
  - destruct Hq as [<-|Hq]; [congruence|]. eapply IH; eauto.
Qed.

(* ================================================================== *)
(** * Reading a schedule *)

Lemma find_credit_ID l id c : find_credit l id = Some c -> Credit.ID c = id.
Proof.
  unfold find_credit. intros H. apply find_some in H.
  destruct H as [_ H]. apply Pos.eqb_eq in H. exact H.
Qed.

Lemma find_credit_In l id c : find_credit l id = Some c -> In c l.
Proof. unfold find_credit. intros H. apply find_some in H. tauto. Qed.

Lemma GetPaymentSchedule_rows creditID w p :
  In p (order_by PaymentSchedule.PaymentNumber
          (filter (fun p => Pos.eqb (PaymentSchedule.CreditID p) creditID)
             (payment_schedules (db w))))
  <-> In p (payment_schedules (db w)) /\ PaymentSchedule.CreditID p = creditID.
Proof.
  rewrite order_by_In, filter_In, Pos.eqb_eq. reflexivity.
Qed.

(** X9: the schedule of a credit is shown to its owner only, complete and
    in order.  When [GetPaymentSchedule] of the service returns rows, the
    credit exists and belongs to the requester, the rows are exactly the
    stored installments of that credit, they come in the order of their
    payment numbers, and nothing was written; for a requester who is not
    the owner the call fails with the ownership error. *)
Theorem GetPaymentSchedule_owner_only creditID userID w :
  (forall w' rows,
     CreditService.GetPaymentSchedule creditID userID w = (w', Ok rows) ->
     w' = w
     /\ (exists credit,
           find_credit (credits (db w)) creditID = Some credit
           /\ Credit.UserID credit = userID)
     /\ (forall p, In p rows <->
                   In p (payment_schedules (db w))
                   /\ PaymentSchedule.CreditID p = creditID)
     /\ by_payment_number rows)
  /\ (forall credit,
        find_credit (credits (db w)) creditID = Some credit ->
        Credit.UserID credit <> userID ->
        CreditService.GetPaymentSchedule creditID userID w
        = (w, Err ErrNotOwner)).
Proof.
  unfold CreditService.GetPaymentSchedule. split.
  - intros w' rows H.
    unfold bind at 1 in H. unfold wrap at 1 in H.
    unfold CreditRepository.GetCreditByID in H.
    destruct (find_credit (credits (db w)) creditID) as [credit|] eqn:Hc;
      [|discriminate H].
    destruct (Pos.eqb (Credit.UserID credit) userID) eqn:Hu;
      [|discriminate H].
    cbn [negb] in H. unfold wrap, CreditRepository.GetPaymentSchedule in H.
    injection H as <- <-. apply Pos.eqb_eq in Hu.
    split; [reflexivity|]. split; [eauto|].
    split; [intros p; apply GetPaymentSchedule_rows|].
    apply order_by_sorted.
  - intros credit Hc Hu.
    unfold bind at 1. unfold wrap at 1.
    unfold CreditRepository.GetCreditByID. rewrite Hc.
    apply Pos.eqb_neq in Hu. rewrite Hu. reflexivity.
Qed.

Lemma GetPaymentSchedule_owner_only_witness :
  CreditService.GetPaymentSchedule 20 8 (example_settle_world 100 "pending")
  = (example_settle_world 100 "pending", Err ErrNotOwner).
Proof.
  apply (@GetPaymentSchedule_owner_only 20%positive 8%positive
           (example_settle_world 100 "pending")) with (credit := example_credit).
  - reflexivity.
  - discriminate.
Defined.

(** X10: "pay now" is offered the earliest unpaid installment.  When
    [GetNextPayment] returns an installment, it is a stored pending
    installment of the credit and no pending installment of that credit has
    a smaller payment number; when it fails, the credit has no pending
    installment at all.  Either way nothing is written. *)
Theorem GetNextPayment_earliest_pending creditID w :
  (forall w' p,
     CreditService.GetNextPayment creditID w = (w', Ok p) ->
     w' = w
     /\ In p (payment_schedules (db w))
     /\ PaymentSchedule.CreditID p = creditID
     /\ PaymentSchedule.Status p = "pending"
     /\ (forall q, In q (payment_schedules (db w)) ->
                   PaymentSchedule.CreditID q = creditID ->
                   PaymentSchedule.Status q = "pending" ->
                   (PaymentSchedule.PaymentNumber p
                    <= PaymentSchedule.PaymentNumber q)%Z))
  /\ (forall w' e,
        CreditService.GetNextPayment creditID w = (w', Err e) ->
        w' = w
        /\ e = ErrNoPendingPayments
        /\ (forall q, In q (payment_schedules (db w)) ->
                      PaymentSchedule.CreditID q = creditID ->
                      PaymentSchedule.Status q <> "pending")).
Proof.
  unfold CreditService.GetNextPayment.
  unfold bind, wrap, CreditRepository.GetPaymentSchedule.
  set (rows := order_by PaymentSchedule.PaymentNumber
                 (filter (fun p => Pos.eqb (PaymentSchedule.CreditID p) creditID)
                    (payment_schedules (db w)))).
  destruct (find (fun p => String.eqb (PaymentSchedule.Status p) "pending") rows)
    as [p0|] eqn:Hf.
  - split; [|intros w' e H; discriminate H].
    intros w' p H. injection H as <- <-.
    pose proof (find_some _ _ Hf) as [Hin Hst].
    apply GetPaymentSchedule_rows in Hin. destruct Hin as [Hin Hc].
    apply String.eqb_eq in Hst.
    repeat split; try assumption.
    intros q Hq Hqc Hqs.
    apply (@find_sorted_least _ PaymentSchedule.PaymentNumber
             (fun p => String.eqb (PaymentSchedule.Status p) "pending") rows p0).
    + apply order_by_sorted.
    + exact Hf.
    + apply GetPaymentSchedule_rows. split; assumption.
    + apply String.eqb_eq. exact Hqs.
  - split; [intros w' p H; discriminate H|].
    intros w' e H. injection H as <- <-.
    repeat split.
    intros q Hq Hqc Hqs.
    assert (Hin : In q rows)
      by (apply GetPaymentSchedule_rows; split; assumption).
    pose proof (find_none _ _ Hf q Hin) as Hno. simpl in Hno.
    apply String.eqb_eq in Hqs. congruence.
Qed.

Lemma GetNextPayment_earliest_pending_witness :
  CreditService.GetNextPayment 20 (example_settle_world 100 "pending")
  = (example_settle_world 100 "pending", Ok (example_installment "pending"))
  /\ (1 <= PaymentSchedule.PaymentNumber (example_installment "pending"))%Z.
Proof.
  split; [reflexivity|].
  destruct (@GetNextPayment_earliest_pending 20%positive
              (example_settle_world 100 "pending")) as [H _].
  destruct (H (example_settle_world 100 "pending")
              (example_installment "pending") eq_refl)
    as (_ & _ & _ & _ & Hleast).
  apply (Hleast (example_installment "pending")).
  - left. reflexivity.
  - reflexivity.
  - reflexivity.
Defined.

(* ================================================================== *)
(** * What a credit looks like when it is issued *)

Lemma schedule_rows_nth env credit rate n :
  forall i remaining id k p,
    nth_error (schedule_rows env credit rate n i remaining id) k = Some p ->
    PaymentSchedule.PaymentNumber p = (i + Z.of_nat k)%Z
    /\ PaymentSchedule.PaymentDate p
       = time_AddDate env (Credit.StartDate credit) 0 (i + Z.of_nat k) 0
    /\ PaymentSchedule.Status p = "pending"
    /\ PaymentSchedule.PaidAt p = None
    /\ PaymentSchedule.CreditID p = Credit.ID credit
    /\ PaymentSchedule.Amount p = Credit.MonthlyPayment credit.
Proof.
  induction n as [|n IH]; intros i remaining id k p H.
  - destruct k; discriminate H.
  - destruct k as [|k].
    + cbn [schedule_rows nth_error] in H. injection H as <-.
      cbn [Z.of_nat]. rewrite Z.add_0_r. repeat split.
    + cbn [schedule_rows nth_error] in H. apply IH in H.
      replace (i + Z.of_nat (S k))%Z with (i + 1 + Z.of_nat k)%Z by lia.
      exact H.
Qed.

Lemma find_credit_app_fresh l c :
  find_credit l (Credit.ID c) = None ->
  find_credit (l ++ [c]) (Credit.ID c) = Some c.
Proof.
  unfold find_credit. intros H. induction l as [|x l IH]; simpl in *.
  - rewrite Pos.eqb_refl. reflexivity.
  - destruct (Pos.eqb (Credit.ID x) (Credit.ID c)); [discriminate|].
    apply IH. exact H.
Qed.

(** X11: what the owner of an account gets when a credit is issued, for a
    request the columns take without refusing or changing what the
    statement is about: a positive amount that, like the balance it
    raises, is kept as it is by [DECIMAL(15,2)]; a term of 1 to 60
    months; a positive rate accepted by [DECIMAL(5,2)]; a monthly payment
    and installments accepted by their columns.  In a well-formed store
    the credit returned is active, belongs to the requester and starts
    now; the row read back by its identifier carries the same identifier,
    owner, account, amount, term and status, and is listed among the
    credits of the requester; the schedule, read back through the
    service, has one row per month of the term, and row number k (counted
    from 1) carries payment number k, is due k months after the start
    date, is pending and unpaid, and belongs to the credit. *)
Theorem issued_credit_and_schedule env req userID account w :
  let credit := issued_credit env req userID (next_uuid w) in
  store_wf w ->
  find_account (accounts (db w)) (CreateCreditRequest.AccountID req)
  = Some account ->
  Account.UserID account = userID ->
  0 <= Account.Balance account ->
  0 < CreateCreditRequest.Amount req ->
  held_15_2 (CreateCreditRequest.Amount req) ->
  held_15_2 (Account.Balance account + CreateCreditRequest.Amount req) ->
  (1 <= CreateCreditRequest.TermMonths req <= 60)%Z ->
  0 < Credit.InterestRate credit ->
  fits_5_2 (Credit.InterestRate credit) ->
  fits_15_2 (Credit.MonthlyPayment credit) ->
  Forall schedule_fits (issued_schedule env credit (Pos.succ (next_uuid w))) ->
  exists w' stored rows,
    CreditService.CreateCredit env req userID w = (w', Ok credit)
    /\ Credit.Status credit = "active"
    /\ Credit.UserID credit = userID
    /\ Credit.StartDate credit = time_Now env
    /\ CreditService.GetCreditByID (Credit.ID credit) w' = (w', Ok stored)
    /\ Credit.ID stored = Credit.ID credit
    /\ Credit.UserID stored = userID
    /\ Credit.AccountID stored = CreateCreditRequest.AccountID req
    /\ Credit.Amount stored == CreateCreditRequest.Amount req
    /\ Credit.TermMonths stored = CreateCreditRequest.TermMonths req
    /\ Credit.Status stored = "active"
    /\ (exists mine,
          CreditService.GetUserCredits userID w' = (w', Ok mine)
          /\ In stored mine)
    /\ CreditService.GetPaymentSchedule (Credit.ID credit) userID w'
       = (w', Ok rows)
    /\ List.length rows = Z.to_nat (CreateCreditRequest.TermMonths req)
    /\ (forall k p,
          nth_error rows k = Some p ->
          PaymentSchedule.PaymentNumber p = (1 + Z.of_nat k)%Z
          /\ PaymentSchedule.PaymentDate p
             = time_AddDate env (time_Now env) 0 (1 + Z.of_nat k) 0
          /\ PaymentSchedule.Status p = "pending"
          /\ PaymentSchedule.PaidAt p = None
          /\ PaymentSchedule.CreditID p = Credit.ID credit).
Proof.
  intros credit Hwf Ha Hu Hnn Hpos _ _ _ _ _ _ _.
  destruct (@CreateCredit_schedule_read_back env req userID account w
              Hwf Ha Hu Hnn Hpos) as (w' & Hrun & Hread).
  destruct (@CreateCredit_run env req userID account w Hwf Ha Hu Hnn Hpos)
    as (id' & _ & Hrun').
  cbv zeta in Hrun'. rewrite Hrun in Hrun'. injection Hrun' as Hw'.
  fold credit in Hrun, Hread, Hw'.
  assert (Hfind : find_credit (credits (db w')) (Credit.ID credit) = Some credit).
  { rewrite Hw'. cbn [db credits]. apply find_credit_app_fresh.
    apply find_credit_fresh. destruct Hwf as (_ & Hcr & _). exact Hcr. }
  exists w', credit,
    (issued_schedule env credit (Pos.succ (next_uuid w))).
  split; [exact Hrun|]. split; [reflexivity|]. split; [reflexivity|].
  split; [reflexivity|].
  split.
  { unfold CreditService.GetCreditByID, wrap, CreditRepository.GetCreditByID.
    rewrite Hfind. reflexivity. }
  split; [reflexivity|]. split; [reflexivity|]. split; [reflexivity|].
  split; [reflexivity|]. split; [reflexivity|]. split; [reflexivity|].
  split.
  { eexists. split; [reflexivity|].
    apply filter_In. split; [eapply find_credit_In; exact Hfind|].
    apply Pos.eqb_refl. }
  split.
  { unfold CreditService.GetPaymentSchedule.
    unfold bind at 1. unfold wrap at 1. unfold CreditRepository.GetCreditByID.
    rewrite Hfind. replace (Credit.UserID credit) with userID by reflexivity.
    rewrite Pos.eqb_refl. cbn [negb]. unfold wrap.
    change (Credit.ID credit) with (next_uuid w). rewrite Hread. reflexivity. }
  split; [apply schedule_rows_length|].
  intros k p Hk. unfold issued_schedule in Hk.
  apply schedule_rows_nth in Hk.
  destruct Hk as (K1 & K2 & K3 & K4 & K5 & _).
  split; [exact K1|]. split; [exact K2|]. split; [exact K3|].
  split; [exact K4 | exact K5].
Qed.

Lemma issued_credit_and_schedule_witness :
  exists w' credit rows,
    CreditService.CreateCredit example_env
      (CreateCreditRequest.mk 1 1200 3) 7 example_world = (w', Ok credit)
    /\ CreditService.GetPaymentSchedule (Credit.ID credit) 7 w' = (w', Ok rows)
    /\ List.length rows = 3%nat.
Proof.
  destruct (@issued_credit_and_schedule example_env
              (CreateCreditRequest.mk 1 1200 3) 7%positive
              (example_account 1 7 100) example_world)
    as (w' & stored & rows & H1 & _ & _ & _ & _ & _ & _ & _ & _ & _ & _ & _
        & H2 & H3 & _).
  - repeat split; repeat constructor; cbn; intuition discriminate.
  - reflexivity.
  - reflexivity.
  - vm_compute. discriminate.
  - vm_compute. reflexivity.
  - vm_compute. reflexivity.
  - vm_compute. reflexivity.
  - cbn. lia.
  - vm_compute. reflexivity.
  - vm_compute. discriminate.
  - vm_compute. discriminate.
  - repeat constructor; vm_compute; discriminate.
  - eexists. eexists. exists rows. split; [exact H1|]. split; assumption.
Defined.

(** X12: no credit is issued on an account of somebody else.  When the
    account of the request does not exist or does not belong to the
    requester, [CreateCredit] fails and the whole state is as before, and
    the handler answers 400. *)
Theorem CreateCredit_foreign_account_refused env req userID w :
  (forall a,
     find_account (accounts (db w)) (CreateCreditRequest.AccountID req) = Some a ->
     Account.UserID a <> userID) ->
  (exists e, CreditService.CreateCredit env req userID w = (w, Err e))
  /\ CreditHandler.CreateCredit env (Some req) (User userID) w
     = (w, CreditHandler.StatusBadRequest).
Proof.
  intros Hown.
  assert (H : exists e, CreditService.CreateCredit env req userID w = (w, Err e)).
  { unfold CreditService.CreateCredit.
    unfold bind at 1. unfold wrap at 1. unfold AccountRepository.GetByID.
    destruct (find_account (accounts (db w)) (CreateCreditRequest.AccountID req))
      as [a|] eqn:E.
    - specialize (Hown a eq_refl). apply Pos.eqb_neq in Hown. rewrite Hown.
      eexists. reflexivity.
    - eexists. reflexivity. }
  split; [exact H|]. destruct H as [e H].
  unfold CreditHandler.CreateCredit. rewrite H. reflexivity.
Qed.

Lemma CreateCredit_foreign_account_refused_witness :
  CreditHandler.CreateCredit example_env
    (Some (CreateCreditRequest.mk 2 1200 12)) (User 7) example_world
  = (example_world, CreditHandler.StatusBadRequest).
Proof.
  apply (@CreateCredit_foreign_account_refused example_env
           (CreateCreditRequest.mk 2 1200 12) 7%positive example_world).
  intros a Ha. vm_compute in Ha. injection Ha as <-. discriminate.
Defined.

(* ================================================================== *)
(** * What a settlement run leaves behind *)

Lemma set_payment_status_CreditID id status paidAt now p :
  PaymentSchedule.CreditID
    (CreditRepository.set_payment_status id status paidAt now p)
  = PaymentSchedule.CreditID p.
Proof.
  unfold CreditRepository.set_payment_status.
  destruct (Pos.eqb _ _); reflexivity.
Qed.

Lemma set_payment_status_ID id status paidAt now p :
  PaymentSchedule.ID
    (CreditRepository.set_payment_status id status paidAt now p)
  = PaymentSchedule.ID p.
Proof.
  unfold CreditRepository.set_payment_status.
  destruct (Pos.eqb _ _); reflexivity.
Qed.

Lemma orphan_CreditID d p q :
  PaymentSchedule.CreditID p = PaymentSchedule.CreditID q ->
  orphan d p -> orphan d q.
Proof. unfold orphan. intros ->. exact (fun H => H). Qed.

Lemma processPayment_no_orphans env p w :
  NoDup (account_keys (db w)) ->
  no_orphans (db w) ->
  NoDup (account_keys (db (fst (CreditService.processPayment env p w))))
  /\ no_orphans (db (fst (CreditService.processPayment env p w))).
Proof.
  intros Hpk Hno.
  destruct (CreditService.processPayment env p w) as [w' r] eqn:Hrun.
  cbn [fst].
  destruct (@processPayment_effect env p w w' r Hpk Hrun)
    as [[-> _] | (status & paidAt & _ & Hsched & Hak & Hck)].
  - split; assumption.
  - split; [rewrite Hak; exact Hpk|].
    intros q Hq Ho. rewrite Hsched in Hq. unfold schedules_marked in Hq.
    apply in_map_iff in Hq. destruct Hq as (q1 & <- & Hq1).
    apply (Hno q1 Hq1).
    apply (@orphan_keys (db w') (db w)) in Ho; [|exact Hak | exact Hck].
    eapply orphan_CreditID; [|exact Ho].
    apply set_payment_status_CreditID.
Qed.

Lemma ProcessPayments_loop_no_orphans env l :
  forall w,
    NoDup (account_keys (db w)) ->
    no_orphans (db w) ->
    no_orphans (db (fst (CreditService.ProcessPayments_loop env l w))).
Proof.
  induction l as [|p l IH]; intros w Hpk Hno; [exact Hno|].
  cbn [CreditService.ProcessPayments_loop].
  destruct (@processPayment_no_orphans env p w Hpk Hno) as [Hpk' Hno'].
  apply IH; assumption.
Qed.

(** X13: a settlement run leaves no installment pending past its due
    date.  In a store with unique account identifiers where every
    installment has its credit and every such credit its account (the
    foreign keys), after [ProcessPayments] the query of the due pending
    installments returns nothing: every installment still pending is due
    strictly after the time of the run. *)
Theorem settlement_run_leaves_nothing_due env w :
  NoDup (account_keys (db w)) ->
  no_orphans (db w) ->
  CreditRepository.GetPendingPayments (time_Now env)
    (fst (CreditService.ProcessPayments env w))
  = (fst (CreditService.ProcessPayments env w), Ok [])
  /\ (forall q,
        In q (payment_schedules (db (fst (CreditService.ProcessPayments env w)))) ->
        PaymentSchedule.Status q = "pending" ->
        (time_Now env < PaymentSchedule.PaymentDate q)%Z).
Proof.
  intros Hpk Hno. rewrite ProcessPayments_unfold.
  set (w' := fst (CreditService.ProcessPayments_loop env (due_payments env w) w)).
  assert (Hnone : forall q, In q (payment_schedules (db w')) ->
                            CreditRepository.is_due (time_Now env) q = false).
  { intros q Hq.
    destruct (CreditRepository.is_due (time_Now env) q) eqn:Hdue; [|reflexivity].
    exfalso.
    apply (@ProcessPayments_loop_no_orphans env (due_payments env w) w Hpk Hno
             q Hq).
    apply (@ProcessPayments_loop_settles env (due_payments env w) w Hpk);
      [|exact Hq | exact Hdue].
    intros q0 Hq0 Hdue0. left. unfold due_payments.
    apply order_by_In. apply filter_In. split; assumption. }
  split.
  - unfold CreditRepository.GetPendingPayments.
    rewrite (filter_none _ _ Hnone). reflexivity.
  - intros q Hq Hst. specialize (Hnone q Hq).
    unfold CreditRepository.is_due in Hnone.
    apply String.eqb_eq in Hst. rewrite Hst in Hnone. cbn [andb] in Hnone.
    apply Z.leb_gt in Hnone. exact Hnone.
Qed.

Lemma settlement_run_leaves_nothing_due_witness :
  CreditRepository.GetPendingPayments (time_Now example_env)
    (fst (CreditService.ProcessPayments example_env
            (example_settle_world 10 "pending")))
  = (fst (CreditService.ProcessPayments example_env
            (example_settle_world 10 "pending")), Ok []).
Proof.
  apply (@settlement_run_leaves_nothing_due example_env
           (example_settle_world 10 "pending")).
  - repeat constructor. cbn. intuition.
  - intros p [<-|[]]. vm_compute. discriminate.
Defined.

(* ================================================================== *)
(** * Closing a credit *)

Lemma allPaid_spec rows id :
  CreditService.allPaid rows id = true
  <-> (forall q, In q rows ->
                 PaymentSchedule.Status q = "paid" \/ PaymentSchedule.ID q = id).
Proof.
  unfold CreditService.allPaid. rewrite forallb_forall.
  split; intros H q Hq; specialize (H q Hq).
  - destruct (String.eqb (PaymentSchedule.Status q) "paid") eqn:E1.
    + left. apply String.eqb_eq. exact E1.
    + destruct (Pos.eqb (PaymentSchedule.ID q) id) eqn:E2.
      * right. apply Pos.eqb_eq. exact E2.
      * discriminate H.
  - destruct H as [H|H].
    + apply String.eqb_eq in H. rewrite H. reflexivity.
    + apply Pos.eqb_eq in H. rewrite H.
      destruct (String.eqb _ _); reflexivity.
Qed.

Lemma set_credit_status_ID id status now c :
  Credit.ID (CreditRepository.set_credit_status id status now c) = Credit.ID c.
Proof.
  unfold CreditRepository.set_credit_status.
  destruct (Pos.eqb _ _); reflexivity.
Qed.

Lemma find_credit_marked l id status now c :
  find_credit l id = Some c ->
  find_credit (map (CreditRepository.set_credit_status id status now) l) id
  = Some (CreditRepository.set_credit_status id status now c).
Proof.
  unfold find_credit. induction l as [|x l IH]; simpl; [discriminate|].
  rewrite set_credit_status_ID.
  destruct (Pos.eqb (Credit.ID x) id) eqn:E; intros H.
  - injection H as <-. reflexivity.
  - apply IH. exact H.
Qed.

Lemma find_credit_marked_other l id id' status now :
  id' <> id ->
  find_credit (map (CreditRepository.set_credit_status id status now) l) id'
  = find_credit l id'.
Proof.
  intros Hne. unfold find_credit. induction l as [|x l IH]; simpl; [reflexivity|].
  rewrite set_credit_status_ID.
  destruct (Pos.eqb (Credit.ID x) id') eqn:E'; [|exact IH].
  unfold CreditRepository.set_credit_status.
  destruct (Pos.eqb (Credit.ID x) id) eqn:E; [|reflexivity].
  apply Pos.eqb_eq in E, E'. congruence.
Qed.

Lemma marked_rows_of_credit env payment creditID d q :
  In q (order_by PaymentSchedule.PaymentNumber
          (filter (fun p => Pos.eqb (PaymentSchedule.CreditID p) creditID)
             (schedules_marked env payment "paid" (Some (time_Now env)) d)))
  <-> exists q1,
        In q1 (payment_schedules d)
        /\ PaymentSchedule.CreditID q1 = creditID
        /\ q = CreditRepository.set_payment_status (PaymentSchedule.ID payment)
                 "paid" (Some (time_Now env)) (time_Now env) q1.
Proof.
  rewrite order_by_In, filter_In, Pos.eqb_eq. unfold schedules_marked.
  rewrite in_map_iff. split.
  - intros [(q1 & <- & Hq1) Hc]. exists q1.
    rewrite set_payment_status_CreditID in Hc. repeat split; assumption.
  - intros (q1 & Hq1 & Hc & ->). split; [exists q1; split; [reflexivity|exact Hq1]|].
    rewrite set_payment_status_CreditID. exact Hc.
Qed.

(** X14: a credit is closed by the settlement of its last open
    installment, and only then.  In a store with unique account
    identifiers, when the balance covers the positive amount of an
    installment, its settlement succeeds; if every other installment of
    the credit is already paid the credit is read back with status paid,
    its other fields and all other credits unchanged; if some other
    installment of the credit is not paid, the credits table is exactly as
    before. *)
Theorem credit_closed_with_last_installment env payment credit account w :
  find_credit (credits (db w)) (PaymentSchedule.CreditID payment) = Some credit ->
  find_account (accounts (db w)) (Credit.AccountID credit) = Some account ->
  NoDup (map Account.ID (accounts (db w))) ->
  has_transaction (transactions (db w)) (next_uuid w) = false ->
  0 < PaymentSchedule.Amount payment ->
  PaymentSchedule.Amount payment <= Account.Balance account ->
  exists w',
    CreditService.processPayment env payment w = (w', Ok tt)
    /\ ((forall q, In q (payment_schedules (db w)) ->
                   PaymentSchedule.CreditID q = Credit.ID credit ->
                   PaymentSchedule.ID q <> PaymentSchedule.ID payment ->
                   PaymentSchedule.Status q = "paid") ->
        (exists credit',
           find_credit (credits (db w')) (Credit.ID credit) = Some credit'
           /\ Credit.Status credit' = "paid"
           /\ Credit.Amount credit' = Credit.Amount credit
           /\ Credit.AccountID credit' = Credit.AccountID credit
           /\ Credit.UserID credit' = Credit.UserID credit)
        /\ (forall id, id <> Credit.ID credit ->
                       find_credit (credits (db w')) id
                       = find_credit (credits (db w)) id))
    /\ (forall q, In q (payment_schedules (db w)) ->
                  PaymentSchedule.CreditID q = Credit.ID credit ->
                  PaymentSchedule.ID q <> PaymentSchedule.ID payment ->
                  PaymentSchedule.Status q <> "paid" ->
                  credits (db w') = credits (db w)).
Proof.
  intros Hc Ha Hnd Hfresh Hpos Hle.
  rewrite (@processPayment_paid_run env payment credit account w
             Hc Ha Hnd Hfresh Hpos Hle).
  eexists. split; [reflexivity|]. cbn [db credits].
  pose proof (find_credit_ID _ _ Hc) as Hid.
  unfold credits_after_payment.
  destruct (CreditService.allPaid _ _) eqn:Hall.
  - split.
    + intros _. split.
      * exists (CreditRepository.set_credit_status (Credit.ID credit) "paid"
                  (time_Now env) credit).
        split; [apply find_credit_marked; rewrite Hid; exact Hc|].
        unfold CreditRepository.set_credit_status. rewrite Pos.eqb_refl.
        repeat split.
      * intros id Hne. apply find_credit_marked_other. exact Hne.
    + intros q Hq Hqc Hne Hst. exfalso.
      rewrite allPaid_spec in Hall.
      destruct (Hall q) as [H|H]; [|contradiction | contradiction].
      apply marked_rows_of_credit. exists q. repeat split; try assumption.
      unfold CreditRepository.set_payment_status.
      apply Pos.eqb_neq in Hne. rewrite Hne. reflexivity.
  - split.
    + intros Hothers. exfalso.
      assert (Htrue : CreditService.allPaid
                (order_by PaymentSchedule.PaymentNumber
                   (filter
                      (fun p => Pos.eqb (PaymentSchedule.CreditID p)
                                  (Credit.ID credit))
                      (schedules_marked env payment "paid"
                         (Some (time_Now env)) (db w))))
                (PaymentSchedule.ID payment) = true).
      { apply allPaid_spec. intros q Hq.
        apply marked_rows_of_credit in Hq. destruct Hq as (q1 & Hq1 & Hqc & ->).
        destruct (Pos.eq_dec (PaymentSchedule.ID q1) (PaymentSchedule.ID payment))
          as [E|E].
        - right. rewrite set_payment_status_ID. exact E.
        - left. unfold CreditRepository.set_payment_status.
          pose proof E as E'. apply Pos.eqb_neq in E'. rewrite E'.
          apply Hothers; assumption. }
      congruence.
    + intros. reflexivity.
Qed.

Lemma credit_closed_with_last_installment_witness :
  exists w' credit',
    CreditService.processPayment example_env (example_installment "pending")
      (example_settle_world 100 "pending") = (w', Ok tt)
    /\ find_credit (credits (db w')) 20 = Some credit'
    /\ Credit.Status credit' = "paid".
Proof.
  destruct (@credit_closed_with_last_installment example_env
              (example_installment "pending") example_credit
              (example_account 1 7 100) (example_settle_world 100 "pending"))
    as (w' & Hrun & Hlast & _).
  - reflexivity.
  - reflexivity.
  - repeat constructor. cbn. intuition.
  - reflexivity.
  - vm_compute. reflexivity.
  - vm_compute. discriminate.
  - destruct Hlast as [(credit' & H1 & H2 & _) _].
    + intros q [<-|[]] _ Hne. contradiction Hne. reflexivity.
    + exists w', credit'. repeat split; assumption.
Defined.

(* ================================================================== *)
(** * The entries of a period *)

Lemma StronglySorted_weaken A (R R' : A -> A -> Prop) l :
  (forall a b, R a b -> R' a b) -> StronglySorted R l -> StronglySorted R' l.
Proof.
  intros HR Hs. induction Hs as [|a l Hs IH Hall]; constructor.
  - exact IH.
  - eapply Forall_impl; [|exact Hall]. intros b. apply HR.
Qed.

Lemma in_period_spec accountID startDate endDate t :
  TransactionRepository.in_period accountID startDate endDate t = true
  <-> Transaction.AccountID t = accountID
      /\ (startDate <= Transaction.CreatedAt t < endDate)%Z.
Proof.
  unfold TransactionRepository.in_period.
  rewrite !andb_true_iff, Pos.eqb_eq, Z.leb_le, Z.ltb_lt. tauto.
Qed.

(** X15: the statement of an account for a period.  [GetByAccountAndPeriod]
    returns exactly the stored entries of the account created from the
    start date up to, but not including, 24 hours after the end date, the
    newest first, and writes nothing. *)
Theorem GetByAccountAndPeriod_newest_first accountID startDate endDate w :
  exists rows,
    TransactionRepository.GetByAccountAndPeriod accountID startDate endDate w
    = (w, Ok rows)
    /\ (forall t,
          In t rows <->
          In t (transactions (db w))
          /\ Transaction.AccountID t = accountID
          /\ (startDate <= Transaction.CreatedAt t
              < endDate + 24 * TransactionRepository.time_Hour)%Z)
    /\ Permutation rows
         (filter (TransactionRepository.in_period accountID startDate
                    (endDate + 24 * TransactionRepository.time_Hour))
            (transactions (db w)))
    /\ newest_first rows.
Proof.
  eexists. split; [reflexivity|]. split; [|split].
  - intros t. rewrite order_by_In, filter_In, in_period_spec. tauto.
  - apply order_by_perm.
  - unfold newest_first.
    eapply StronglySorted_weaken; [|apply order_by_sorted].
    intros a b H. simpl in H. lia.
Qed.

(* ================================================================== *)
(** * Financial statistics *)

Lemma TransactionType_eqb_eq a b : TransactionType_eqb a b = true <-> a = b.
Proof. destruct a, b; simpl; split; intros H; congruence. Qed.

Lemma TransactionType_eqb_sym a b :
  TransactionType_eqb a b = TransactionType_eqb b a.
Proof. destruct a, b; reflexivity. Qed.

Lemma Qsum_perm l l' : Permutation l l' -> Qsum l == Qsum l'.
Proof.
  unfold Qsum. intros H. induction H; simpl.
  - reflexivity.
  - rewrite IHPermutation. reflexivity.
  - ring.
  - rewrite IHPermutation1. exact IHPermutation2.
Qed.

Lemma filter_or_perm A (f g : A -> bool) l :
  (forall x, In x l -> f x = true -> g x = true -> False) ->
  Permutation (filter (fun x => f x || g x) l) (filter f l ++ filter g l).
Proof.
  induction l as [|x l IH]; intros Hd; simpl; [constructor|].
  assert (IH' := IH (fun y Hy => Hd y (or_intror Hy))).
  destruct (f x) eqn:Ef; destruct (g x) eqn:Eg; simpl.
  - exfalso. apply (Hd x); auto. left. reflexivity.
  - constructor. exact IH'.
  - eapply Permutation_trans; [constructor; exact IH'|].
    apply Permutation_middle.
  - exact IH'.
Qed.

Lemma collect_transactions_run accounts startDate endDate :
  forall allTransactions w,
    AnalyticService.collect_transactions accounts startDate endDate
      allTransactions w
    = (w,
       allTransactions
       ++ flat_map
            (fun acc =>
               order_by (fun t => (- Transaction.CreatedAt t)%Z)
                 (filter (TransactionRepository.in_period (Account.ID acc)
                            startDate
                            (endDate + 24 * TransactionRepository.time_Hour))
                    (transactions (db w))))
            accounts).
Proof.
  induction accounts as [|acc rest IH]; intros allTransactions w.
  - cbn [AnalyticService.collect_transactions flat_map].
    rewrite app_nil_r. reflexivity.
  - cbn [AnalyticService.collect_transactions flat_map].
    unfold TransactionRepository.GetByAccountAndPeriod.
    rewrite IH, app_assoc. reflexivity.
Qed.

Lemma flat_map_period_perm T startDate endDate accs :
  NoDup (map Account.ID accs) ->
  Permutation
    (flat_map
       (fun acc =>
          order_by (fun t => (- Transaction.CreatedAt t)%Z)
            (filter (TransactionRepository.in_period (Account.ID acc)
                       startDate endDate) T))
       accs)
    (filter
       (fun t =>
          existsb (fun acc =>
                     TransactionRepository.in_period (Account.ID acc)
                       startDate endDate t) accs)
       T).
Proof.
  induction accs as [|a accs IH]; intros Hnd.
  - cbn [flat_map existsb]. rewrite filter_none by reflexivity. constructor.
  - inversion Hnd as [|? ? Hnotin Hnd']; subst.
    cbn [flat_map existsb].
    eapply Permutation_trans;
      [apply Permutation_app; [apply order_by_perm | apply IH; exact Hnd']|].
    apply Permutation_sym.
    apply (@filter_or_perm _
             (TransactionRepository.in_period (Account.ID a) startDate endDate)
             (fun t =>
                existsb (fun acc =>
                           TransactionRepository.in_period (Account.ID acc)
                             startDate endDate t) accs)).
    intros t _ Hf Hg. apply in_period_spec in Hf. destruct Hf as [Hf _].
    apply existsb_exists in Hg. destruct Hg as (acc & Hacc & Hp).
    apply in_period_spec in Hp. destruct Hp as [Hp _].
    apply Hnotin. rewrite <- Hf, Hp. apply in_map. exact Hacc.
Qed.

Lemma owned_in_period_filter userID startDate endDate d t :
  existsb (fun acc =>
             TransactionRepository.in_period (Account.ID acc) startDate
               (endDate + 24 * TransactionRepository.time_Hour) t)
    (filter (fun a => Pos.eqb (Account.UserID a) userID) (accounts d))
  = owned_in_period userID startDate endDate d t.
Proof.
  unfold owned_in_period, TransactionRepository.in_period.
  induction (accounts d) as [|a l IH]; [reflexivity|].
  cbn [filter existsb].
  destruct (Pos.eqb (Account.UserID a) userID) eqn:Eu; cbn [existsb andb orb].
  - rewrite IH. rewrite (Pos.eqb_sym (Transaction.AccountID t) (Account.ID a)).
    destruct (Pos.eqb (Account.ID a) (Transaction.AccountID t));
      destruct (existsb _ l);
      destruct (Z.leb startDate (Transaction.CreatedAt t));
      destruct (Z.ltb (Transaction.CreatedAt t) _); reflexivity.
  - exact IH.
Qed.

Lemma count_transaction_step stats tx :
  0 < Transaction.Amount tx ->
  FinancialStats.TotalIncome (AnalyticService.count_transaction stats tx)
  = FinancialStats.TotalIncome stats + Transaction.Amount tx
  /\ FinancialStats.TotalExpenses (AnalyticService.count_transaction stats tx)
     = FinancialStats.TotalExpenses stats
  /\ (forall k,
        (TransactionType_eqb (Transaction.Type_ tx) k = true ->
         FinancialStats.ByCategory (AnalyticService.count_transaction stats tx) k
         = Some (CategoryStats.mk
                   (CategoryStats.Income (category_of stats k)
                    + Transaction.Amount tx)
                   (CategoryStats.Expenses (category_of stats k))
                   (CategoryStats.Count (category_of stats k) + 1)))
        /\ (TransactionType_eqb (Transaction.Type_ tx) k = false ->
            FinancialStats.ByCategory
              (AnalyticService.count_transaction stats tx) k
            = FinancialStats.ByCategory stats k)).
Proof.
  intros Hpos. unfold AnalyticService.count_transaction.
  apply Qltb_true in Hpos. rewrite Hpos.
  cbn [FinancialStats.TotalIncome FinancialStats.TotalExpenses
         FinancialStats.ByCategory].
  split; [reflexivity|]. split; [reflexivity|].
  intros k. rewrite (TransactionType_eqb_sym k). split; intros E; rewrite E.
  - apply TransactionType_eqb_eq in E. subst k. reflexivity.
  - reflexivity.
Qed.

Lemma count_transactions_positive txs :
  Forall (fun t => 0 < Transaction.Amount t) txs ->
  forall stats0,
    FinancialStats.TotalIncome
      (fold_left AnalyticService.count_transaction txs stats0)
    == FinancialStats.TotalIncome stats0 + Qsum (map Transaction.Amount txs)
    /\ FinancialStats.TotalExpenses
         (fold_left AnalyticService.count_transaction txs stats0)
       = FinancialStats.TotalExpenses stats0
    /\ (forall k,
          CategoryStats.Income
            (category_of
               (fold_left AnalyticService.count_transaction txs stats0) k)
          == CategoryStats.Income (category_of stats0 k)
             + Qsum (map Transaction.Amount (of_type k txs))
          /\ CategoryStats.Expenses
               (category_of
                  (fold_left AnalyticService.count_transaction txs stats0) k)
             = CategoryStats.Expenses (category_of stats0 k)
          /\ CategoryStats.Count
               (category_of
                  (fold_left AnalyticService.count_transaction txs stats0) k)
             = (CategoryStats.Count (category_of stats0 k)
                + Z.of_nat (List.length (of_type k txs)))%Z
          /\ (FinancialStats.ByCategory
                (fold_left AnalyticService.count_transaction txs stats0) k
              = None
              <-> FinancialStats.ByCategory stats0 k = None
                  /\ of_type k txs = [])).
Proof.
  induction 1 as [|tx txs Hpos Hall IH]; intros stats0.
  - cbn [fold_left map of_type filter Qsum fold_right List.length Z.of_nat].
    split; [ring|]. split; [reflexivity|]. intros k.
    split; [ring|]. split; [reflexivity|]. split; [lia|]. tauto.
  - cbn [fold_left].
    destruct (IH (AnalyticService.count_transaction stats0 tx))
      as (Hi & He & Hk).
    destruct (@count_transaction_step stats0 tx Hpos) as (Si & Se & Sk).
    split.
    { rewrite Hi, Si. cbn [map Qsum fold_right]. unfold Qsum. ring. }
    split; [rewrite He; exact Se|].
    intros k. destruct (Hk k) as (Ki & Ke & Kc & Kn).
    destruct (Sk k) as [St Sf].
    unfold of_type. cbn [filter].
    destruct (TransactionType_eqb (Transaction.Type_ tx) k) eqn:E.
    + specialize (St eq_refl).
      assert (Hcat : category_of (AnalyticService.count_transaction stats0 tx) k
                     = CategoryStats.mk
                         (CategoryStats.Income (category_of stats0 k)
                          + Transaction.Amount tx)
                         (CategoryStats.Expenses (category_of stats0 k))
                         (CategoryStats.Count (category_of stats0 k) + 1)).
      { unfold category_of at 1. rewrite St. reflexivity. }
      rewrite Hcat in Ki, Ke, Kc. cbn [CategoryStats.Income
        CategoryStats.Expenses CategoryStats.Count] in Ki, Ke, Kc.
      split.
      { rewrite Ki. cbn [map Qsum fold_right]. unfold of_type, Qsum. ring. }
      split; [exact Ke|].
      split.
      { rewrite Kc. unfold of_type. cbn [List.length]. lia. }
      split.
      * intros Hn. apply Kn in Hn. destruct Hn as [Hn _]. congruence.
      * intros [_ Hn]. discriminate Hn.
    + specialize (Sf eq_refl).
      assert (Hcat : category_of (AnalyticService.count_transaction stats0 tx) k
                     = category_of stats0 k).
      { unfold category_of. rewrite Sf. reflexivity. }
      rewrite Hcat in Ki, Ke, Kc. rewrite Sf in Kn.
      split; [exact Ki|]. split; [exact Ke|]. split; [exact Kc|]. exact Kn.
Qed.

Lemma GetFinancialStats_run userID startDate endDate w :
  (startDate <= endDate)%Z ->
  AnalyticService.GetFinancialStats userID startDate endDate w
  = (w,
     inr (match filter (fun a => Pos.eqb (Account.UserID a) userID)
                  (accounts (db w)) with
          | [] => AnalyticService.no_stats
          | _ :: _ =>
              let stats :=
                fold_left AnalyticService.count_transaction
                  (flat_map
                     (fun acc =>
                        order_by (fun t => (- Transaction.CreatedAt t)%Z)
                          (filter
                             (TransactionRepository.in_period (Account.ID acc)
                                startDate
                                (endDate
                                 + 24 * TransactionRepository.time_Hour))
                             (transactions (db w))))
                     (filter (fun a => Pos.eqb (Account.UserID a) userID)
                        (accounts (db w))))
                  AnalyticService.no_stats in
              FinancialStats.mk
                (FinancialStats.TotalIncome stats)
                (FinancialStats.TotalExpenses stats)
                (FinancialStats.TotalIncome stats
                 - FinancialStats.TotalExpenses stats)
                (FinancialStats.ByCategory stats)
          end)).
Proof.
  intros Hord. unfold AnalyticService.GetFinancialStats.
  assert (Hlt : Z.ltb endDate startDate = false) by (apply Z.ltb_ge; lia).
  rewrite Hlt. unfold AccountRepository.GetUserAccounts.
  destruct (filter (fun a => Pos.eqb (Account.UserID a) userID)
              (accounts (db w))) as [|a l] eqn:E; [reflexivity|].
  rewrite collect_transactions_run. reflexivity.
Qed.

(** X16: what the financial statistics of a period add up to.  In a
    store with unique account identifiers whose entries all have a positive
    amount (the CHECK of the table), for an ordered period, the statistics
    count exactly the entries of the accounts of the user in the period,
    each once, and count every one of them as income, whatever its type:
    the total income is the sum of their amounts, the total expenses are
    0, the net balance equals the income, and each category holds the sum
    and the number of the entries of its type, with no expenses; a type
    without entries has no category. *)
Theorem financial_stats_of_period userID startDate endDate w :
  NoDup (map Account.ID (accounts (db w))) ->
  amounts_positive (db w) ->
  (startDate <= endDate)%Z ->
  exists stats txs,
    AnalyticService.GetFinancialStats userID startDate endDate w
    = (w, inr stats)
    /\ Permutation txs (period_entries userID startDate endDate (db w))
    /\ FinancialStats.TotalIncome stats == Qsum (map Transaction.Amount txs)
    /\ FinancialStats.TotalExpenses stats == 0
    /\ FinancialStats.NetBalance stats == FinancialStats.TotalIncome stats
    /\ (forall k,
          CategoryStats.Income (category_of stats k)
          == Qsum (map Transaction.Amount (of_type k txs))
          /\ CategoryStats.Expenses (category_of stats k) == 0
          /\ CategoryStats.Count (category_of stats k)
             = Z.of_nat (List.length (of_type k txs))
          /\ (FinancialStats.ByCategory stats k = None <-> of_type k txs = [])).
Proof.
  intros Hnd Hpos Hord.
  pose proof (@GetFinancialStats_run userID startDate endDate w Hord) as Hrun.
  assert (Hperm :
    Permutation
      (flat_map
         (fun acc =>
            order_by (fun t => (- Transaction.CreatedAt t)%Z)
              (filter (TransactionRepository.in_period (Account.ID acc)
                         startDate
                         (endDate + 24 * TransactionRepository.time_Hour))
                 (transactions (db w))))
         (filter (fun a => Pos.eqb (Account.UserID a) userID)
            (accounts (db w))))
      (period_entries userID startDate endDate (db w))).
  { unfold period_entries.
    rewrite (filter_ext _ _
               (fun t => eq_sym (@owned_in_period_filter userID startDate
                                   endDate (db w) t))).
    apply flat_map_period_perm. apply NoDup_map_filter. exact Hnd. }
  remember (filter (fun a => Pos.eqb (Account.UserID a) userID)
              (accounts (db w))) as accs eqn:Haccs.
  remember (flat_map
              (fun acc =>
                 order_by (fun t => (- Transaction.CreatedAt t)%Z)
                   (filter (TransactionRepository.in_period (Account.ID acc)
                              startDate
                              (endDate + 24 * TransactionRepository.time_Hour))
                      (transactions (db w))))
              accs) as txs eqn:Htxs.
  assert (Hall : Forall (fun t => 0 < Transaction.Amount t) txs).
  { apply Forall_forall. intros t Ht.
    apply (Permutation_in _ Hperm) in Ht. unfold period_entries in Ht.
    apply filter_In in Ht. destruct Ht as [Ht _].
    unfold amounts_positive in Hpos. rewrite Forall_forall in Hpos.
    apply Hpos. exact Ht. }
  destruct (@count_transactions_positive txs Hall AnalyticService.no_stats)
    as (Hi & He & Hk).
  cbn [AnalyticService.no_stats FinancialStats.TotalIncome
         FinancialStats.TotalExpenses] in Hi, He.
  destruct accs as [|a accs'].
  - exists AnalyticService.no_stats, txs. split; [exact Hrun|].
    split; [exact Hperm|].
    cbn [flat_map] in Htxs. subst txs. cbn.
    repeat split; try reflexivity.
  - eexists. exists txs. split; [exact Hrun|]. split; [exact Hperm|].
    cbv zeta.
    cbn [FinancialStats.TotalIncome FinancialStats.TotalExpenses
           FinancialStats.NetBalance FinancialStats.ByCategory].
    split; [rewrite Hi; ring|].
    split; [rewrite He; reflexivity|].
    split; [rewrite He; ring|].
    intros k. destruct (Hk k) as (Ki & Ke & Kc & Kn).
    unfold category_of in *.
    cbn [FinancialStats.ByCategory AnalyticService.no_stats
           CategoryStats.Income CategoryStats.Expenses CategoryStats.Count]
      in *.
    split; [rewrite Ki; ring|].
    split; [rewrite Ke; reflexivity|].
    split; [rewrite Kc; lia|].
    rewrite Kn. tauto.
Qed.

Lemma financial_stats_of_period_witness :
  exists stats,
    AnalyticService.GetFinancialStats 7 0 100 example_history_world
    = (example_history_world, inr stats)
    /\ FinancialStats.TotalExpenses stats == 0
    /\ FinancialStats.NetBalance stats == FinancialStats.TotalIncome stats.
Proof.
  destruct (@financial_stats_of_period 7%positive 0%Z 100%Z
              example_history_world)
    as (stats & txs & H1 & _ & _ & H2 & H3 & _).
  - repeat constructor; cbn; intuition discriminate.
  - repeat constructor.
  - lia.
  - exists stats. repeat split; assumption.
Defined.

(* ================================================================== *)
(** * The balance forecast *)

Lemma plan_credits_world same_key credits startDate endDate :
  forall payments w,
    fst (AnalyticService.plan_credits same_key credits startDate endDate
           payments w) = w.
Proof.
  induction credits as [|credit rest IH]; intros payments w; [reflexivity|].
  cbn [AnalyticService.plan_credits].
  destruct (negb (String.eqb (Credit.Status credit) "active")); [apply IH|].
  unfold CreditRepository.GetPaymentSchedule. apply IH.
Qed.

Lemma fold_left_balances accounts :
  forall balance,
    fold_left (fun balance acc => balance + Account.Balance acc) accounts balance
    == balance + Qsum (map Account.Balance accounts).
Proof.
  induction accounts as [|a l IH]; intros balance; cbn [fold_left map].
  - unfold Qsum. simpl. ring.
  - rewrite IH. unfold Qsum. simpl. ring.
Qed.

Lemma forecast_loop_length same_key env plannedPayments now n :
  forall day runningBalance,
    List.length (AnalyticService.forecast_loop same_key env plannedPayments now
                   n day runningBalance) = n.
Proof.
  induction n as [|n IH]; intros day runningBalance; [reflexivity|].
  cbn [AnalyticService.forecast_loop List.length]. rewrite IH. reflexivity.
Qed.

Lemma forecast_loop_nth same_key env plannedPayments now n :
  forall day runningBalance k entry,
    nth_error (AnalyticService.forecast_loop same_key env plannedPayments now
                 n day runningBalance) k = Some entry ->
    BalanceForecast.Date entry = time_AddDate env now 0 0 (day + Z.of_nat k)
    /\ BalanceForecast.ProjectedBalance entry
       == runningBalance
          - Qsum (map BalanceForecast.PlannedPayments
                    (firstn (S k)
                       (AnalyticService.forecast_loop same_key env
                          plannedPayments now n day runningBalance))).
Proof.
  induction n as [|n IH]; intros day runningBalance k entry H.
  - destruct k; discriminate H.
  - cbn [AnalyticService.forecast_loop] in *.
    destruct k as [|k].
    + cbn [nth_error] in H. injection H as <-.
      cbn [BalanceForecast.Date BalanceForecast.ProjectedBalance firstn map
             BalanceForecast.PlannedPayments Z.of_nat].
      rewrite Z.add_0_r. split; [reflexivity|]. unfold Qsum. simpl. ring.
    + cbn [nth_error] in H. apply IH in H. destruct H as [Hd Hp].
      split.
      * rewrite Hd. f_equal. lia.
      * rewrite Hp.
        match goal with
        | |- context [firstn (S (S k)) (?e :: ?t)] =>
            change (firstn (S (S k)) (e :: t)) with (e :: firstn (S k) t)
        end.
        cbn [map BalanceForecast.PlannedPayments]. unfold Qsum.
        cbn [fold_right]. ring.
Qed.

(** X17: the shape of a balance forecast.  A forecast is refused for a
    number of days below 1 or above 365, with nothing read or written.
    Otherwise it has exactly one entry per day; the entry of day k
    (counted from 0) is dated k days after now, and its projected balance
    is the sum of the balances of the accounts of the user minus all the
    planned payments of the entries up to and including that day. *)
Theorem GetBalanceForecast_shape same_key env userID days w :
  ((days <= 0 \/ 365 < days)%Z ->
   AnalyticService.GetBalanceForecast same_key env userID days w
   = (w, inl AnalyticService.ErrForecastDays))
  /\ ((1 <= days <= 365)%Z ->
      exists forecast mine,
        AnalyticService.GetBalanceForecast same_key env userID days w
        = (w, inr forecast)
        /\ AccountService.GetUserAccounts userID w = (w, Ok mine)
        /\ List.length forecast = Z.to_nat days
        /\ (forall k entry,
              nth_error forecast k = Some entry ->
              BalanceForecast.Date entry
              = time_AddDate env (time_Now env) 0 0 (Z.of_nat k)
              /\ BalanceForecast.ProjectedBalance entry
                 == Qsum (map Account.Balance mine)
                    - Qsum (map BalanceForecast.PlannedPayments
                              (firstn (S k) forecast)))).
Proof.
  unfold AnalyticService.GetBalanceForecast. split.
  - intros Hd.
    assert (E : Z.leb days 0 || Z.ltb 365 days = true).
    { apply orb_true_iff. rewrite Z.leb_le, Z.ltb_lt. exact Hd. }
    rewrite E. reflexivity.
  - intros Hd.
    assert (E : Z.leb days 0 || Z.ltb 365 days = false).
    { apply orb_false_iff. rewrite Z.leb_gt, Z.ltb_ge. lia. }
    rewrite E. unfold AccountRepository.GetUserAccounts.
    unfold AnalyticService.getPlannedPayments, CreditRepository.GetUserCredits.
    match goal with
    | |- context [AnalyticService.plan_credits ?s ?c ?a ?b ?p ?w0] =>
        pose proof (@plan_credits_world s c a b p w0) as Hw;
        destruct (AnalyticService.plan_credits s c a b p w0) as [w2 planned]
    end.
    cbn [fst] in Hw. subst w2. cbv zeta.
    eexists. eexists. split; [reflexivity|].
    split; [reflexivity|].
    split; [apply forecast_loop_length|].
    intros k entry Hk. apply forecast_loop_nth in Hk.
    destruct Hk as [Hdate Hbal]. split; [exact Hdate|].
    pose proof (fold_left_balances
                  (filter (fun a => Pos.eqb (Account.UserID a) userID)
                     (accounts (db w))) 0) as Hf.
    rewrite Hbal.
    set (current := fold_left _ _ 0) in *.
    set (planned_sum := Qsum (map BalanceForecast.PlannedPayments _)).
    lra.
Qed.

Lemma GetBalanceForecast_shape_witness :
  AnalyticService.GetBalanceForecast Z.eqb example_calendar 7 0
    example_history_world
  = (example_history_world, inl AnalyticService.ErrForecastDays)
  /\ exists forecast,
       AnalyticService.GetBalanceForecast Z.eqb example_calendar 7 3
         example_history_world
       = (example_history_world, inr forecast)
       /\ List.length forecast = 3%nat.
Proof.
  destruct (@GetBalanceForecast_shape Z.eqb example_calendar 7%positive 0%Z
              example_history_world) as [H0 _].
  destruct (@GetBalanceForecast_shape Z.eqb example_calendar 7%positive 3%Z
              example_history_world) as [_ H3].
  split; [apply H0; lia|].
  destruct H3 as (forecast & mine & H1 & _ & H2 & _); [lia|].
  exists forecast. split; assumption.
Defined.

(* ================================================================== *)
(** * The period asked of the statistics *)

(** X18: the handler of the statistics always asks for an ordered
    period.  Whatever the date parameters, when [parseDateRange] returns a
    period its start is not after its end (a reversed pair is swapped); the
    period is the last month up to now when no parameter is given; and so
    the refusal of [GetFinancialStats] for a start after the end cannot be
    reached from the handler. *)
Theorem parseDateRange_ordered env startParam endParam startDate endDate :
  AnalyticsHandler.parseDateRange env startParam endParam
  = Some (startDate, endDate) ->
  (startDate <= endDate)%Z
  /\ (startParam = AnalyticsHandler.NoDate ->
      endParam = AnalyticsHandler.NoDate ->
      (time_AddDate env (time_Now env) 0 (-1) 0 <= time_Now env)%Z ->
      startDate = time_AddDate env (time_Now env) 0 (-1) 0
      /\ endDate = time_Now env)
  /\ (forall userID w,
        snd (AnalyticService.GetFinancialStats userID startDate endDate w)
        <> inl AnalyticService.ErrDateOrder).
Proof.
  intros H.
  assert (Hord : (startDate <= endDate)%Z).
  { unfold AnalyticsHandler.parseDateRange in H.
    destruct startParam as [| |s]; try discriminate H;
      destruct endParam as [| |e]; try discriminate H;
      match type of H with
      | (if Z.ltb ?a ?b then _ else _) = _ =>
          destruct (Z.ltb a b) eqn:E; injection H as <- <-;
          [apply Z.ltb_lt in E | apply Z.ltb_ge in E]; lia
      end. }
  split; [exact Hord|]. split.
  - intros -> -> Hm. unfold AnalyticsHandler.parseDateRange in H.
    apply Z.ltb_ge in Hm. rewrite Hm in H. injection H as <- <-.
    split; reflexivity.
  - intros userID w.
    rewrite (@GetFinancialStats_run userID startDate endDate w Hord).
    discriminate.
Qed.

Lemma parseDateRange_ordered_witness :
  AnalyticsHandler.parseDateRange example_calendar
    (AnalyticsHandler.Date 90) (AnalyticsHandler.Date 20) = Some (20, 90)%Z
  /\ (20 <= 90)%Z.
Proof.
  split; [reflexivity|].
  apply (@parseDateRange_ordered example_calendar (AnalyticsHandler.Date 90)
           (AnalyticsHandler.Date 20) 20%Z 90%Z).
  reflexivity.
Defined.

(* ================================================================== *)
(** * Card numbers *)

Lemma list_ascii_app s t :
  list_ascii_of_string (s ++ t)%string
  = list_ascii_of_string s ++ list_ascii_of_string t.
Proof.
  induction s as [|c s IH]; simpl; [reflexivity|]. rewrite IH. reflexivity.
Qed.

Lemma length_list_ascii s :
  List.length (list_ascii_of_string s) = String.length s.
Proof.
  induction s as [|c s IH]; simpl; [reflexivity|]. rewrite IH. reflexivity.
Qed.

Lemma string_length_app s t :
  String.length (s ++ t)%string = (String.length s + String.length t)%nat.
Proof.
  induction s as [|c s IH]; simpl; [reflexivity|]. rewrite IH. reflexivity.
Qed.

Lemma digit_char d :
  (0 <= d < 10)%Z ->
  exists c,
    CardService.Itoa_digit d = String c EmptyString
    /\ is_digit c = true
    /\ CardService.Atoi_byte c = d
    /\ c <> "|"%char.
Proof.
  intros H. unfold CardService.Itoa_digit. eexists. split; [reflexivity|].
  assert (E : (d = 0 \/ d = 1 \/ d = 2 \/ d = 3 \/ d = 4 \/ d = 5 \/ d = 6
               \/ d = 7 \/ d = 8 \/ d = 9)%Z) by lia.
  repeat (destruct E as [E|E]; [subst d; repeat split; discriminate|]).
  subst d. repeat split. discriminate.
Qed.

Lemma is_digit_not_bar c : is_digit c = true -> c <> "|"%char.
Proof. intros H ->. discriminate H. Qed.

Lemma draw_digits_chars rand n :
  forall i prefix,
    (forall j, (i <= j < i + n)%nat -> (0 <= rand j < 10)%Z) ->
    exists cs,
      list_ascii_of_string (CardService.draw_digits rand n i prefix)
      = list_ascii_of_string prefix ++ cs
      /\ List.length cs = n
      /\ Forall (fun c => is_digit c = true) cs.
Proof.
  induction n as [|n IH]; intros i prefix Hr.
  - exists []. cbn [CardService.draw_digits]. rewrite app_nil_r.
    repeat split. constructor.
  - cbn [CardService.draw_digits].
    destruct (@digit_char (rand i)) as (c & Hc & Hd & _ & _);
      [apply Hr; lia|].
    destruct (IH (S i) (prefix ++ CardService.Itoa_digit (rand i))%string)
      as (cs & Hcs & Hlen & Hall); [intros j Hj; apply Hr; lia|].
    exists (c :: cs). rewrite Hcs, list_ascii_app, Hc. cbn [list_ascii_of_string].
    rewrite <- app_assoc. cbn [app]. split; [reflexivity|].
    split; [cbn [List.length]; rewrite Hlen; reflexivity|].
    constructor; assumption.
Qed.

Lemma check_digit_complements sum :
  (0 <= (10 - sum mod 10) mod 10 < 10)%Z
  /\ ((sum + (10 - sum mod 10) mod 10) mod 10 = 0)%Z.
Proof.
  pose proof (Z.mod_pos_bound sum 10 ltac:(lia)) as Hm.
  split; [apply Z.mod_pos_bound; lia|].
  rewrite <- Zplus_mod_idemp_l.
  assert (E : (sum mod 10 = 0 \/ sum mod 10 = 1 \/ sum mod 10 = 2
               \/ sum mod 10 = 3 \/ sum mod 10 = 4 \/ sum mod 10 = 5
               \/ sum mod 10 = 6 \/ sum mod 10 = 7 \/ sum mod 10 = 8
               \/ sum mod 10 = 9)%Z) by lia.
  repeat (destruct E as [E|E]; [rewrite E; reflexivity|]).
  rewrite E. reflexivity.
Qed.

Lemma generateCardNumber_chars rand :
  (forall i, (i < 14)%nat -> (0 <= rand i < 10)%Z) ->
  exists cs c,
    list_ascii_of_string (CardService.generateCardNumber rand)
    = "4"%char :: cs ++ [c]
    /\ List.length cs = 14%nat
    /\ Forall (fun c => is_digit c = true) ("4"%char :: cs ++ [c])
    /\ String.length (CardService.generateCardNumber rand) = 16%nat
    /\ ((CardService.checksum (string_of_list_ascii ("4"%char :: cs))
         + CardService.Atoi_byte c) mod 10 = 0)%Z
    /\ no_bar (CardService.generateCardNumber rand).
Proof.
  intros Hr. unfold CardService.generateCardNumber.
  destruct (@draw_digits_chars rand 14 0 "4"%string) as (cs & Hcs & Hlen & Hall);
    [intros j Hj; apply Hr; lia|].
  cbn [list_ascii_of_string app] in Hcs.
  set (prefix := CardService.draw_digits rand 14 0 "4") in *.
  destruct (check_digit_complements (CardService.checksum prefix))
    as [Hbound Hzero].
  destruct (@digit_char ((10 - CardService.checksum prefix mod 10) mod 10)
              Hbound) as (c & Hc & Hd & Ha & _).
  assert (Hlist : list_ascii_of_string
                    (prefix
                     ++ CardService.Itoa_digit
                          ((10 - CardService.checksum prefix mod 10) mod 10))%string
                  = "4"%char :: cs ++ [c]).
  { rewrite list_ascii_app, Hcs, Hc. reflexivity. }
  assert (Hdigits : Forall (fun c => is_digit c = true) ("4"%char :: cs ++ [c])).
  { constructor; [reflexivity|]. apply Forall_app. split; [exact Hall|].
    constructor; [exact Hd | constructor]. }
  exists cs, c. split; [exact Hlist|]. split; [exact Hlen|].
  split; [exact Hdigits|].
  split.
  { rewrite <- length_list_ascii, Hlist. cbn [List.length].
    rewrite length_app, Hlen. reflexivity. }
  split.
  { rewrite <- Hcs, string_of_list_ascii_of_string, Ha. exact Hzero. }
  unfold no_bar. rewrite Hlist. intros Hin.
  rewrite Forall_forall in Hdigits. specialize (Hdigits _ Hin).
  discriminate Hdigits.
Qed.

(** X19: a generated card number is well formed whatever digits are
    drawn.  It has 16 characters, all of them decimal digits, the first is
    4, it does not contain the separator of the card data, and its last
    digit complements the check sum the generator computes over the first
    15 to a multiple of ten. *)
Theorem generateCardNumber_wellformed rand :
  (forall i, (i < 14)%nat -> (0 <= rand i < 10)%Z) ->
  exists cs c,
    list_ascii_of_string (CardService.generateCardNumber rand)
    = "4"%char :: cs ++ [c]
    /\ List.length cs = 14%nat
    /\ Forall (fun c => is_digit c = true) ("4"%char :: cs ++ [c])
    /\ String.length (CardService.generateCardNumber rand) = 16%nat
    /\ ((CardService.checksum (string_of_list_ascii ("4"%char :: cs))
         + CardService.Atoi_byte c) mod 10 = 0)%Z
    /\ no_bar (CardService.generateCardNumber rand).
Proof. apply generateCardNumber_chars. Qed.

Lemma generateCardNumber_wellformed_witness :
  String.length (CardService.generateCardNumber (fun i => Z.of_nat (Nat.modulo i 10)))
  = 16%nat.
Proof.
  destruct (@generateCardNumber_wellformed (fun i => Z.of_nat (Nat.modulo i 10)))
    as (cs & c & _ & _ & _ & H & _).
  - intros i Hi.
    pose proof (Nat.mod_upper_bound i 10 ltac:(discriminate)). lia.
  - exact H.
Defined.

(* ================================================================== *)
(** * Masking *)

Lemma substring_all s : substring 0 (String.length s) s = s.
Proof. induction s as [|c s IH]; simpl; [reflexivity|]. rewrite IH. reflexivity. Qed.

Lemma substring_skip p t :
  substring (String.length p) (String.length t) (p ++ t)%string = t.
Proof.
  induction p as [|c p IH]; simpl; [apply substring_all | exact IH].
Qed.

Lemma substring_last_four hidden shown :
  String.length shown = 4%nat ->
  substring (String.length hidden) 4 (hidden ++ shown)%string = shown.
Proof. intros H. rewrite <- H. apply substring_skip. Qed.

(** X20: a masked card number shows the last four characters and nothing
    else.  For a number of at least four characters the mask is the
    fixed text of three groups of stars followed by its last four
    characters, 19 characters in all, so that two numbers with the same
    ending have the same mask; a shorter number is masked entirely. *)
Theorem maskCardNumber_last_four :
  (forall hidden shown,
     String.length shown = 4%nat ->
     CardService.maskCardNumber (hidden ++ shown)%string
     = ("**** **** **** " ++ shown)%string
     /\ String.length (CardService.maskCardNumber (hidden ++ shown)%string)
        = 19%nat)
  /\ (forall number,
        (String.length number < 4)%nat ->
        CardService.maskCardNumber number = "****"%string).
Proof.
  split.
  - intros hidden shown Hlen. unfold CardService.maskCardNumber.
    rewrite string_length_app, Hlen.
    assert (E : Nat.ltb (String.length hidden + 4) 4 = false)
      by (apply Nat.ltb_ge; lia).
    rewrite E.
    replace (String.length hidden + 4 - 4)%nat with (String.length hidden)
      by lia.
    rewrite (@substring_last_four hidden shown Hlen).
    split; [reflexivity|]. rewrite string_length_app, Hlen. reflexivity.
  - intros number Hlen. unfold CardService.maskCardNumber.
    apply Nat.ltb_lt in Hlen. rewrite Hlen. reflexivity.
Qed.

Lemma maskCardNumber_last_four_witness :
  CardService.maskCardNumber "4000000000000006"
  = "**** **** **** 0006"%string.
Proof.
  destruct maskCardNumber_last_four as [H _].
  destruct (H "400000000000"%string "0006"%string eq_refl) as [E _].
  exact E.
Defined.

(* ================================================================== *)
(** * The card data: written, read back *)

Lemma no_bar_cons c s :
  no_bar (String c s) <-> c <> "|"%char /\ no_bar s.
Proof.
  unfold no_bar. cbn [list_ascii_of_string In]. split.
  - intros H. split; [intros E; apply H; left; exact E
                     | intros E; apply H; right; exact E].
  - intros [H1 H2] [E|E]; [apply H1; exact E | apply H2; exact E].
Qed.

Lemma strings_Split_no_bar s :
  no_bar s -> CardService.strings_Split s "|" = [s].
Proof.
  induction s as [|c s IH]; intros H; [reflexivity|].
  apply no_bar_cons in H. destruct H as [Hc Hs].
  cbn [CardService.strings_Split].
  apply Ascii.eqb_neq in Hc. rewrite Hc, (IH Hs). reflexivity.
Qed.

Lemma strings_Split_card_data number expiry :
  no_bar number -> no_bar expiry ->
  CardService.strings_Split (CardService.card_data number expiry) "|"
  = [number; expiry].
Proof.
  unfold CardService.card_data. intros Hn He.
  induction number as [|c number IH].
  - cbn [append CardService.strings_Split]. rewrite Ascii.eqb_refl.
    rewrite (strings_Split_no_bar He). reflexivity.
  - apply no_bar_cons in Hn. destruct Hn as [Hc Hn].
    cbn [append CardService.strings_Split].
    apply Ascii.eqb_neq in Hc. rewrite Hc. cbn [append] in IH.
    rewrite (IH Hn). reflexivity.
Qed.

Lemma decryptCardData_of_card_data cenv encrypted number expiry :
  decryptData cenv encrypted = Some (CardService.card_data number expiry) ->
  no_bar number -> no_bar expiry ->
  CardService.decryptCardData cenv encrypted
  = inr (CardData.mk number expiry).
Proof.
  intros Hd Hn He. unfold CardService.decryptCardData.
  rewrite Hd, (strings_Split_card_data Hn He). reflexivity.
Qed.

Lemma card_response_of_card_data cenv card number expiry :
  decryptData cenv (Card.EncryptedData card)
  = Some (CardService.card_data number expiry) ->
  Card.HMAC card = hmac_hex cenv (CardService.card_data number expiry) ->
  no_bar number -> no_bar expiry ->
  CardService.card_response cenv card
  = inr (CardResponse.mk (Card.ID card) (CardService.maskCardNumber number)
           expiry (Card.Name card)).
Proof.
  intros Hd Hm Hn He. unfold CardService.card_response, CardService.verifyHMAC.
  rewrite (decryptCardData_of_card_data _ _ Hd Hn He).
  cbn [CardData.Number CardData.Expiry]. rewrite Hm, String.eqb_refl.
  reflexivity.
Qed.

Lemma find_card_owned_fresh l card :
  find_card l (Card.ID card) = None ->
  find (fun c => Pos.eqb (Card.ID c) (Card.ID card)
                 && Pos.eqb (Card.UserID c) (Card.UserID card))
    (l ++ [card])
  = Some card.
Proof.
  unfold find_card. intros H. induction l as [|x l IH]; simpl in *.
  - rewrite !Pos.eqb_refl. reflexivity.
  - destruct (Pos.eqb (Card.ID x) (Card.ID card)); [discriminate|].
    cbn [andb]. apply IH. exact H.
Qed.

Lemma find_card_other_user l card other :
  find_card l (Card.ID card) = None ->
  other <> Card.UserID card ->
  find (fun c => Pos.eqb (Card.ID c) (Card.ID card)
                 && Pos.eqb (Card.UserID c) other)
    (l ++ [card])
  = None.
Proof.
  unfold find_card. intros H Hne. induction l as [|x l IH]; simpl in *.
  - apply not_eq_sym in Hne. apply Pos.eqb_neq in Hne.
    rewrite Hne, andb_false_r. reflexivity.
  - destruct (Pos.eqb (Card.ID x) (Card.ID card)); [discriminate|].
    cbn [andb]. apply IH. exact H.
Qed.

(** X21: a card that was issued can be shown to its owner, and to
    nobody else.  With working cryptography, digits drawn for the number
    and an expiry text without the separator, [CreateCard] for an account
    of the requester succeeds and does not touch the ledger; [GetCard] of
    the owner on the new card then passes the integrity check and returns
    the same masked number (19 characters) and expiry as [CreateCard] did,
    but with an empty name, since the queries that read a card do not
    select its name; for any other user [GetCard] answers that the card
    is not found. *)
Theorem CreateCard_GetCard_round_trip cenv userID req account cw :
  crypto_ok cenv ->
  (forall i, (i < 14)%nat -> (0 <= rand_Intn10 cenv i < 10)%Z) ->
  no_bar (issued_expiry cenv) ->
  find_account (accounts (db (ledger cw))) (CardRequest.AccountID req)
  = Some account ->
  Account.UserID account = userID ->
  find_card (cards cw) (next_uuid (ledger cw)) = None ->
  exists cw' response,
    CardService.CreateCard cenv userID req cw = (cw', inr response)
    /\ CardResponse.ID response = next_uuid (ledger cw)
    /\ CardResponse.MaskedNumber response
       = CardService.maskCardNumber (issued_number cenv)
    /\ CardResponse.Expiry response = issued_expiry cenv
    /\ CardResponse.Name response = CardRequest.Name req
    /\ db (ledger cw') = db (ledger cw)
    /\ CardService.GetCard cenv (CardResponse.ID response) userID cw'
       = (cw', inr (CardResponse.mk (CardResponse.ID response)
                      (CardResponse.MaskedNumber response)
                      (CardResponse.Expiry response) EmptyString))
    /\ (forall other,
          other <> userID ->
          CardService.GetCard cenv (CardResponse.ID response) other cw'
          = (cw', inl ErrCardNotFound)).
Proof.
  intros (Henc & Hdec & Hcvv) Hrand Hexp Ha Hu Hfresh.
  destruct (@generateCardNumber_chars (rand_Intn10 cenv) Hrand)
    as (cs & c & _ & _ & _ & _ & _ & Hnum).
  fold (issued_number cenv) in Hnum.
  unfold CardService.CreateCard.
  unfold cbind at 1. unfold on_ledger at 1. unfold AccountRepository.GetByID.
  rewrite Ha, Hu, Pos.eqb_refl. cbn [negb]. cbv zeta.
  fold (issued_number cenv). fold (issued_expiry cenv).
  destruct (encryptData cenv
              (CardService.card_data (issued_number cenv) (issued_expiry cenv)))
    as [encrypted|] eqn:He; [|exfalso; eapply Henc; exact He].
  destruct (cvv_hash cenv) as [cvvHash|] eqn:Hc; [|contradiction Hcvv; reflexivity].
  unfold cbind at 1. unfold on_ledger at 1, uuid_New. cbn [ledger cards].
  unfold cbind at 1. unfold CardRepository.Create.
  cbn [ledger cards db next_uuid Card.ID Card.AccountID].
  rewrite Hfresh, Ha. unfold cret.
  set (card := Card.mk (next_uuid (ledger cw)) userID (CardRequest.AccountID req)
                 encrypted cvvHash
                 (hmac_hex cenv
                    (CardService.card_data (issued_number cenv)
                       (issued_expiry cenv)))
                 (time_Now (clock cenv)) (time_Now (clock cenv))
                 (CardRequest.Name req)).
  eexists. eexists. split; [reflexivity|].
  cbn [CardResponse.ID CardResponse.MaskedNumber CardResponse.Expiry
         CardResponse.Name ledger db].
  split; [reflexivity|]. split; [reflexivity|]. split; [reflexivity|].
  split; [reflexivity|]. split; [reflexivity|].
  split.
  - unfold CardService.GetCard, CardRepository.GetByIDAndUser. cbn [cards].
    change (next_uuid (ledger cw)) with (Card.ID card).
    change userID with (Card.UserID card) at 1.
    rewrite (@find_card_owned_fresh (cards cw) card Hfresh).
    rewrite (@card_response_of_card_data cenv (CardRepository.scanned card)
               (issued_number cenv) (issued_expiry cenv));
      [reflexivity | apply Hdec; exact He | reflexivity | exact Hnum | exact Hexp].
  - intros other Hne.
    unfold CardService.GetCard, CardRepository.GetByIDAndUser. cbn [cards].
    change (next_uuid (ledger cw)) with (Card.ID card).
    rewrite (@find_card_other_user (cards cw) card other Hfresh Hne). reflexivity.
Qed.

Lemma CreateCard_GetCard_round_trip_witness :
  exists cw' response,
    CardService.CreateCard example_card_env 7 (CardRequest.mk 1 "salary")
      (mkCardWorld example_world []) = (cw', inr response)
    /\ CardService.GetCard example_card_env (CardResponse.ID response) 7 cw'
       = (cw', inr (CardResponse.mk (CardResponse.ID response)
                      (CardResponse.MaskedNumber response)
                      (CardResponse.Expiry response) EmptyString)).
Proof.
  destruct (@CreateCard_GetCard_round_trip example_card_env 7%positive
              (CardRequest.mk 1 "salary") (example_account 1 7 100)
              (mkCardWorld example_world []))
    as (cw' & response & H1 & _ & _ & _ & _ & _ & H2 & _).
  - repeat split; try discriminate. intros s e H. injection H as <-. reflexivity.
  - intros i Hi. cbn [rand_Intn10 example_card_env].
    pose proof (Nat.mod_upper_bound i 10 ltac:(discriminate)). lia.
  - vm_compute. intuition discriminate.
  - reflexivity.
  - reflexivity.
  - reflexivity.
  - exists cw', response. split; assumption.
Defined.

(* ================================================================== *)
(** * Paying by card *)

Lemma verifyHMAC_decrypts cenv card b :
  CardService.verifyHMAC cenv card = inr b ->
  exists data,
    CardService.decryptCardData cenv (Card.EncryptedData card) = inr data.
Proof.
  unfold CardService.verifyHMAC.
  destruct (CardService.decryptCardData cenv (Card.EncryptedData card))
    as [e|data]; [discriminate|]. eauto.
Qed.

(** X22: what a payment by card does.  For a positive amount that, like
    the balance, is a value the [DECIMAL(15,2)] columns keep as it is
    (whole cents, fewer than fourteen digits before the point), a card of
    the requester that passes the integrity check and an account that
    exists in a store with unique account identifiers: when the balance
    covers the amount the payment is completed, the account is debited by
    exactly the amount, one entry of kind card payment is appended under
    the identifier of the payment with the card as its reference, the last
    use of the card is set to now, and no other card or account changes;
    when the balance is smaller the payment is answered as failed with the
    error of the balance constraint, and no row changes. *)
Theorem card_payment_effect cenv payment userID card account cw :
  find (fun c => Pos.eqb (Card.ID c) (PaymentRequest.CardID payment)
                 && Pos.eqb (Card.UserID c) userID) (cards cw) = Some card ->
  CardService.verifyHMAC cenv (CardRepository.scanned card) = inr true ->
  find_account (accounts (db (ledger cw))) (Card.AccountID card)
  = Some account ->
  NoDup (map Account.ID (accounts (db (ledger cw)))) ->
  has_transaction (transactions (db (ledger cw))) (next_uuid (ledger cw))
  = false ->
  0 < PaymentRequest.Amount payment ->
  held_15_2 (PaymentRequest.Amount payment) ->
  held_15_2 (Account.Balance account) ->
  (PaymentRequest.Amount payment <= Account.Balance account ->
   exists cw' response account',
     CardService.ProcessPayment cenv payment userID cw
     = (cw', (Some response, None))
     /\ PaymentResponse.Status response = "completed"
     /\ PaymentResponse.PaymentID response = next_uuid (ledger cw)
     /\ PaymentResponse.CardID response = Card.ID card
     /\ PaymentResponse.AccountID response = Card.AccountID card
     /\ PaymentResponse.Amount response = PaymentRequest.Amount payment
     /\ find_account (accounts (db (ledger cw'))) (Card.AccountID card)
        = Some account'
     /\ Account.Balance account'
        == Account.Balance account - PaymentRequest.Amount payment
     /\ held_15_2 (Account.Balance account')
     /\ (forall id, id <> Card.AccountID card ->
                    find_account (accounts (db (ledger cw'))) id
                    = find_account (accounts (db (ledger cw))) id)
     /\ transactions (db (ledger cw'))
        = transactions (db (ledger cw))
          ++ [Transaction.mk (next_uuid (ledger cw)) (Card.AccountID card)
                (PaymentRequest.Amount payment) TransactionTypeCardPayment
                (Some (Card.ID card)) (time_Now (clock cenv))]
     /\ cards cw'
        = map (CardRepository.set_last_used (Card.ID card)
                 (time_Now (clock cenv))) (cards cw))
  /\ (Account.Balance account < PaymentRequest.Amount payment ->
      exists cw' response,
        CardService.ProcessPayment cenv payment userID cw
        = (cw',
           (Some response,
            Some (ErrPayment "debit"
                    (Wrap "failed to update balance"
                       (ErrConstraint CheckBalanceNonNegative)))))
        /\ PaymentResponse.Status response = "failed"
        /\ db (ledger cw') = db (ledger cw)
        /\ cards cw' = cards cw).
Proof.
  intros Hcard Hmac Ha Hnd Hfresh Hpos Hheld Hbal.
  destruct (verifyHMAC_decrypts _ _ Hmac) as [data Hdata].
  pose proof Hpos as Hpos'. apply Qleb_false in Hpos'.
  split.
  - intros Hle. unfold CardService.ProcessPayment.
    rewrite Hpos'. unfold CardRepository.GetByIDAndUser. rewrite Hcard, Hmac, Hdata.
    cbn [CardRepository.scanned Card.ID Card.AccountID].
    assert (Hupd :
      AccountRepository.UpdateBalanceTx (clock cenv) [] (Card.AccountID card)
        (- PaymentRequest.Amount payment)
        (mkWorld (db (ledger cw)) (Pos.succ (next_uuid (ledger cw))))
      = (mkWorld (db (ledger cw)) (Pos.succ (next_uuid (ledger cw))),
         Ok [WUpdateBalance (Card.AccountID card)
               (- PaymentRequest.Amount payment) (time_Now (clock cenv))])).
    { unfold AccountRepository.UpdateBalanceTx. rewrite tx_view_nil. cbn [db].
      rewrite (@filter_unique_account _ _ _ Hnd Ha). cbn [forallb andb].
      assert (Hchk : Qleb 0 (Account.Balance account
                             + - PaymentRequest.Amount payment) = true)
        by (apply Qleb_true; lra).
      rewrite Hchk. reflexivity. }
    rewrite Hupd.
    unfold TransactionRepository.CreateTx.
    cbn [db next_uuid Transaction.Amount Transaction.ID Transaction.AccountID].
    unfold tx_view at 1 2. cbn [fold_left apply_write].
    cbn [transactions accounts set_accounts].
    pose proof Hpos as Hpos2. apply Qltb_true in Hpos2. rewrite Hpos2.
    cbn [negb]. rewrite Hfresh.
    rewrite (@find_account_add_same _ _ (- PaymentRequest.Amount payment)
               (time_Now (clock cenv)) _ Ha).
    unfold Commit. cbn [db next_uuid].
    unfold tx_view. cbn [fold_left apply_write].
    unfold CardRepository.UpdateLastUsed. cbn [ledger cards].
    eexists. eexists. eexists. split; [reflexivity|].
    cbn [CardService.completed PaymentResponse.Status PaymentResponse.PaymentID
           PaymentResponse.CardID PaymentResponse.AccountID
           PaymentResponse.Amount ledger cards db accounts transactions
           set_accounts set_transactions].
    split; [reflexivity|]. split; [reflexivity|]. split; [reflexivity|].
    split; [reflexivity|]. split; [reflexivity|].
    split; [apply find_account_add_same; exact Ha|].
    rewrite add_balance_Balance_same by (eapply find_account_ID; eauto).
    split; [reflexivity|].
    split; [apply held_15_2_minus; try assumption; lra|].
    split; [intros id Hne; apply find_account_add_other; exact Hne|].
    split; reflexivity.
  - intros Hlt. unfold CardService.ProcessPayment.
    rewrite Hpos'. unfold CardRepository.GetByIDAndUser. rewrite Hcard, Hmac, Hdata.
    cbn [CardRepository.scanned Card.ID Card.AccountID].
    rewrite (@UpdateBalanceTx_refused (clock cenv) [] (Card.AccountID card)
               (- PaymentRequest.Amount payment)
               (mkWorld (db (ledger cw)) (Pos.succ (next_uuid (ledger cw))))
               account).
    + eexists. eexists. split; [reflexivity|]. repeat split.
    + rewrite tx_view_nil. cbn [db]. eapply find_account_In. exact Ha.
    + eapply find_account_ID. exact Ha.
    + lra.
Qed.

Lemma card_payment_effect_witness :
  exists cw' response,
    CardService.ProcessPayment example_card_env (PaymentRequest.mk 40 30) 7
      example_card_world = (cw', (Some response, None))
    /\ PaymentResponse.Status response = "completed".
Proof.
  destruct (@card_payment_effect example_card_env (PaymentRequest.mk 40 30)
              7%positive example_card (example_account 1 7 100)
              example_card_world) as [H _].
  - reflexivity.
  - reflexivity.
  - reflexivity.
  - repeat constructor; cbn; intuition discriminate.
  - reflexivity.
  - vm_compute. reflexivity.
  - vm_compute. reflexivity.
  - vm_compute. reflexivity.
  - destruct H as (cw' & response & account' & H1 & H2 & _).
    + vm_compute. discriminate.
    + exists cw', response. split; assumption.
Defined.

(** X23: a payment by card is all-or-nothing and needs a card of the
    requester.  Whenever [ProcessPayment] returns an error, the rows of the
    ledger and the cards are exactly as before and a response, if there is
    one, says failed; and when the requester has no card with the given
    identifier the payment is refused before anything is drawn or
    written. *)
Theorem card_payment_all_or_nothing cenv payment userID cw :
  (forall cw' r e,
     CardService.ProcessPayment cenv payment userID cw = (cw', (r, Some e)) ->
     db (ledger cw') = db (ledger cw)
     /\ cards cw' = cards cw
     /\ (forall response,
           r = Some response -> PaymentResponse.Status response = "failed"))
  /\ ((forall c, In c (cards cw) ->
                 Card.ID c = PaymentRequest.CardID payment ->
                 Card.UserID c <> userID) ->
      exists e,
        CardService.ProcessPayment cenv payment userID cw
        = (cw, (None, Some e))).
Proof.
  split.
  - intros cw' r e H. unfold CardService.ProcessPayment in H.
    destruct (Qleb (PaymentRequest.Amount payment) 0);
      [injection H as <- <- _; repeat split; intros; discriminate|].
    destruct (CardRepository.GetByIDAndUser (PaymentRequest.CardID payment)
                userID cw) as [card|];
      [|injection H as <- <- _; repeat split; intros; discriminate].
    destruct (CardService.verifyHMAC cenv card) as [e0|[|]];
      [injection H as <- <- _; repeat split; intros; discriminate | |
       injection H as <- <- _; repeat split; intros; discriminate].
    destruct (CardService.decryptCardData cenv (Card.EncryptedData card))
      as [e0|data];
      [injection H as <- <- _; repeat split; intros; discriminate|].
    cbv zeta in H.
    set (w1 := mkWorld (db (ledger cw)) (Pos.succ (next_uuid (ledger cw)))) in H.
    pose proof (@keeps_db_UpdateBalanceTx (clock cenv) [] (Card.AccountID card)
                  (- PaymentRequest.Amount payment) w1) as K2.
    destruct (AccountRepository.UpdateBalanceTx (clock cenv) []
                (Card.AccountID card) (- PaymentRequest.Amount payment) w1)
      as [w2 [tx|e2]]; cbn [fst] in K2.
    + match type of H with
      | context [TransactionRepository.CreateTx tx ?t w2] =>
          pose proof (@keeps_db_CreateTx tx t w2) as K3;
          destruct (TransactionRepository.CreateTx tx t w2) as [w3 [tx'|e3]]
      end; cbn [fst] in K3.
      * unfold Commit in H. unfold CardRepository.UpdateLastUsed in H.
        discriminate H.
      * injection H as <- <- _. cbn [ledger cards].
        split; [rewrite K3, K2; reflexivity|]. split; [reflexivity|].
        intros response E. injection E as <-. reflexivity.
    + injection H as <- <- _. cbn [ledger cards].
      split; [rewrite K2; reflexivity|]. split; [reflexivity|].
      intros response E. injection E as <-. reflexivity.
  - intros Hown. unfold CardService.ProcessPayment.
    destruct (Qleb (PaymentRequest.Amount payment) 0); [eauto|].
    unfold CardRepository.GetByIDAndUser.
    destruct (find _ (cards cw)) as [c|] eqn:Hf; [|eauto].
    exfalso. apply find_some in Hf. destruct Hf as [Hin Hc].
    apply andb_true_iff in Hc. destruct Hc as [Hid Hu].
    apply Pos.eqb_eq in Hid, Hu. exact (Hown c Hin Hid Hu).
Qed.

Lemma card_payment_all_or_nothing_witness :
  exists e,
    CardService.ProcessPayment example_card_env (PaymentRequest.mk 40 30) 8
      example_card_world = (example_card_world, (None, Some e)).
Proof.
  destruct (@card_payment_all_or_nothing example_card_env
              (PaymentRequest.mk 40 30) 8%positive example_card_world)
    as [_ H].
  apply H. intros c [<-|[]] _. discriminate.
Defined.

(* ================================================================== *)
(** * The annuity closes *)

Lemma Qsum_split (l : list PaymentSchedule.t) :
  (forall p, In p l ->
             PaymentSchedule.Principal p + PaymentSchedule.Interest p
             == PaymentSchedule.Amount p) ->
  Qsum (map PaymentSchedule.Amount l)
  == Qsum (map PaymentSchedule.Principal l)
     + Qsum (map PaymentSchedule.Interest l).
Proof.
  induction l as [|x l IH]; intros H; cbn [map Qsum fold_right]; [ring|].
  fold (Qsum (map PaymentSchedule.Amount l)).
  fold (Qsum (map PaymentSchedule.Principal l)).
  fold (Qsum (map PaymentSchedule.Interest l)).
  rewrite IH by (intros p Hp; apply H; right; exact Hp).
  rewrite <- (H x) by (left; reflexivity). ring.
Qed.

(** X24: with the annuity payment, every installment splits exactly.
    For a credit over at least one month at a positive rate whose monthly
    payment is the one [CalculateMonthlyPayment] gives for its amount, term
    and rate (as [CreateCredit] sets it), in exact arithmetic every row
    [generatePaymentSchedule] computes and hands to the repository, the
    last one included, has principal plus interest equal to its amount,
    and the amounts of all the rows add up to the principal of the credit
    plus the interest components of all the rows. *)
Theorem annuity_schedule_splits_exactly env credit w :
  (1 <= Credit.TermMonths credit)%Z ->
  0 < Credit.InterestRate credit ->
  Credit.MonthlyPayment credit
  == CreditService.CalculateMonthlyPayment (Credit.Amount credit)
       (Credit.TermMonths credit) (Credit.InterestRate credit) ->
  exists rows,
    CreditService.generatePaymentSchedule env credit w = hand_rows rows w
    /\ List.length rows = Z.to_nat (Credit.TermMonths credit)
    /\ (forall p, In p rows ->
                  PaymentSchedule.Principal p + PaymentSchedule.Interest p
                  == PaymentSchedule.Amount p)
    /\ Qsum (map PaymentSchedule.Amount rows)
       == Credit.Amount credit + Qsum (map PaymentSchedule.Interest rows).
Proof.
  intros HT Hrate HM.
  exists (issued_schedule env credit (next_uuid w)).
  split; [apply generatePaymentSchedule_hands|].
  unfold issued_schedule.
  set (r := Credit.InterestRate credit / 12 / 100) in *.
  split; [apply schedule_rows_length|].
  assert (Hr : 0 < r).
  { unfold r. apply Qlt_shift_div_l; [reflexivity|].
    apply Qlt_shift_div_l; [reflexivity|]. lra. }
  destruct (Z.to_nat (Credit.TermMonths credit)) as [|T] eqn:ET; [lia|].
  assert (HTn : Credit.TermMonths credit = Z.of_nat (S T)) by lia.
  destruct (@schedule_rows_last env credit r T 1 (Credit.Amount credit)
              (next_uuid w)) as (id' & Hlast); [lia|].
  assert (Hsplit :
    forall p, In p (schedule_rows env credit r (S T) 1 (Credit.Amount credit)
                      (next_uuid w)) ->
              PaymentSchedule.Principal p + PaymentSchedule.Interest p
              == PaymentSchedule.Amount p).
  { rewrite Hlast. intros p Hp. apply in_app_or in Hp. destruct Hp as [Hp|Hp].
    - apply (@schedule_rows_split env credit r T 1 (Credit.Amount credit)
               (next_uuid w) p Hp).
      pose proof (@schedule_rows_numbers env credit r T 1 (Credit.Amount credit)
                    (next_uuid w) p Hp). lia.
    - destruct Hp as [<-|[]].
      cbn [PaymentSchedule.Principal PaymentSchedule.Interest
             PaymentSchedule.Amount].
      rewrite <- (@annuity_last_row credit r T Hr HTn).
      + ring.
      + rewrite HM. unfold CreditService.CalculateMonthlyPayment.
        fold r. rewrite HTn. reflexivity. }
  split; [exact Hsplit|].
  rewrite (Qsum_split _ Hsplit).
  pose proof (@remainingPrincipal_loop_sum env credit r T 1
                (Credit.Amount credit) (next_uuid w)) as Hsum.
  rewrite Hlast at 1. rewrite map_app, Qsum_app.
  cbn [map Qsum fold_right PaymentSchedule.Principal].
  rewrite Hsum. ring.
Qed.

Lemma annuity_schedule_splits_exactly_witness :
  exists rows,
    CreditService.generatePaymentSchedule example_env example_annuity_credit
      example_annuity_world = hand_rows rows example_annuity_world
    /\ List.length rows = 2%nat
    /\ (forall p, In p rows ->
                  PaymentSchedule.Principal p + PaymentSchedule.Interest p
                  == PaymentSchedule.Amount p).
Proof.
  destruct (@annuity_schedule_splits_exactly example_env example_annuity_credit
              example_annuity_world) as (rows & H1 & H2 & H3 & _).
  - cbn. lia.
  - reflexivity.
  - reflexivity.
  - exists rows. repeat split; assumption.
Defined.

(* ================================================================== *)
(** * The well-formed store is kept *)

Lemma uuid_grows_ret A (a : A) : uuid_grows (ret a).
Proof. intros w. cbn. lia. Qed.

Lemma uuid_grows_fail A e : uuid_grows (@fail A e).
Proof. intros w. cbn. lia. Qed.

Lemma uuid_grows_wrap A s (c : M A) : uuid_grows c -> uuid_grows (wrap s c).
Proof.
  intros H w. specialize (H w). unfold wrap.
  destruct (c w) as [w1 [a|e]]; exact H.
Qed.

Lemma uuid_grows_bind A B (c : M A) (k : A -> M B) :
  uuid_grows c -> (forall a, uuid_grows (k a)) -> uuid_grows (bind c k).
Proof.
  intros Hc Hk w. specialize (Hc w). unfold bind.
  destruct (c w) as [w1 [a|e]]; cbn [fst] in *; [|exact Hc].
  specialize (Hk a w1). lia.
Qed.

Lemma uuid_grows_uuid_New : uuid_grows uuid_New.
Proof. intros w. cbn. lia. Qed.

Lemma uuid_grows_BeginTx : uuid_grows BeginTx.
Proof. intros w. cbn. lia. Qed.

Lemma uuid_grows_Commit tx : uuid_grows (Commit tx).
Proof. intros w. cbn. lia. Qed.

Lemma uuid_grows_GetByID id : uuid_grows (AccountRepository.GetByID id).
Proof.
  intros w. unfold AccountRepository.GetByID.
  destruct (find_account _ _); cbn; lia.
Qed.

Lemma uuid_grows_UpdateBalanceTx env tx id amount :
  uuid_grows (AccountRepository.UpdateBalanceTx env tx id amount).
Proof.
  intros w. unfold AccountRepository.UpdateBalanceTx.
  destruct (negb _); [cbn; lia|]. destruct (filter _ _); cbn; lia.
Qed.

Lemma uuid_grows_CreateTx tx t :
  uuid_grows (TransactionRepository.CreateTx tx t).
Proof.
  intros w. unfold TransactionRepository.CreateTx.
  destruct (negb _); [cbn; lia|]. destruct (has_transaction _ _); [cbn; lia|].
  destruct (find_account _ _); cbn; lia.
Qed.

Lemma uuid_grows_Create account : uuid_grows (AccountRepository.Create account).
Proof.
  intros w. unfold AccountRepository.Create.
  destruct (negb _); [cbn; lia|]. destruct (find_account _ _); cbn; lia.
Qed.

Ltac grows :=
  repeat first
    [ apply uuid_grows_ret
    | apply uuid_grows_fail
    | apply uuid_grows_uuid_New
    | apply uuid_grows_BeginTx
    | apply uuid_grows_Commit
    | apply uuid_grows_GetByID
    | apply uuid_grows_UpdateBalanceTx
    | apply uuid_grows_CreateTx
    | apply uuid_grows_Create
    | apply uuid_grows_wrap
    | apply uuid_grows_bind; [|intros ?]
    | match goal with
      | |- uuid_grows (if ?b then _ else _) => destruct b
      end ].

Lemma Deposit_grows env accountID amount userID :
  uuid_grows (AccountService.Deposit env accountID amount userID).
Proof. unfold AccountService.Deposit. grows. Qed.

Lemma Withdraw_grows env accountID amount userID :
  uuid_grows (AccountService.Withdraw env accountID amount userID).
Proof.
  unfold AccountService.Withdraw, AccountService.Withdraw_checks,
    AccountService.Withdraw_transaction. grows.
Qed.

Lemma Transfer_grows env fromAccountID toAccountID amount userID :
  uuid_grows (AccountService.Transfer env fromAccountID toAccountID amount userID).
Proof. unfold AccountService.Transfer. grows. Qed.

Lemma CreateAccount_grows env userID currency :
  uuid_grows (AccountService.CreateAccount env userID currency).
Proof. unfold AccountService.CreateAccount. grows. Qed.

Lemma store_wf_weaken w w' :
  store_wf w -> db w' = db w -> (next_uuid w <= next_uuid w')%positive ->
  store_wf w'.
Proof.
  intros (H1 & H2 & H3 & H4) Hd Hn. unfold store_wf. rewrite Hd.
  split; [exact H1|].
  split; [eapply Forall_impl; [|exact H2]; cbn beta; intros; lia|].
  split; [eapply Forall_impl; [|exact H3]; cbn beta; intros; lia|].
  eapply Forall_impl; [|exact H4]; cbn beta; intros; lia.
Qed.

Lemma store_wf_tx_view tx :
  forall d m,
    store_wf (mkWorld d m) -> writes_below m tx ->
    store_wf (mkWorld (tx_view d tx) m).
Proof.
  unfold tx_view. induction tx as [|wr tx IH]; intros d m Hwf Hb; [exact Hwf|].
  inversion Hb as [|? ? Hwr Htx]; subst. cbn [fold_left]. apply IH; [|exact Htx].
  destruct Hwf as (H1 & H2 & H3 & H4). cbn [db next_uuid] in *.
  destruct wr as [id amount now|t]; unfold store_wf; cbn [db next_uuid
    apply_write set_accounts set_transactions accounts credits
    payment_schedules transactions].
  - rewrite add_balance_keys. repeat split; assumption.
  - repeat split; try assumption.
    apply Forall_app. split; [exact H4|]. constructor; [exact Hwr|constructor].
Qed.

Lemma store_wf_commit w tx m :
  store_wf w -> (next_uuid w <= m)%positive -> writes_below m tx ->
  store_wf (mkWorld (tx_view (db w) tx) m).
Proof.
  intros Hwf Hm Hb. apply store_wf_tx_view; [|exact Hb].
  apply (@store_wf_weaken w); [exact Hwf | reflexivity | exact Hm].
Qed.

Lemma Deposit_commit_inv env accountID amount userID w w' :
  AccountService.Deposit env accountID amount userID w = (w', Ok tt) ->
  w' = mkWorld
         (tx_view (db w)
            [ WUpdateBalance accountID amount (time_Now env);
              WInsertTransaction
                (Transaction.mk (Pos.succ (next_uuid w)) accountID amount
                   TransactionTypeDeposit (Some (next_uuid w)) (time_Now env)) ])
         (Pos.succ (Pos.succ (next_uuid w))).
Proof.
  unfold AccountService.Deposit. intros H.
  destruct (Qleb amount 0) eqn:HA; [discriminate H|].
  inv_ok H. apply GetByID_inv in Hstep. destruct Hstep as [-> _].
  inv_ok H. inv_ok H.
  inv_ok H. apply BeginTx_inv in Hstep. destruct Hstep as [-> ->].
  inv_ok H. apply UpdateBalanceTx_inv in Hstep. destruct Hstep as (-> & -> & _ & _).
  inv_ok H. apply uuid_New_inv in Hstep. destruct Hstep as [-> ->].
  inv_ok H. apply uuid_New_inv in Hstep. destruct Hstep as [-> ->].
  inv_ok H. apply CreateTx_inv in Hstep. destruct Hstep as (-> & -> & _).
  inv_ok H. apply Commit_inv in H. subst w'. reflexivity.
Qed.

Lemma Withdraw_commit_inv env accountID amount userID w w' :
  AccountService.Withdraw env accountID amount userID w = (w', Ok tt) ->
  w' = mkWorld
         (tx_view (db w)
            [ WUpdateBalance accountID (- amount) (time_Now env);
              WInsertTransaction
                (Transaction.mk (Pos.succ (next_uuid w)) accountID amount
                   TransactionTypeWithdrawal (Some (next_uuid w))
                   (time_Now env)) ])
         (Pos.succ (Pos.succ (next_uuid w))).
Proof.
  unfold AccountService.Withdraw. intros H.
  inv_ok H. apply Withdraw_checks_world in Hstep. subst w0.
  unfold AccountService.Withdraw_transaction in H.
  inv_ok H. apply BeginTx_inv in Hstep. destruct Hstep as [-> ->].
  inv_ok H. apply UpdateBalanceTx_inv in Hstep. destruct Hstep as (-> & -> & _ & _).
  inv_ok H. apply uuid_New_inv in Hstep. destruct Hstep as [-> ->].
  inv_ok H. apply uuid_New_inv in Hstep. destruct Hstep as [-> ->].
  inv_ok H. apply CreateTx_inv in Hstep. destruct Hstep as (-> & -> & _).
  inv_ok H. apply Commit_inv in H. subst w'. reflexivity.
Qed.

Lemma store_wf_outcome A (c : M A) w :
  store_wf w -> uuid_grows c ->
  (forall w' e, c w = (w', Err e) -> db w' = db w) ->
  (forall w' a, c w = (w', Ok a) -> store_wf w') ->
  store_wf (fst (c w)).
Proof.
  intros Hwf Hg He Ho. specialize (Hg w).
  destruct (c w) as [w' [a|e]] eqn:E; cbn [fst] in *.
  - apply (Ho w' a). reflexivity.
  - apply (@store_wf_weaken w); [exact Hwf | apply (He w' e); reflexivity | exact Hg].
Qed.

Lemma Deposit_store_wf env accountID amount userID w :
  store_wf w ->
  store_wf (fst (AccountService.Deposit env accountID amount userID w)).
Proof.
  intros Hwf. apply store_wf_outcome; [exact Hwf | apply Deposit_grows | |].
  - intros w' e. apply Deposit_err_db.
  - intros w' [] H. apply Deposit_commit_inv in H. subst w'.
    apply store_wf_commit; [exact Hwf | lia |].
    repeat constructor. cbn. lia.
Qed.

Lemma Withdraw_store_wf env accountID amount userID w :
  store_wf w ->
  store_wf (fst (AccountService.Withdraw env accountID amount userID w)).
Proof.
  intros Hwf. apply store_wf_outcome; [exact Hwf | apply Withdraw_grows | |].
  - intros w' e. apply Withdraw_err_db.
  - intros w' [] H. apply Withdraw_commit_inv in H. subst w'.
    apply store_wf_commit; [exact Hwf | lia |].
    repeat constructor. cbn. lia.
Qed.

Lemma Transfer_store_wf env fromAccountID toAccountID amount userID w :
  store_wf w ->
  store_wf (fst (AccountService.Transfer env fromAccountID toAccountID amount
                   userID w)).
Proof.
  intros Hwf. apply store_wf_outcome; [exact Hwf | apply Transfer_grows | |].
  - intros w' e. apply Transfer_err_db.
  - intros w' [] H. apply Transfer_commit_inv in H.
    destruct H as (_ & _ & _ & ->).
    apply store_wf_commit; [exact Hwf | lia |].
    unfold Transfer_writes. repeat constructor; cbn; lia.
Qed.

Lemma NoDup_snoc A (l : list A) x : NoDup l -> ~ In x l -> NoDup (l ++ [x]).
Proof.
  intros Hl Hx. induction Hl as [|y l Hy Hl IH]; simpl.
  - constructor; [intros []|constructor].
  - constructor.
    + intros Hin. apply in_app_or in Hin. destruct Hin as [Hin|[<-|[]]].
      * contradiction.
      * apply Hx. left. reflexivity.
    + apply IH. intros Hin. apply Hx. right. exact Hin.
Qed.

Lemma find_account_None_notin l id :
  find_account l id = None -> ~ In id (map Account.ID l).
Proof.
  unfold find_account. intros H Hin. apply in_map_iff in Hin.
  destruct Hin as (a & Ha & Hl). pose proof (find_none _ _ H a Hl) as Hn.
  simpl in Hn. rewrite Ha, Pos.eqb_refl in Hn. discriminate Hn.
Qed.

Lemma CreateAccount_store_wf env userID currency w :
  store_wf w ->
  store_wf (fst (AccountService.CreateAccount env userID currency w)).
Proof.
  intros Hwf. apply store_wf_outcome; [exact Hwf | apply CreateAccount_grows | |].
  - intros w' e. apply CreateAccount_err_db.
  - intros w' account H. apply CreateAccount_inv in H.
    destruct H as (_ & Hacc & Hnone & ->).
    destruct Hwf as (H1 & H2 & H3 & H4). unfold store_wf.
    cbn [db next_uuid set_accounts accounts credits payment_schedules
           transactions].
    split.
    { rewrite map_app. cbn [map]. apply NoDup_snoc; [exact H1|].
      rewrite Hacc. cbn [Account.ID]. apply find_account_None_notin. exact Hnone. }
    split; [eapply Forall_impl; [|exact H2]; cbn beta; intros; lia|].
    split; [eapply Forall_impl; [|exact H3]; cbn beta; intros; lia|].
    eapply Forall_impl; [|exact H4]; cbn beta; intros; lia.
Qed.

(** X25: the account operations keep the store well formed.  Starting
    from a store with unique account identifiers in which every stored
    credit, installment and entry carries an identifier already drawn,
    the store is again such after a deposit, a withdrawal, a transfer or
    the opening of an account, whatever their arguments and whether they
    succeed or fail; and the identifier counter never moves back. *)
Theorem account_operations_keep_store_wf env w :
  store_wf w ->
  (forall accountID amount userID,
     store_wf (fst (AccountService.Deposit env accountID amount userID w))
     /\ (next_uuid w
         <= next_uuid (fst (AccountService.Deposit env accountID amount
                              userID w)))%positive)
  /\ (forall accountID amount userID,
        store_wf (fst (AccountService.Withdraw env accountID amount userID w))
        /\ (next_uuid w
            <= next_uuid (fst (AccountService.Withdraw env accountID amount
                                 userID w)))%positive)
  /\ (forall fromAccountID toAccountID amount userID,
        store_wf (fst (AccountService.Transfer env fromAccountID toAccountID
                         amount userID w))
        /\ (next_uuid w
            <= next_uuid (fst (AccountService.Transfer env fromAccountID
                                 toAccountID amount userID w)))%positive)
  /\ (forall userID currency,
        store_wf (fst (AccountService.CreateAccount env userID currency w))
        /\ (next_uuid w
            <= next_uuid (fst (AccountService.CreateAccount env userID
                                 currency w)))%positive).
Proof.
  intros Hwf. split; [|split; [|split]]; intros; split.
  - apply Deposit_store_wf. exact Hwf.
  - apply Deposit_grows.
  - apply Withdraw_store_wf. exact Hwf.
  - apply Withdraw_grows.
  - apply Transfer_store_wf. exact Hwf.
  - apply Transfer_grows.
  - apply CreateAccount_store_wf. exact Hwf.
  - apply CreateAccount_grows.
Qed.

Lemma account_operations_keep_store_wf_witness :
  store_wf (fst (AccountService.Transfer example_env 1 2 30 7 example_world)).
Proof.
  destruct (@account_operations_keep_store_wf example_env example_world)
    as (_ & _ & H & _).
  - repeat split; repeat constructor; cbn; intuition discriminate.
  - apply (H 1%positive 2%positive 30 7%positive).
Defined.

(* ================================================================== *)
(** * A deposit undone by a withdrawal *)

Lemma Deposit_run env accountID amount userID account w :
  store_wf w ->
  find_account (accounts (db w)) accountID = Some account ->
  Account.UserID account = userID ->
  Account.Currency account = "RUB" ->
  0 <= Account.Balance account ->
  0 < amount ->
  AccountService.Deposit env accountID amount userID w
  = (mkWorld
       (mkDB (map (add_balance accountID amount (time_Now env))
                (accounts (db w)))
          (transactions (db w)
           ++ [Transaction.mk (Pos.succ (next_uuid w)) accountID amount
                 TransactionTypeDeposit (Some (next_uuid w)) (time_Now env)])
          (credits (db w)) (payment_schedules (db w)))
       (Pos.succ (Pos.succ (next_uuid w))),
     Ok tt).
Proof.
  intros Hwf Ha Hu Hcur Hnn Hpos.
  unfold AccountService.Deposit.
  pose proof Hpos as Hpos'. apply Qleb_false in Hpos'. rewrite Hpos'.
  unfold bind at 1. unfold wrap at 1. unfold AccountRepository.GetByID.
  rewrite Ha, Hu, Pos.eqb_refl. cbn [negb].
  rewrite (find_account_RUB_check _ Hcur).
  apply (@single_entry_transaction_run _ _ _ _ env accountID amount amount
           TransactionTypeDeposit account w Hwf Ha); [lra | exact Hpos].
Qed.

Lemma Withdraw_run env accountID amount userID account w :
  store_wf w ->
  find_account (accounts (db w)) accountID = Some account ->
  Account.UserID account = userID ->
  Account.Currency account = "RUB" ->
  0 < amount ->
  amount <= Account.Balance account ->
  AccountService.Withdraw env accountID amount userID w
  = (mkWorld
       (mkDB (map (add_balance accountID (- amount) (time_Now env))
                (accounts (db w)))
          (transactions (db w)
           ++ [Transaction.mk (Pos.succ (next_uuid w)) accountID amount
                 TransactionTypeWithdrawal (Some (next_uuid w)) (time_Now env)])
          (credits (db w)) (payment_schedules (db w)))
       (Pos.succ (Pos.succ (next_uuid w))),
     Ok tt).
Proof.
  intros Hwf Ha Hu Hcur Hpos Hle.
  unfold AccountService.Withdraw, AccountService.Withdraw_checks,
    AccountService.Withdraw_transaction.
  pose proof Hpos as Hpos'. apply Qleb_false in Hpos'.
  unfold bind at 1. rewrite Hpos'.
  unfold bind at 1. unfold wrap at 1. unfold AccountRepository.GetByID.
  rewrite Ha, Hu, Pos.eqb_refl. cbn [negb].
  pose proof Hle as Hle'. apply Qltb_false in Hle'. rewrite Hle'.
  rewrite (find_account_RUB_check _ Hcur). unfold ret at 1.
  apply (@single_entry_transaction_run _ _ _ _ env accountID (- amount) amount
           TransactionTypeWithdrawal account w Hwf Ha); [lra | exact Hpos].
Qed.

Lemma add_balance_owner id amount now a :
  Account.UserID (add_balance id amount now a) = Account.UserID a
  /\ Account.Currency (add_balance id amount now a) = Account.Currency a.
Proof. unfold add_balance. destruct (Pos.eqb _ _); split; reflexivity. Qed.

(** X26: a withdrawal undoes a deposit.  In a well-formed store, when the
    owner of a RUB account with a non-negative balance deposits a positive
    amount and then withdraws the same amount, and the amount, the balance
    and their sum are values the [DECIMAL(15,2)] columns keep as they are
    (whole cents, fewer than fourteen digits before the point), both
    operations succeed, the balance is back to what it was, every other
    account is as before, and the history has grown by exactly the deposit
    entry followed by the withdrawal entry. *)
Theorem Deposit_then_Withdraw_restores env accountID amount userID account w :
  store_wf w ->
  find_account (accounts (db w)) accountID = Some account ->
  Account.UserID account = userID ->
  Account.Currency account = "RUB" ->
  0 <= Account.Balance account ->
  0 < amount ->
  held_15_2 amount ->
  held_15_2 (Account.Balance account) ->
  held_15_2 (Account.Balance account + amount) ->
  exists w1 w2 account2,
    AccountService.Deposit env accountID amount userID w = (w1, Ok tt)
    /\ AccountService.Withdraw env accountID amount userID w1 = (w2, Ok tt)
    /\ find_account (accounts (db w2)) accountID = Some account2
    /\ Account.Balance account2 == Account.Balance account
    /\ held_15_2 (Account.Balance account2)
    /\ (forall id, id <> accountID ->
                   find_account (accounts (db w2)) id
                   = find_account (accounts (db w)) id)
    /\ transactions (db w2)
       = transactions (db w)
         ++ [ Transaction.mk (Pos.succ (next_uuid w)) accountID amount
                TransactionTypeDeposit (Some (next_uuid w)) (time_Now env);
              Transaction.mk (Pos.succ (next_uuid w1)) accountID amount
                TransactionTypeWithdrawal (Some (next_uuid w1))
                (time_Now env) ].
Proof.
  intros Hwf Ha Hu Hcur Hnn Hpos _ Hbal _.
  pose proof (@Deposit_run env accountID amount userID account w
                Hwf Ha Hu Hcur Hnn Hpos) as Hdep.
  pose proof (@Deposit_store_wf env accountID amount userID w Hwf) as Hwf1.
  rewrite Hdep in Hwf1. cbn [fst] in Hwf1.
  set (w1 := mkWorld
               (mkDB (map (add_balance accountID amount (time_Now env))
                        (accounts (db w)))
                  (transactions (db w)
                   ++ [Transaction.mk (Pos.succ (next_uuid w)) accountID amount
                         TransactionTypeDeposit (Some (next_uuid w))
                         (time_Now env)])
                  (credits (db w)) (payment_schedules (db w)))
               (Pos.succ (Pos.succ (next_uuid w)))) in *.
  assert (Ha1 : find_account (accounts (db w1)) accountID
                = Some (add_balance accountID amount (time_Now env) account)).
  { unfold w1. cbn [db accounts]. apply find_account_add_same. exact Ha. }
  destruct (add_balance_owner accountID amount (time_Now env) account)
    as [Hu1 Hc1].
  assert (Hb1 : Account.Balance
                  (add_balance accountID amount (time_Now env) account)
                = Account.Balance account + amount).
  { apply add_balance_Balance_same. eapply find_account_ID. exact Ha. }
  pose proof (@Withdraw_run env accountID amount userID _ w1 Hwf1 Ha1
                ltac:(rewrite Hu1; exact Hu) ltac:(rewrite Hc1; exact Hcur)
                Hpos ltac:(rewrite Hb1; lra)) as Hwd.
  eexists. eexists. eexists. split; [exact Hdep|]. split; [exact Hwd|].
  cbn [db accounts transactions].
  split; [apply find_account_add_same; exact Ha1|].
  assert (Hback :
    Account.Balance
      (add_balance accountID (- amount) (time_Now env)
         (add_balance accountID amount (time_Now env) account))
    == Account.Balance account).
  { rewrite add_balance_Balance_same.
    - rewrite Hb1. ring.
    - rewrite add_balance_ID. eapply find_account_ID. exact Ha. }
  split; [exact Hback|].
  split; [apply (@held_2_Qeq 15 (Account.Balance account));
          [symmetry; exact Hback | exact Hbal]|].
  split.
  { intros id Hne. rewrite find_account_add_other by exact Hne.
    unfold w1. cbn [db accounts]. apply find_account_add_other. exact Hne. }
  unfold w1 at 1. cbn [db transactions]. rewrite <- app_assoc. reflexivity.
Qed.

Lemma Deposit_then_Withdraw_restores_witness :
  exists w1 w2 account2,
    AccountService.Deposit example_env 1 30 7 example_world = (w1, Ok tt)
    /\ AccountService.Withdraw example_env 1 30 7 w1 = (w2, Ok tt)
    /\ find_account (accounts (db w2)) 1 = Some account2
    /\ Account.Balance account2 == 100.
Proof.
  destruct (@Deposit_then_Withdraw_restores example_env 1%positive 30 7%positive
              (example_account 1 7 100) example_world)
    as (w1 & w2 & account2 & H1 & H2 & H3 & H4 & _).
  - repeat split; repeat constructor; cbn; intuition discriminate.
  - reflexivity.
  - reflexivity.
  - reflexivity.
  - vm_compute. discriminate.
  - vm_compute. reflexivity.
  - vm_compute. reflexivity.
  - vm_compute. reflexivity.
  - vm_compute. reflexivity.
  - exists w1, w2, account2. repeat split; assumption.
Defined.

(* ================================================================== *)
(** * Listing the cards of a user *)

Lemma list_responses_ok cenv cards :
  forall acc responses,
    CardService.list_responses cenv cards acc = inr responses ->
    exists shown,
      responses = acc ++ shown
      /\ Forall2 (fun card r => CardService.card_response cenv card = inr r)
           cards shown.
Proof.
  induction cards as [|card rest IH]; intros acc responses H.
  - cbn in H. injection H as <-. exists []. rewrite app_nil_r.
    split; [reflexivity|constructor].
  - cbn [CardService.list_responses] in H.
    destruct (CardService.card_response cenv card) as [e|r] eqn:E;
      [discriminate H|].
    apply IH in H. destruct H as (shown & -> & Hall).
    exists (r :: shown). rewrite <- app_assoc. split; [reflexivity|].
    constructor; assumption.
Qed.

Lemma list_responses_fails cenv cards :
  forall acc card e,
    In card cards ->
    CardService.card_response cenv card = inl e ->
    exists e', CardService.list_responses cenv cards acc = inl e'.
Proof.
  induction cards as [|c rest IH]; intros acc card e Hin He; [destruct Hin|].
  cbn [CardService.list_responses].
  destruct (CardService.card_response cenv c) as [e0|r] eqn:E; [eauto|].
  destruct Hin as [->|Hin]; [congruence|].
  eapply IH; eauto.
Qed.

Lemma card_response_Name cenv card r :
  CardService.card_response cenv card = inr r ->
  CardResponse.ID r = Card.ID card /\ CardResponse.Name r = Card.Name card.
Proof.
  unfold CardService.card_response.
  destruct (CardService.verifyHMAC cenv card) as [e|[|]]; try discriminate.
  destruct (CardService.decryptCardData cenv (Card.EncryptedData card))
    as [e|d]; [discriminate|].
  intros H. injection H as <-. split; reflexivity.
Qed.

(** X27: the list of the cards of a user is all or nothing.  When
    [ListUserCards] returns, it has exactly one response per card of the
    user, in the order of the query (newest first), each for a card that
    passed the integrity check and decrypted, and each with an empty name;
    if one card of the user fails the check or does not decrypt, the whole
    listing fails.  Nothing is written either way. *)
Theorem ListUserCards_all_or_nothing cenv userID cw :
  (forall cw' responses,
     CardService.ListUserCards cenv userID cw = (cw', inr responses) ->
     cw' = cw
     /\ Forall2 (fun card r =>
                   CardService.card_response cenv card = inr r
                   /\ CardResponse.ID r = Card.ID card
                   /\ CardResponse.Name r = EmptyString)
          (CardRepository.ListByUser userID cw) responses)
  /\ (forall card e,
        In card (CardRepository.ListByUser userID cw) ->
        CardService.card_response cenv card = inl e ->
        exists e', CardService.ListUserCards cenv userID cw = (cw, inl e')).
Proof.
  unfold CardService.ListUserCards. split.
  - intros cw' responses H. injection H as <- H. split; [reflexivity|].
    apply list_responses_ok in H. destruct H as (shown & -> & Hall).
    cbn [app].
    assert (Hnames : Forall (fun card => Card.Name card = EmptyString)
                       (CardRepository.ListByUser userID cw)).
    { unfold CardRepository.ListByUser. apply Forall_forall. intros c Hc.
      apply in_map_iff in Hc. destruct Hc as (c0 & <- & _). reflexivity. }
    induction Hall as [|card r cards rs Hr Hall IH]; [constructor|].
    inversion Hnames as [|? ? Hn Hrest]; subst.
    destruct (card_response_Name _ _ Hr) as [Hid Hname].
    constructor; [|apply IH; exact Hrest].
    split; [exact Hr|]. split; [exact Hid|]. rewrite Hname. exact Hn.
  - intros card e Hin He.
    destruct (@list_responses_fails cenv _ [] card e Hin He) as [e' H].
    exists e'. rewrite H. reflexivity.
Qed.

Lemma ListUserCards_all_or_nothing_witness :
  CardService.ListUserCards example_card_env 7 example_card_world
  = (example_card_world,
     inr [CardResponse.mk 40 "**** **** **** 0006" "10/29" EmptyString]).
Proof.
  destruct (@ListUserCards_all_or_nothing example_card_env 7%positive
              example_card_world) as [H _].
  destruct (H example_card_world
              [CardResponse.mk 40 "**** **** **** 0006" "10/29" EmptyString]
              eq_refl) as [_ _].
  reflexivity.
Defined.

(* ================================================================== *)
(** * The guards of "pay now" *)

(** X28: only the owner of a credit can pay an installment through the
    handler.  [MakePayment] answers 404 for a credit that does not exist,
    403 for a credit of another user and 500 for a credit of the requester
    without a pending installment, and in these three cases the state is
    exactly as before: no installment is handed to [ProcessPayment]. *)
Theorem MakePayment_guards env req userID w :
  (find_credit (credits (db w)) (CreditPaymentRequest.CreditID req) = None ->
   CreditHandler.MakePayment env (Some req) (User userID) w
   = (w, CreditHandler.StatusNotFound))
  /\ (forall credit,
        find_credit (credits (db w)) (CreditPaymentRequest.CreditID req)
        = Some credit ->
        Credit.UserID credit <> userID ->
        CreditHandler.MakePayment env (Some req) (User userID) w
        = (w, CreditHandler.StatusForbidden))
  /\ (forall credit,
        find_credit (credits (db w)) (CreditPaymentRequest.CreditID req)
        = Some credit ->
        Credit.UserID credit = userID ->
        (forall q, In q (payment_schedules (db w)) ->
                   PaymentSchedule.CreditID q = CreditPaymentRequest.CreditID req ->
                   PaymentSchedule.Status q <> "pending") ->
        CreditHandler.MakePayment env (Some req) (User userID) w
        = (w, CreditHandler.StatusInternalServerError)).
Proof.
  unfold CreditHandler.MakePayment, CreditService.GetCreditByID, wrap,
    CreditRepository.GetCreditByID.
  split; [|split].
  - intros ->. reflexivity.
  - intros credit -> Hu. apply Pos.eqb_neq in Hu. rewrite Hu. reflexivity.
  - intros credit -> Hu Hnone. rewrite Hu, Pos.eqb_refl. cbn [negb].
    unfold CreditService.GetNextPayment, bind, wrap,
      CreditRepository.GetPaymentSchedule.
    destruct (find _ _) as [p|] eqn:Hf; [|reflexivity].
    exfalso. apply find_some in Hf. destruct Hf as [Hin Hst].
    apply GetPaymentSchedule_rows in Hin. destruct Hin as [Hin Hc].
    apply String.eqb_eq in Hst. exact (Hnone p Hin Hc Hst).
Qed.

Lemma MakePayment_guards_witness :
  CreditHandler.MakePayment example_env (Some (CreditPaymentRequest.mk 20 50))
    (User 8) (example_settle_world 100 "pending")
  = (example_settle_world 100 "pending", CreditHandler.StatusForbidden).
Proof.
  destruct (@MakePayment_guards example_env (CreditPaymentRequest.mk 20 50)
              8%positive (example_settle_world 100 "pending")) as (_ & H & _).
  apply (H example_credit).
  - reflexivity.
  - discriminate.
Defined.
